(** * unit-test-generator: a shallow embedding of [main.go]

    The program drives a text-generation backend to produce Google Test
    code for a C++ source file, checks the produced text with a chain of
    syntactic predicates, compiles and runs it in a temporary directory,
    measures line coverage with gcov and keeps the text only when the
    coverage reaches 80%.

    Conventions of the embedding.
    - A Go [string] is a sequence of bytes: [string] of the Standard
      Library, one [ascii] per byte.  [len(s)] is [String.length s].
    - [float64] is [spec_float] of [SpecFloat] at precision 53 and
      exponent bound 1024 (IEEE 754 binary64).
    - A Go [error] is a value of the inductive type [error]; the text that
      [fmt.Errorf] would format is not modelled, the data it carries is.
    - Calls that leave the process (the Ollama client, the file system,
      child processes, [time.Sleep]) are handlers over an abstract world;
      every call is recorded, with its arguments and its result, in a
      trace of events.  [log.Printf] and [fmt.Printf] are not modelled;
      [log.Fatalf], which ends the process, is. *)

From Stdlib Require Import String Ascii List ZArith Bool Arith Lia.
From Stdlib Require Import Floats.SpecFloat DecimalString.
Import ListNotations.

Local Open Scope list_scope.
Local Open Scope string_scope.

(** ** Bytes and string literals *)

(** The byte 0x22, written through its code. *)
Definition dquote : ascii := ascii_of_nat 34.

Definition byte (n : nat) : ascii := ascii_of_nat n.

Definition str1 (c : ascii) : string := String c EmptyString.

Definition is_empty (s : string) : bool :=
  match s with
  | EmptyString => true
  | String _ _ => false
  end.

(** ** Package [strings] *)

Module strings.

Fixpoint drop (n : nat) (s : string) : string :=
  match n, s with
  | O, _ => s
  | S _, EmptyString => EmptyString
  | S n', String _ s' => drop n' s'
  end.

Fixpoint take (n : nat) (s : string) : string :=
  match n, s with
  | O, _ => EmptyString
  | S _, EmptyString => EmptyString
  | S n', String c s' => String c (take n' s')
  end.

Fixpoint rev (s : string) : string :=
  match s with
  | EmptyString => EmptyString
  | String c s' => rev s' ++ str1 c
  end.

(** [strings.HasPrefix(s, prefix)] *)
Definition HasPrefix (s prefix : string) : bool := String.prefix prefix s.

(** [strings.HasSuffix(s, suffix)] *)
Fixpoint HasSuffix (s suffix : string) : bool :=
  String.eqb s suffix ||
  match s with
  | EmptyString => false
  | String _ s' => HasSuffix s' suffix
  end.

(** [strings.Contains(s, substr)] *)
Fixpoint Contains (s substr : string) : bool :=
  HasPrefix s substr ||
  match s with
  | EmptyString => false
  | String _ s' => Contains s' substr
  end.

(** [strings.Replace(s, old, new, 1)]: the first occurrence of [old],
    scanning from the left, is replaced; without an occurrence [s] is
    returned. *)
Fixpoint Replace1 (s old new : string) : string :=
  if HasPrefix s old then new ++ drop (String.length old) s
  else match s with
       | EmptyString => EmptyString
       | String c s' => String c (Replace1 s' old new)
       end.

(** [strings.TrimPrefix] and [strings.TrimSuffix] *)
Definition TrimPrefix (s prefix : string) : string :=
  if HasPrefix s prefix then drop (String.length prefix) s else s.

Definition TrimSuffix (s suffix : string) : string :=
  if HasSuffix s suffix then take (String.length s - String.length suffix) s else s.

(** [strings.Join(elems, sep)] *)
Fixpoint Join (elems : list string) (sep : string) : string :=
  match elems with
  | [] => EmptyString
  | [e] => e
  | e :: rest => e ++ sep ++ Join rest sep
  end.

(** White space in the sense of [unicode.IsSpace], on the UTF-8 bytes.
    One byte: TAB, LF, VT, FF, CR, SPACE. *)
Definition ascii_space (c : ascii) : bool :=
  let n := nat_of_ascii c in
  (((9 <=? n) && (n <=? 13)) || (n =? 32))%nat.

(** Two bytes: U+0085 (C2 85) and U+00A0 (C2 A0). *)
Definition space2 (c1 c2 : ascii) : bool :=
  ((nat_of_ascii c1 =? 194) &&
   ((nat_of_ascii c2 =? 133) || (nat_of_ascii c2 =? 160)))%nat.

(** Three bytes: U+1680 (E1 9A 80), U+2000..U+200A (E2 80 80..8A),
    U+2028, U+2029 (E2 80 A8, A9), U+202F (E2 80 AF), U+205F (E2 81 9F),
    U+3000 (E3 80 80). *)
Definition space3 (c1 c2 c3 : ascii) : bool :=
  let a := nat_of_ascii c1 in
  let b := nat_of_ascii c2 in
  let c := nat_of_ascii c3 in
  (((a =? 225) && (b =? 154) && (c =? 128)) ||
   ((a =? 226) && (b =? 128) &&
      (((128 <=? c) && (c <=? 138)) || (c =? 168) || (c =? 169) || (c =? 175))) ||
   ((a =? 226) && (b =? 129) && (c =? 159)) ||
   ((a =? 227) && (b =? 128) && (c =? 128)))%nat.

(** [strings.TrimLeftFunc(s, unicode.IsSpace)]: runes are decoded from the
    left; a byte sequence that is not the encoding of a white space rune
    stops the scan. *)
Fixpoint TrimLeftSpace (s : string) : string :=
  match s with
  | EmptyString => s
  | String c1 s1 =>
      if ascii_space c1 then TrimLeftSpace s1
      else match s1 with
           | EmptyString => s
           | String c2 s2 =>
               if space2 c1 c2 then TrimLeftSpace s2
               else match s2 with
                    | EmptyString => s
                    | String c3 s3 =>
                        if space3 c1 c2 c3 then TrimLeftSpace s3 else s
                    end
           end
  end.

(** The same scan from the right, on the reversed bytes: the last byte of
    the text comes first. *)
Fixpoint TrimLeftSpace_rev (s : string) : string :=
  match s with
  | EmptyString => s
  | String c1 s1 =>
      if ascii_space c1 then TrimLeftSpace_rev s1
      else match s1 with
           | EmptyString => s
           | String c2 s2 =>
               if space2 c2 c1 then TrimLeftSpace_rev s2
               else match s2 with
                    | EmptyString => s
                    | String c3 s3 =>
                        if space3 c3 c2 c1 then TrimLeftSpace_rev s3 else s
                    end
           end
  end.

Definition TrimRightSpace (s : string) : string :=
  rev (TrimLeftSpace_rev (rev s)).

(** [strings.TrimSpace(s)] *)
Definition TrimSpace (s : string) : string :=
  TrimRightSpace (TrimLeftSpace s).

End strings.

(** ** Package [regexp]

    Patterns are kept as syntax trees, the language of a pattern is the
    inductive predicate [lang], and matching is done with derivatives.
    The three patterns of the program use literals, character classes,
    concatenation, [*], [+] and a final [$] only. *)

Module regexp.

Inductive regex : Type :=
| Void : regex
| Eps : regex
| Class (p : ascii -> bool) : regex
| Cat (r1 r2 : regex) : regex
| Alt (r1 r2 : regex) : regex
| Star (r : regex) : regex.

Definition Chr (c : ascii) : regex := Class (Ascii.eqb c).

Definition Plus (r : regex) : regex := Cat r (Star r).

Fixpoint Literal (s : string) : regex :=
  match s with
  | EmptyString => Eps
  | String c s' => Cat (Chr c) (Literal s')
  end.

(** The language of a pattern. *)
Inductive lang : regex -> string -> Prop :=
| lang_eps : lang Eps EmptyString
| lang_class p c : p c = true -> lang (Class p) (str1 c)
| lang_cat r1 r2 s1 s2 :
    lang r1 s1 -> lang r2 s2 -> lang (Cat r1 r2) (s1 ++ s2)
| lang_alt_l r1 r2 s : lang r1 s -> lang (Alt r1 r2) s
| lang_alt_r r1 r2 s : lang r2 s -> lang (Alt r1 r2) s
| lang_star_nil r : lang (Star r) EmptyString
| lang_star_cons r s1 s2 :
    lang r s1 -> lang (Star r) s2 -> lang (Star r) (s1 ++ s2).

Fixpoint nullable (r : regex) : bool :=
  match r with
  | Void => false
  | Eps => true
  | Class _ => false
  | Cat r1 r2 => nullable r1 && nullable r2
  | Alt r1 r2 => nullable r1 || nullable r2
  | Star _ => true
  end.

(** Constructors that drop [Void] and [Eps] where they are neutral, so
    that derivatives stay small. *)
Definition cat (r1 r2 : regex) : regex :=
  match r1, r2 with
  | Void, _ => Void
  | _, Void => Void
  | Eps, _ => r2
  | _, _ => Cat r1 r2
  end.

Definition alt (r1 r2 : regex) : regex :=
  match r1, r2 with
  | Void, _ => r2
  | _, Void => r1
  | _, _ => Alt r1 r2
  end.

Fixpoint deriv (c : ascii) (r : regex) : regex :=
  match r with
  | Void => Void
  | Eps => Void
  | Class p => if p c then Eps else Void
  | Cat r1 r2 =>
      if nullable r1 then alt (cat (deriv c r1) r2) (deriv c r2)
      else cat (deriv c r1) r2
  | Alt r1 r2 => alt (deriv c r1) (deriv c r2)
  | Star r' => cat (deriv c r') (Star r')
  end.

(** The whole of [s] is in the language. *)
Fixpoint full_match (r : regex) (s : string) : bool :=
  match s with
  | EmptyString => nullable r
  | String c s' => full_match (deriv c r) s'
  end.

(** Some prefix of [s] is in the language. *)
Fixpoint prefix_match (r : regex) (s : string) : bool :=
  nullable r ||
  match s with
  | EmptyString => false
  | String c s' => prefix_match (deriv c r) s'
  end.

(** A compiled pattern: its body, and whether it ends with [$], which
    without flags matches at the end of the text only. *)
Record Regexp : Type := MustCompile {
  body : regex;
  anchored_end : bool
}.

Definition match_here (re : Regexp) (s : string) : bool :=
  if anchored_end re then full_match (body re) s
  else prefix_match (body re) s.

(** [re.MatchString(s)]: a match may start at any position. *)
Fixpoint MatchString (re : Regexp) (s : string) : bool :=
  match_here re s ||
  match s with
  | EmptyString => false
  | String _ s' => MatchString re s'
  end.

(** [len(re.FindAllString(s, -1))] for a pattern that is a literal [lit]:
    matches are taken from left to right and do not overlap, the scan
    resumes after the end of each match.  [skip] counts the bytes of the
    last match still to be passed. *)
Fixpoint count_matches_from (lit : string) (skip : nat) (s : string) : nat :=
  match s with
  | EmptyString => 0
  | String _ s' =>
      match skip with
      | S k => count_matches_from lit k s'
      | O =>
          if strings.HasPrefix s lit
          then S (count_matches_from lit (String.length lit - 1) s')
          else count_matches_from lit 0 s'
      end
  end.

Definition FindAllString_len (lit : string) (s : string) : nat :=
  count_matches_from lit 0 s.

End regexp.

(** ** Package [path/filepath] (Unix separators) *)

Module filepath.

Definition slash : ascii := ascii_of_nat 47.

(** The elements of a path between its separators, from left to right;
    [cur] is the element being read, reversed. *)
Fixpoint split_from (cur : string) (s : string) : list string :=
  match s with
  | EmptyString => [strings.rev cur]
  | String c s' =>
      if Ascii.eqb c slash then strings.rev cur :: split_from EmptyString s'
      else split_from (String c cur) s'
  end.

Definition split (s : string) : list string := split_from EmptyString s.

(** [filepath.Base(path)]: the last element of the path, trailing
    separators removed first; [.] for the empty path, [/] for a path of
    separators only. *)
Definition Base (path : string) : string :=
  if is_empty path then "."
  else
    match filter (fun e => negb (is_empty e)) (List.rev (split path)) with
    | [] => "/"
    | e :: _ => e
    end.

(** The element stack of [filepath.Clean]: empty and [.] elements are
    dropped, [..] removes the element before it, is dropped at the root
    and kept at the start of a relative path. *)
Fixpoint clean_elems (rooted : bool) (stack : list string) (elems : list string)
  : list string :=
  match elems with
  | [] => List.rev stack
  | e :: rest =>
      if is_empty e || String.eqb e "." then clean_elems rooted stack rest
      else if String.eqb e ".." then
        match stack with
        | top :: below =>
            if String.eqb top ".." then clean_elems rooted (e :: stack) rest
            else clean_elems rooted below rest
        | [] =>
            if rooted then clean_elems rooted stack rest
            else clean_elems rooted (e :: stack) rest
        end
      else clean_elems rooted (e :: stack) rest
  end.

(** [filepath.Clean(path)] *)
Definition Clean (path : string) : string :=
  if is_empty path then "."
  else
    let rooted := strings.HasPrefix path "/" in
    let out := strings.Join (clean_elems rooted [] (split path)) "/" in
    if rooted then "/" ++ out
    else if is_empty out then "." else out.

(** [filepath.Join(elem...)]: empty elements are ignored, the rest is
    joined with the separator and cleaned; the empty string when there is
    nothing to join. *)
Definition Join (elem : list string) : string :=
  match filter (fun e => negb (is_empty e)) elem with
  | [] => EmptyString
  | es => Clean (strings.Join es "/")
  end.

End filepath.

(** ** Package [strconv] and [float64] *)

Definition float64 : Type := spec_float.

Module strconv.

Definition is_digit (c : ascii) : bool :=
  let n := nat_of_ascii c in ((48 <=? n) && (n <=? 57))%nat.

Definition digit_value (c : ascii) : Z := Z.of_nat (nat_of_ascii c - 48).

(** [strconv.Itoa] on a natural number. *)
Definition Itoa (n : nat) : string :=
  NilZero.string_of_uint (Nat.to_uint n).

(** The decimal reader of [strconv.ParseFloat], on texts made of digits
    and dots, the only bytes the capture group [[\d.]+] lets through:
    digits accumulate in the mantissa [m], [k] counts those after the dot,
    a second dot or a text without a digit is a syntax error.  Signs,
    exponents, hexadecimal mantissas, underscores, [inf] and [nan], which
    the Go function also reads, are outside this domain and are reported
    as syntax errors here. *)
Fixpoint readFloat (s : string) (sawdot sawdigits : bool) (m : Z) (k : nat)
  : option (Z * nat) :=
  match s with
  | EmptyString => if sawdigits then Some (m, k) else None
  | String c s' =>
      if is_digit c then
        readFloat s' sawdot true (10 * m + digit_value c)%Z
                  (if sawdot then S k else k)
      else if Ascii.eqb c "." then
        if sawdot then None else readFloat s' true sawdigits m k
      else None
  end.

Inductive NumError : Type := ErrSyntax | ErrRange.

(** binary64: 53 bits of precision, exponents below 1024. *)
Definition prec : Z := 53.
Definition emax : Z := 1024.

Fixpoint pow10 (k : nat) : positive :=
  match k with
  | O => 1%positive
  | S k' => (10 * pow10 k')%positive
  end.

(** The binary64 nearest to [m / 10^k], ties to even: the correctly
    rounded quotient of the two integers. *)
Definition round_decimal (m : Z) (k : nat) : float64 :=
  match m with
  | Zpos p =>
      SFdiv prec emax (S754_finite false p 0) (S754_finite false (pow10 k) 0)
  | _ => S754_zero false
  end.

(** [strconv.ParseFloat(s, 64)]: a value beyond the largest binary64 is
    reported as a range error. *)
Definition ParseFloat (s : string) : float64 * option NumError :=
  match readFloat s false false 0%Z 0 with
  | None => (S754_zero false, Some ErrSyntax)
  | Some (m, k) =>
      match round_decimal m k with
      | S754_infinity sg => (S754_infinity sg, Some ErrRange)
      | f => (f, None)
      end
  end.

End strconv.

(** Float constants of the program. *)
Definition f64_0 : float64 := S754_zero false.

(** 80.0 = 5 * 2^50 * 2^-46. *)
Definition f64_80 : float64 := S754_finite false 5629499534213120 (-46).

(** [x < y] on [float64]. *)
Definition f64_lt (x y : float64) : bool := SFltb x y.

(** ** The Output Validator (main.go, lines 131-189) *)

Definition nl : string := str1 (byte 10).

Definition include_gtest : string := "#include <gtest/gtest.h>".
Definition include_cmath : string := "#include <cmath>".
Definition include_stdexcept : string := "#include <stdexcept>".
Definition include_example : string :=
  "#include " ++ String dquote ("example.h" ++ str1 dquote).

Definition required_includes : list string :=
  [include_gtest; include_cmath; include_stdexcept; include_example].

(** [methods := []string{"add", "subtract"}] *)
Definition methods : list string := ["add"; "subtract"].

(** The reason of a rejection: one per [log.Printf("Validation failed: ...")]
    of the source, with the data the message prints. *)
Inductive Reason : Type :=
| TooShort (bytes : nat)
| MissingInclude (directive : string)
| MissingTestMacro
| IncompleteTestMacro
| WrongTestCount (found : nat)
| MissingMethods (missing : list string)
| UnbalancedBraces (count : Z).

Inductive ValidationVerdict : Type :=
| Accepted (text : string)
| Rejected (reason : Reason).

(** The classes of the pattern [TEST\([^)]+\)\s*{[^}]*$].  The engine of Go
    reads runes, the model reads bytes: every byte of the pattern is
    ASCII, an ASCII byte is never part of a longer UTF-8 sequence, and a
    negated class takes any rune, so the two readings find the same
    matches. *)
Definition not_rparen (c : ascii) : bool := negb (Ascii.eqb c ")").
Definition not_rbrace (c : ascii) : bool := negb (Ascii.eqb c "}").

(** [\s] is [[\t\n\f\r ]]. *)
Definition re_space (c : ascii) : bool :=
  let n := nat_of_ascii c in
  ((n =? 9) || (n =? 10) || (n =? 12) || (n =? 13) || (n =? 32))%nat.

Definition incomplete_test_re : regexp.Regexp :=
  regexp.MustCompile
    (regexp.Cat (regexp.Literal "TEST(")
       (regexp.Cat (regexp.Plus (regexp.Class not_rparen))
          (regexp.Cat (regexp.Chr ")")
             (regexp.Cat (regexp.Star (regexp.Class re_space))
                (regexp.Cat (regexp.Chr "{")
                   (regexp.Star (regexp.Class not_rbrace)))))))
    true.

(** The pattern [TEST\(CalculatorTest,] is this literal. *)
Definition test_decl_literal : string := "TEST(CalculatorTest,".

(** The loop over the runes of [output] that counts [{] up and [}] down.
    Both are ASCII, so the loop over the bytes counts the same.  The
    counter is a Go [int]; a text has fewer than 2^63 bytes, so it does not
    wrap. *)
Fixpoint braceCount_from (count : Z) (output : string) : Z :=
  match output with
  | EmptyString => count
  | String c rest =>
      if Ascii.eqb c "{" then braceCount_from (count + 1)%Z rest
      else if Ascii.eqb c "}" then braceCount_from (count - 1)%Z rest
      else braceCount_from count rest
  end.

Definition braceCount (output : string) : Z := braceCount_from 0%Z output.

Definition missingMethods (output : string) : list string :=
  filter (fun method => negb (strings.Contains output (method ++ "("))) methods.

(** The chain of checks on the normalized output; each [continue] of the
    source is a [Rejected], the fall through to [return output, nil] is
    [Accepted]. *)
Definition validate (output : string) : ValidationVerdict :=
  if (String.length output <? 250)%nat then
    Rejected (TooShort (String.length output))
  else if negb (strings.Contains output include_gtest) then
    Rejected (MissingInclude include_gtest)
  else if negb (strings.Contains output include_cmath) then
    Rejected (MissingInclude include_cmath)
  else if negb (strings.Contains output include_stdexcept) then
    Rejected (MissingInclude include_stdexcept)
  else if negb (strings.Contains output include_example) then
    Rejected (MissingInclude include_example)
  else if negb (strings.Contains output "TEST") then
    Rejected MissingTestMacro
  else if regexp.MatchString incomplete_test_re output then
    Rejected IncompleteTestMacro
  else
    let testCount := regexp.FindAllString_len test_decl_literal output in
    if negb (testCount =? 4)%nat then Rejected (WrongTestCount testCount)
    else
      let missing := missingMethods output in
      if (0 <? List.length missing)%nat then Rejected (MissingMethods missing)
      else
        let count := braceCount output in
        if negb (count =? 0)%Z then Rejected (UnbalancedBraces count)
        else Accepted output.

(** The normalization before the checks (lines 121-124). *)
Definition fence_open : string := "```cpp" ++ nl.
Definition fence_close : string := nl ++ "```".

Definition normalize (raw : string) : string :=
  strings.TrimSpace
    (strings.TrimSuffix (strings.TrimPrefix raw fence_open) fence_close).

(** ** The Coverage Gate: reading the report (lines 276-284) *)

Definition digit_or_dot (c : ascii) : bool :=
  strconv.is_digit c || Ascii.eqb c ".".

(** The longest prefix of [s] whose bytes satisfy [p], and the rest. *)
Fixpoint span (p : ascii -> bool) (s : string) : string * string :=
  match s with
  | EmptyString => (EmptyString, EmptyString)
  | String c s' =>
      if p c then let '(a, b) := span p s' in (String c a, b)
      else (EmptyString, s)
  end.

Definition lines_executed : string := "Lines executed:".
Definition percent_of : string := "% of ".

(** A match of [Lines executed:([\d.]+)% of (\d+)] starting at the first
    byte of [s]: the match and its two groups.  After the literal the
    first group is the longest run of digits and dots, since the byte
    after it has to be [%]; the second group is the longest run of
    digits, the quantifier being greedy. *)
Definition coverage_match_here (s : string) : option (list string) :=
  if strings.HasPrefix s lines_executed then
    let '(g1, rest) := span digit_or_dot (strings.drop (String.length lines_executed) s) in
    if is_empty g1 then None
    else if strings.HasPrefix rest percent_of then
      let '(g2, _) := span strconv.is_digit (strings.drop (String.length percent_of) rest) in
      if is_empty g2 then None
      else Some [lines_executed ++ g1 ++ percent_of ++ g2; g1; g2]
    else None
  else None.

(** [re.FindStringSubmatch(s)] for that pattern: the leftmost match;
    [None] is the nil slice. *)
Fixpoint FindStringSubmatch_coverage (s : string) : option (list string) :=
  match coverage_match_here s with
  | Some m => Some m
  | None =>
      match s with
      | EmptyString => None
      | String _ s' => FindStringSubmatch_coverage s'
      end
  end.

(** ** Errors, requests, commands and events *)

(** The errors of the program.  [ErrLibrary] is an error returned by a
    call into a library or the operating system, [ErrNotExist] the one
    [os.IsNotExist] recognizes; the others are the [fmt.Errorf] of the
    source, with the values they are built from. *)
Inductive error : Type :=
| ErrLibrary (msg : string)
| ErrNotExist
| ErrNum (e : strconv.NumError)
| ErrExhausted
| ErrTempDir (cause : error)
| ErrWriteTestFile (cause : error)
| ErrCopySource (cause : error)
| ErrCopyHeader (cause : error)
| ErrCompilation (cause : error) (output : string)
| ErrTestsFailed (cause : error) (output : string)
| ErrGcov (cause : error) (output : string)
| ErrParseGcov (output : string)
| ErrParseCoverage (cause : error)
| ErrBelowThreshold (coverage : float64).

(** [os.IsNotExist(err)] *)
Definition IsNotExist (err : option error) : bool :=
  match err with
  | Some ErrNotExist => true
  | _ => false
  end.

(** A value together with an error, as Go functions return them. *)
Inductive result (A : Type) : Type :=
| Success (a : A)
| Failure (e : error).
Arguments Success {A} a.
Arguments Failure {A} e.

(** [api.GenerateRequest], the fields the program sets. *)
Record GenerateRequest : Type := {
  Model : string;
  Prompt : string;
  Options : list (string * Z)
}.

Definition set_Model (req : GenerateRequest) (model : string) : GenerateRequest :=
  {| Model := model; Prompt := Prompt req; Options := Options req |}.

(** [exec.Cmd]: the program, its arguments, the working directory and the
    variables added to the environment of the process. *)
Record Cmd : Type := {
  Name : string;
  Args : list string;
  Dir : string;
  ExtraEnv : list string
}.

(** One entry of a directory walk, as [filepath.Walk] hands it to its
    callback. *)
Record WalkEntry : Type := {
  walk_path : string;
  walk_name : string;
  walk_isDir : bool;
  walk_err : option error
}.

(** The four places of the source that call [os.WriteFile]. *)
Inductive WriteSite : Type :=
| RawResponse      (* line 127, the debug artifact of an attempt *)
| SandboxTest      (* line 212, test.cpp in the temporary directory *)
| SandboxCopy      (* line 300, copyFile *)
| TestsOutput.     (* line 392, the file under ./tests *)

(** One call that leaves the process, with its arguments and result. *)
Inductive Event : Type :=
| EvGetenv (key value : string)
| EvList (r : result (list string))
| EvGenerate (req : GenerateRequest) (r : result string)
| EvSleep
| EvWalk (root : string) (entries : list WalkEntry)
| EvReadFile (name : string) (r : result string)
| EvWriteFile (site : WriteSite) (name data : string) (r : option error)
| EvStat (name : string) (r : option error)
| EvMkdirAll (path : string) (r : option error)
| EvMkdirTemp (r : result string)
| EvRemoveAll (path : string)
| EvCombinedOutput (cmd : Cmd) (output : string) (r : option error).

(** The outside of the process.  Each handler takes the state of the
    world and gives its answer and the next state. *)
Class Host (World : Type) : Type := {
  os_Getenv : string -> World -> string * World;
  url_Parse : string -> option error;
  client_List : World -> result (list string) * World;
  (** [client.Generate] with the callback of the source: the chunks of the
      response, concatenated, or the error of the call. *)
  client_Generate : GenerateRequest -> World -> result string * World;
  time_Sleep : World -> World;
  (** The entries [filepath.Walk] visits below a root. *)
  filepath_Walk : string -> World -> list WalkEntry * World;
  os_ReadFile : string -> World -> result string * World;
  os_WriteFile : string -> string -> World -> option error * World;
  os_Stat : string -> World -> option error * World;
  os_MkdirAll : string -> World -> option error * World;
  os_MkdirTemp : World -> result string * World;
  os_RemoveAll : string -> World -> World;
  (** [cmd.CombinedOutput()]: the error is [None] exactly when the process
      ran and left with status zero. *)
  exec_CombinedOutput : Cmd -> World -> (string * option error) * World;
  (** The order in which [range] visits the entries of a map. *)
  range_order : list (string * string) -> World -> list (string * string) * World
}.

(** ** The monad of the program: world, trace and [log.Fatalf] *)

Inductive FatalError : Type :=
| FatalInvalidURL (e : error)
| FatalConnect (e : error)
| FatalReadCodebase (e : error)
| FatalTestsDir (e : error).

Inductive Res (A : Type) : Type :=
| Done (a : A)
| Fatal (f : FatalError).
Arguments Done {A} a.
Arguments Fatal {A} f.

Section Program.

Context {World : Type} {host : Host World}.

Definition M (A : Type) : Type := World -> Res A * World * list Event.

Definition ret {A : Type} (a : A) : M A := fun w => (Done a, w, []).

Definition bind {A B : Type} (m : M A) (k : A -> M B) : M B :=
  fun w =>
    match m w with
    | (Done a, w1, t1) =>
        match k a w1 with
        | (r, w2, t2) => (r, w2, (t1 ++ t2)%list)
        end
    | (Fatal f, w1, t1) => (Fatal f, w1, t1)
    end.


Notation "x <- m ;; k" := (bind m (fun x => k))
  (at level 61, m at next level, right associativity).
Notation "m ;;; k" := (bind m (fun _ => k))
  (at level 61, right associativity).


Definition List_ : M (result (list string)) :=
  fun w => let '(r, w') := client_List w in (Done r, w', [EvList r]).

Definition Generate (req : GenerateRequest) : M (result string) :=
  fun w => let '(r, w') := client_Generate req w in (Done r, w', [EvGenerate req r]).

Definition Sleep : M unit :=
  fun w => (Done tt, time_Sleep w, [EvSleep]).

Definition Walk (root : string) : M (list WalkEntry) :=
  fun w => let '(es, w') := filepath_Walk root w in (Done es, w', [EvWalk root es]).

Definition ReadFile (name : string) : M (result string) :=
  fun w => let '(r, w') := os_ReadFile name w in (Done r, w', [EvReadFile name r]).

Definition WriteFile (site : WriteSite) (name data : string) : M (option error) :=
  fun w =>
    let '(r, w') := os_WriteFile name data w in
    (Done r, w', [EvWriteFile site name data r]).

Definition Stat (name : string) : M (option error) :=
  fun w => let '(r, w') := os_Stat name w in (Done r, w', [EvStat name r]).


Definition MkdirTemp : M (result string) :=
  fun w => let '(r, w') := os_MkdirTemp w in (Done r, w', [EvMkdirTemp r]).

Definition RemoveAll (path : string) : M unit :=
  fun w => (Done tt, os_RemoveAll path w, [EvRemoveAll path]).

Definition CombinedOutput (cmd : Cmd) : M (string * option error) :=
  fun w =>
    let '(r, w') := exec_CombinedOutput cmd w in
    (Done r, w', [EvCombinedOutput cmd (fst r) (snd r)]).


(** ** [readCodebase] (lines 20-46) *)

(** The callback of the walk on the entries, one after the other; the first
    error ends the walk.  [filesContent] is the map being filled, as the
    list of its entries. *)
Fixpoint readCodebase_walk (entries : list WalkEntry)
  (filesContent : list (string * string))
  : M (list (string * string) * option error) :=
  match entries with
  | [] => ret (filesContent, None)
  | entry :: rest =>
      match walk_err entry with
      | Some err => ret (filesContent, Some err)
      | None =>
          if negb (walk_isDir entry) &&
             (strings.HasSuffix (walk_name entry) ".cpp" ||
              strings.HasSuffix (walk_name entry) ".h")
          then
            content <- ReadFile (walk_path entry) ;;
            match content with
            | Failure err => ret (filesContent, Some err)
            | Success text =>
                readCodebase_walk rest
                  (filesContent ++ [(walk_path entry, text)])%list
            end
          else readCodebase_walk rest filesContent
      end
  end.

Definition readCodebase (dir : string)
  : M (list (string * string) * option error) :=
  entries <- Walk dir ;;
  readCodebase_walk entries [].

(** ** [generateUnitTests] (lines 48-197) *)

(** The prompt of lines 67-91. *)
Definition build_prompt (code : string) : string :=
  let methodsList := strings.Join methods ", " in
  strings.Join
    [ "You are an expert C++ programmer tasked with generating unit tests using Google Test for the provided C++ code. Follow these requirements strictly:";
      "- Use C++17 standard.";
      "- Include exactly these headers: `" ++ include_gtest ++ "`, `" ++
        include_cmath ++ "`, `" ++ include_stdexcept ++ "`, `" ++
        include_example ++ "`.";
      "- Use `TEST` macros with descriptive names (e.g., `TEST(CalculatorTest, Add_PositiveNumbers)).";
      "- Write tests for these methods only: " ++ methodsList ++ ".";
      "- Write exactly 4 test cases (2 per method): one for positive inputs and one for negative inputs.";
      "- Avoid edge cases involving INT_MIN or INT_MAX to prevent integer overflow issues.";
      "- Ensure each `TEST` macro has complete braces `{}` and valid assertions (`EXPECT_EQ`).";
      "- Output a complete, syntactically correct .cpp file without Markdown code fences, comments outside test code, or extra text.";
      "- Example format:";
      include_gtest;
      include_cmath;
      include_stdexcept;
      include_example;
      "TEST(CalculatorTest, Add_PositiveNumbers) {";
      "    Calculator calc;";
      "    EXPECT_EQ(calc.add(2, 3), 5);";
      "}";
      EmptyString;
      "**Code to test:**";
      code;
      EmptyString;
      "Generate the unit test code as a valid .cpp file following the example format exactly." ]
    nl.

Definition generate_options : list (string * Z) :=
  [("num_ctx", 131072%Z); ("num_predict", 1024%Z)].

(** [fmt.Sprintf("raw_response_%s_attempt_%d.txt", currentModel, attempt)] *)
Definition raw_response_name (currentModel : string) (attempt : nat) : string :=
  "raw_response_" ++ currentModel ++ "_attempt_" ++ strconv.Itoa attempt ++ ".txt".

(** One turn of the inner loop.  [None] stands for [continue] and for the
    end of the body, [Some output] for [return output, nil]. *)
Definition attempt_body (req : GenerateRequest) (currentModel : string)
  (attempt : nat) : M (option string) :=
  r <- Generate req ;;
  match r with
  | Failure _ => Sleep ;;; ret None
  | Success response =>
      let output := normalize response in
      WriteFile RawResponse (raw_response_name currentModel attempt) output ;;;
      match validate output with
      | Rejected _ => ret None
      | Accepted text => ret (Some text)
      end
  end.

(** [for attempt := 1; attempt <= 3; attempt++], over the values the
    counter takes. *)
Fixpoint attempts_loop (req : GenerateRequest) (currentModel : string)
  (attempts : list nat) : M (option string) :=
  match attempts with
  | [] => ret None
  | attempt :: rest =>
      r <- attempt_body req currentModel attempt ;;
      match r with
      | Some output => ret (Some output)
      | None => attempts_loop req currentModel rest
      end
  end.

(** [for _, currentModel := range availableModels]; [req] is the variable
    of the enclosing function, assigned at the head of each turn. *)
Fixpoint models_loop (req : GenerateRequest) (availableModels : list string)
  : M (option string) :=
  match availableModels with
  | [] => ret None
  | currentModel :: rest =>
      let req := set_Model req currentModel in
      r <- attempts_loop req currentModel (seq 1 3) ;;
      match r with
      | Some output => ret (Some output)
      | None => models_loop req rest
      end
  end.

(** The list built at lines 55-60: the requested model first, then the
    listed ones that differ from it. *)
Definition available_models (model : string) (listed : list string) : list string :=
  model :: filter (fun name => negb (String.eqb name model)) listed.

Definition initial_request (model code : string) : GenerateRequest :=
  {| Model := model; Prompt := build_prompt code; Options := generate_options |}.

Definition generateUnitTests (model code : string) : M (string * option error) :=
  resp <- List_ ;;
  match resp with
  | Failure err => ret (EmptyString, Some err)
  | Success listed =>
      let availableModels := available_models model listed in
      let req := initial_request model code in
      r <- models_loop req availableModels ;;
      match r with
      | Some output => ret (output, None)
      | None => ret (EmptyString, Some ErrExhausted)
      end
  end.

(** ** [copyFile] and [runTestsAndCoverage] (lines 199-301) *)

Definition copyFile (src dst : string) : M (option error) :=
  input <- ReadFile src ;;
  match input with
  | Failure err => ret (Some err)
  | Success data => WriteFile SandboxCopy dst data
  end.

Definition brewPrefix : string := "/opt/homebrew/opt/googletest".

Definition compileCmd (tempDir tempTestFile tempSourceFile : string) : Cmd :=
  {| Name := "g++";
     Args := [ "-std=c++17";
               "-I" ++ brewPrefix ++ "/include";
               "-I/usr/local/include";
               "-I" ++ tempDir;
               "-L" ++ brewPrefix ++ "/lib";
               "-L/usr/local/lib";
               "-lgtest"; "-lgtest_main"; "-pthread";
               "-fprofile-arcs"; "-ftest-coverage";
               filepath.Base tempTestFile; filepath.Base tempSourceFile;
               "-o"; filepath.Join [tempDir; "run_tests"] ];
     Dir := tempDir;
     ExtraEnv := ["GCOV_PREFIX=" ++ tempDir; "GCOV_PREFIX_STRIP=0"] |}.

Definition runCmd (tempDir : string) : Cmd :=
  {| Name := filepath.Join [tempDir; "run_tests"];
     Args := [];
     Dir := tempDir;
     ExtraEnv := [] |}.

Definition gcovCmd (tempDir baseName : string) : Cmd :=
  {| Name := "gcov"; Args := ["-r"; baseName]; Dir := tempDir; ExtraEnv := [] |}.

(** Lines 276-292: the report is read and the percentage compared with
    the threshold. *)
Definition coverage_gate (gcovOutput : string) : bool * float64 * option error :=
  match FindStringSubmatch_coverage gcovOutput with
  | Some (_ :: percentage :: _) =>
      match strconv.ParseFloat percentage with
      | (_, Some err) => (true, f64_0, Some (ErrParseCoverage (ErrNum err)))
      | (coverage, None) =>
          if f64_lt coverage f64_80
          then (false, coverage, Some (ErrBelowThreshold coverage))
          else (true, coverage, None)
      end
  | _ => (true, f64_0, Some (ErrParseGcov gcovOutput))
  end.

(** Lines 232-292, once the files are in the temporary directory. *)
Definition compile_run_measure (tempDir tempTestFile tempSourceFile baseName : string)
  : M (bool * float64 * option error) :=
  compiled <- CombinedOutput (compileCmd tempDir tempTestFile tempSourceFile) ;;
  match compiled with
  | (compileOutput, Some err) =>
      ret (false, f64_0, Some (ErrCompilation err compileOutput))
  | (_, None) =>
      ran <- CombinedOutput (runCmd tempDir) ;;
      match ran with
      | (runOutput, Some err) =>
          ret (false, f64_0, Some (ErrTestsFailed err runOutput))
      | (_, None) =>
          measured <- CombinedOutput (gcovCmd tempDir baseName) ;;
          match measured with
          | (gcovOutput, Some err) =>
              ret (true, f64_0, Some (ErrGcov err gcovOutput))
          | (gcovOutput, None) => ret (coverage_gate gcovOutput)
          end
      end
  end.

(** Lines 210-292, between the creation of the temporary directory and
    its deferred removal. *)
Definition run_in_sandbox (testFile sourceFile baseName tempDir : string)
  : M (bool * float64 * option error) :=
  let tempTestFile := filepath.Join [tempDir; "test.cpp"] in
  written <- WriteFile SandboxTest tempTestFile testFile ;;
  match written with
  | Some err => ret (false, f64_0, Some (ErrWriteTestFile err))
  | None =>
      let tempSourceFile := filepath.Join [tempDir; baseName] in
      copied <- copyFile sourceFile tempSourceFile ;;
      match copied with
      | Some err => ret (false, f64_0, Some (ErrCopySource err))
      | None =>
          if strings.HasSuffix sourceFile ".cpp" then
            let headerFile := strings.Replace1 sourceFile ".cpp" ".h" in
            st <- Stat headerFile ;;
            match st with
            | None =>
                header <- copyFile headerFile
                            (filepath.Join [tempDir; filepath.Base headerFile]) ;;
                match header with
                | Some err => ret (false, f64_0, Some (ErrCopyHeader err))
                | None =>
                    compile_run_measure tempDir tempTestFile tempSourceFile baseName
                end
            | Some _ =>
                compile_run_measure tempDir tempTestFile tempSourceFile baseName
            end
          else compile_run_measure tempDir tempTestFile tempSourceFile baseName
      end
  end.

Definition runTestsAndCoverage (testFile sourceFile : string)
  : M (bool * float64 * option error) :=
  let baseName := filepath.Base sourceFile in
  made <- MkdirTemp ;;
  match made with
  | Failure err => ret (false, f64_0, Some (ErrTempDir err))
  | Success tempDir =>
      r <- run_in_sandbox testFile sourceFile baseName tempDir ;;
      RemoveAll tempDir ;;;
      ret r
  end.

(** ** [main] (lines 303-401) *)

(** The exit of the loop body a unit takes: one per [continue] of the
    source, and two for the end of the body.  The source keeps no such
    value; it is what the log lines of the body report. *)
Inductive Outcome : Type :=
| Skipped                                   (* lines 351, 357 *)
| GenerationFailed (err : error)            (* line 364 *)
| TestValidationFailed (err : error)        (* line 377 *)
| TestsDidNotPass                           (* line 381 *)
| WriteFailed (testFile : string) (err : error)       (* line 394 *)
| Saved (testFile : string) (coverage : float64).     (* line 396 *)

(** Lines 347-360: is the unit to be skipped? *)
Definition pairing_check (filePath : string) : M bool :=
  if strings.HasSuffix filePath ".h" then
    let cppFile := strings.Replace1 filePath ".h" ".cpp" in
    st <- Stat cppFile ;;
    ret (IsNotExist st)
  else if strings.HasSuffix filePath ".cpp" then
    let hFile := strings.Replace1 filePath ".cpp" ".h" in
    st <- Stat hFile ;;
    ret (IsNotExist st)
  else ret false.

(** Lines 369-372. *)
Definition source_file_of (filePath : string) : string :=
  if strings.HasSuffix filePath ".h"
  then strings.Replace1 filePath ".h" ".cpp"
  else filePath.

(** Lines 386-390. *)
Definition test_file_of (filePath : string) : string :=
  let baseName := filepath.Base filePath in
  if strings.HasSuffix baseName ".h"
  then filepath.Join ["./tests"; strings.Replace1 baseName ".h" "_test.cpp"]
  else filepath.Join ["./tests"; strings.Replace1 baseName ".cpp" "_test.cpp"].

Definition default_model : string := "qwen2.5-coder:7b".

(** The body of the loop of line 343 for one entry of the map. *)
Definition process_unit (filePath content : string) : M Outcome :=
  skip <- pairing_check filePath ;;
  if skip then ret Skipped
  else
    generated <- generateUnitTests default_model content ;;
    match generated with
    | (_, Some err) => ret (GenerationFailed err)
    | (tests, None) =>
        let sourceFile := source_file_of filePath in
        checked <- runTestsAndCoverage tests sourceFile ;;
        match checked with
        | (_, _, Some err) => ret (TestValidationFailed err)
        | (false, _, None) => ret TestsDidNotPass
        | (true, coverage, None) =>
            let testFile := test_file_of filePath in
            written <- WriteFile TestsOutput testFile tests ;;
            match written with
            | Some err => ret (WriteFailed testFile err)
            | None => ret (Saved testFile coverage)
            end
        end
    end.

(** The loop of line 343 over the entries in the order of the visit. *)
Fixpoint process_units (files : list (string * string)) : M (list Outcome) :=
  match files with
  | [] => ret []
  | (filePath, content) :: rest =>
      outcome <- process_unit filePath content ;;
      outcomes <- process_units rest ;;
      ret (outcome :: outcomes)
  end.



End Program.

Definition result_of {World A : Type} (x : Res A * World * list Event) : Res A :=
  fst (fst x).

Definition trace_of {World A : Type} (x : Res A * World * list Event) : list Event :=
  snd x.

(** ** A scripted host, for running the program on examples *)

Module Scripted.

Record Script : Type := {
  env_host : string;
  listed : result (list string);
  (** the answers of the backend, one per call of [Generate] *)
  responses : list (result string);
  walked : list WalkEntry;
  contents : list (string * string);
  missing : list string;
  tempdir : result string;
  compile_result : string * option error;
  run_result : string * option error;
  gcov_result : string * option error
}.

Definition next_response (s : Script) : result string * Script :=
  match responses s with
  | [] => (Failure (ErrLibrary "connection refused"), s)
  | r :: rest =>
      (r, {| env_host := env_host s; listed := listed s; responses := rest;
             walked := walked s; contents := contents s; missing := missing s;
             tempdir := tempdir s; compile_result := compile_result s;
             run_result := run_result s; gcov_result := gcov_result s |})
  end.

Fixpoint lookup (name : string) (files : list (string * string)) : result string :=
  match files with
  | [] => Failure ErrNotExist
  | (n, data) :: rest => if String.eqb n name then Success data else lookup name rest
  end.

Definition stat (name : string) (s : Script) : option error :=
  if existsb (String.eqb name) (missing s) then Some ErrNotExist else None.

Definition execute (cmd : Cmd) (s : Script) : string * option error :=
  if String.eqb (Name cmd) "g++" then compile_result s
  else if String.eqb (Name cmd) "gcov" then gcov_result s
  else run_result s.

#[export] Instance host : Host Script := {
  os_Getenv := fun _ s => (env_host s, s);
  url_Parse := fun _ => None;
  client_List := fun s => (listed s, s);
  client_Generate := fun _ s => next_response s;
  time_Sleep := fun s => s;
  filepath_Walk := fun _ s => (walked s, s);
  os_ReadFile := fun name s => (lookup name (contents s), s);
  os_WriteFile := fun _ _ s => (None, s);
  os_Stat := fun name s => (stat name s, s);
  os_MkdirAll := fun _ s => (None, s);
  os_MkdirTemp := fun s => (tempdir s, s);
  os_RemoveAll := fun _ s => s;
  exec_CombinedOutput := fun cmd s => (execute cmd s, s);
  range_order := fun files s => (files, s)
}.

(** A text the validator accepts. *)
Definition good_tests : string :=
  strings.Join
    [ include_gtest; include_cmath; include_stdexcept; include_example;
      "TEST(CalculatorTest, Add_PositiveNumbers) {";
      "    Calculator calc;";
      "    EXPECT_EQ(calc.add(2, 3), 5);";
      "}";
      "TEST(CalculatorTest, Add_NegativeNumbers) {";
      "    Calculator calc;";
      "    EXPECT_EQ(calc.add(-2, -3), -5);";
      "}";
      "TEST(CalculatorTest, Subtract_PositiveNumbers) {";
      "    Calculator calc;";
      "    EXPECT_EQ(calc.subtract(5, 3), 2);";
      "}";
      "TEST(CalculatorTest, Subtract_NegativeNumbers) {";
      "    Calculator calc;";
      "    EXPECT_EQ(calc.subtract(-5, -3), -2);";
      "}" ]
    nl.

(** The same text without its second include line. *)
Definition tests_without_cmath : string :=
  strings.Replace1 good_tests (include_cmath ++ nl) "// no math header here" .

Definition calc_cpp : string := "int Calculator::add(int a, int b) { return a + b; }".

(** An answer as a backend gives it: the text between code fences, with a
    final line break. *)
Definition fenced_answer : string := fence_open ++ good_tests ++ fence_close ++ nl.

(** A paired unit whose backend fails once, then answers a fenced, valid
    text, and whose tools report 92% of 10 lines. *)
Definition happy : Script := {|
  env_host := EmptyString;
  listed := Success ["qwen2.5-coder:7b"; "llama3"];
  responses := [ Failure (ErrLibrary "timeout");
                 Success fenced_answer ];
  walked := [];
  contents := [("codebase/calc.cpp", calc_cpp); ("codebase/calc.h", "class Calculator;")];
  missing := [];
  tempdir := Success "/tmp/unit-test-generator-1";
  compile_result := (EmptyString, None);
  run_result := ("[  PASSED  ] 4 tests.", None);
  gcov_result := ("File 'calc.cpp'" ++ nl ++ "Lines executed:92.00% of 10", None)
|}.

Definition with_gcov (r : string * option error) (s : Script) : Script :=
  {| env_host := env_host s; listed := listed s; responses := responses s;
     walked := walked s; contents := contents s; missing := missing s;
     tempdir := tempdir s; compile_result := compile_result s;
     run_result := run_result s; gcov_result := r |}.

(** The same unit when gcov leaves with an error. *)
Definition gcov_broken : Script :=
  with_gcov ("calc.gcno:cannot open notes file", Some (ErrLibrary "exit status 1")) happy.

(** The same unit when the compiler rejects the tests. *)
Definition compile_broken : Script :=
  {| env_host := env_host happy; listed := listed happy; responses := responses happy;
     walked := walked happy; contents := contents happy; missing := missing happy;
     tempdir := tempdir happy;
     compile_result := ("test.cpp:3: error: expected ';'", Some (ErrLibrary "exit status 1"));
     run_result := run_result happy; gcov_result := gcov_result happy |}.

Definition compile_broken_run : Res (bool * float64 * option error) * Script * list Event :=
  runTestsAndCoverage (host := host) good_tests "codebase/calc.cpp" compile_broken.

Definition happy_run : Res (bool * float64 * option error) * Script * list Event :=
  runTestsAndCoverage (host := host) good_tests "codebase/calc.cpp" happy.

(** A codebase of a directory, two sources, a text file and a header. *)
Definition walked_tree : list WalkEntry :=
  [ {| walk_path := "codebase"; walk_name := "codebase"; walk_isDir := true; walk_err := None |};
    {| walk_path := "codebase/calc.cpp"; walk_name := "calc.cpp"; walk_isDir := false;
       walk_err := None |};
    {| walk_path := "codebase/notes.txt"; walk_name := "notes.txt"; walk_isDir := false;
       walk_err := None |};
    {| walk_path := "codebase/calc.h"; walk_name := "calc.h"; walk_isDir := false;
       walk_err := None |} ].

Definition with_walked (es : list WalkEntry) (s : Script) : Script :=
  {| env_host := env_host s; listed := listed s; responses := responses s;
     walked := es; contents := contents s; missing := missing s;
     tempdir := tempdir s; compile_result := compile_result s;
     run_result := run_result s; gcov_result := gcov_result s |}.

(** A walk in which the entry of a directory carries an error. *)
Definition walked_broken : list WalkEntry :=
  [ {| walk_path := "codebase"; walk_name := "codebase"; walk_isDir := true; walk_err := None |};
    {| walk_path := "codebase/calc.cpp"; walk_name := "calc.cpp"; walk_isDir := false;
       walk_err := None |};
    {| walk_path := "codebase/locked"; walk_name := "locked"; walk_isDir := true;
       walk_err := Some (ErrLibrary "permission denied") |};
    {| walk_path := "codebase/calc.h"; walk_name := "calc.h"; walk_isDir := false;
       walk_err := None |} ].

Definition tree_read : Res (list (string * string) * option error) * Script * list Event :=
  readCodebase (host := host) "./codebase" (with_walked walked_tree happy).

Definition broken_read : Res (list (string * string) * option error) * Script * list Event :=
  readCodebase (host := host) "./codebase" (with_walked walked_broken happy).

(** The runs of the theorems' examples. *)
Definition gcov_broken_run : Res (bool * float64 * option error) * Script * list Event :=
  runTestsAndCoverage (host := host) good_tests "codebase/calc.cpp" gcov_broken.

Definition gcov_broken_unit : Res Outcome * Script * list Event :=
  process_unit (host := host) "codebase/calc.cpp" calc_cpp gcov_broken.

Definition happy_generation : Res (string * option error) * Script * list Event :=
  generateUnitTests (host := host) default_model calc_cpp happy.

Definition happy_unit : Res Outcome * Script * list Event :=
  process_unit (host := host) "codebase/calc.cpp" calc_cpp happy.

End Scripted.

(** ** The checks of the validator, as properties of the text

    Each check of the chain is stated here on the text itself, without
    the library functions the source calls; the theorems below relate the
    two. *)

(** [sub] occurs in [s]. *)
Definition substring_of (sub s : string) : Prop :=
  exists pre post, s = pre ++ sub ++ post.

Fixpoint all_bytes (p : ascii -> bool) (s : string) : bool :=
  match s with
  | EmptyString => true
  | String c s' => p c && all_bytes p s'
  end.

Fixpoint count_byte (c : ascii) (s : string) : nat :=
  match s with
  | EmptyString => 0
  | String d s' => (if Ascii.eqb d c then 1 else 0) + count_byte c s'
  end.

(** The number of positions of [s] at which [lit] starts. *)
Fixpoint occurrences (lit s : string) : nat :=
  match s with
  | EmptyString => 0
  | String _ s' => (if strings.HasPrefix s lit then 1 else 0) + occurrences lit s'
  end.

(** A test header, an opening brace and a body without a closing brace
    that runs to the end of the text. *)
Definition incomplete_test_body (s : string) : Prop :=
  exists pre name ws body,
    s = pre ++ "TEST(" ++ name ++ ")" ++ ws ++ "{" ++ body /\
    name <> EmptyString /\
    all_bytes not_rparen name = true /\
    all_bytes re_space ws = true /\
    all_bytes not_rbrace body = true.

(** The rules in the order of the chain, each with the reason its
    violation is reported with. *)
Definition checks (output : string) : list (Prop * Reason) :=
  [ ((250 <= String.length output)%nat, TooShort (String.length output));
    (substring_of include_gtest output, MissingInclude include_gtest);
    (substring_of include_cmath output, MissingInclude include_cmath);
    (substring_of include_stdexcept output, MissingInclude include_stdexcept);
    (substring_of include_example output, MissingInclude include_example);
    (substring_of "TEST" output, MissingTestMacro);
    (~ incomplete_test_body output, IncompleteTestMacro);
    (occurrences test_decl_literal output = 4%nat,
     WrongTestCount (occurrences test_decl_literal output));
    (Forall (fun method => substring_of (method ++ "(") output) methods,
     MissingMethods (missingMethods output));
    (count_byte "{" output = count_byte "}" output,
     UnbalancedBraces (Z.of_nat (count_byte "{" output) - Z.of_nat (count_byte "}" output))) ].

(** [r] is the reason of the first rule of the list that does not hold. *)
Inductive first_violated : list (Prop * Reason) -> Reason -> Prop :=
| violated_here P r rest : ~ P -> first_violated ((P, r) :: rest) r
| violated_later P r0 rest r :
    P -> first_violated rest r -> first_violated ((P, r0) :: rest) r.

(** ** Devices for the theorems on paths *)

(** [old] does not start at any position of [stem ++ old] before the end
    of [stem]. *)
Fixpoint no_earlier (stem old : string) : bool :=
  match stem with
  | EmptyString => true
  | String _ stem' =>
      negb (strings.HasPrefix (stem ++ old) old) && no_earlier stem' old
  end.

Fixpoint last_byte (s : string) : option ascii :=
  match s with
  | EmptyString => None
  | String c s' =>
      match s' with
      | EmptyString => Some c
      | String _ _ => last_byte s'
      end
  end.

(** The last element of [filepath.split_from cur s]. *)
Fixpoint last_elem_from (cur : string) (s : string) : string :=
  match s with
  | EmptyString => strings.rev cur
  | String c s' =>
      if Ascii.eqb c filepath.slash then last_elem_from EmptyString s'
      else last_elem_from (String c cur) s'
  end.

(** ** Reading traces *)

Definition is_Generate (ev : Event) : bool :=
  match ev with
  | EvGenerate _ _ => true
  | _ => false
  end.

(** The number of calls of [client.Generate] in a trace. *)
Definition generate_calls (t : list Event) : nat :=
  List.length (filter is_Generate t).

Definition is_TestsOutput_write (ev : Event) : bool :=
  match ev with
  | EvWriteFile TestsOutput _ _ _ => true
  | _ => false
  end.

(** [x >= y] on [float64]: the comparison is defined and is not [Lt]. *)
Definition f64_ge (x y : float64) : Prop :=
  SFcompare x y = Some Eq \/ SFcompare x y = Some Gt.

(** ** The chain of the validator as a list

    The checks of [validate] as the booleans the source computes, in its
    order, each with the reason of its [continue]. *)
Definition bool_checks (output : string) : list (bool * Reason) :=
  [ (negb (String.length output <? 250)%nat, TooShort (String.length output));
    (strings.Contains output include_gtest, MissingInclude include_gtest);
    (strings.Contains output include_cmath, MissingInclude include_cmath);
    (strings.Contains output include_stdexcept, MissingInclude include_stdexcept);
    (strings.Contains output include_example, MissingInclude include_example);
    (strings.Contains output "TEST", MissingTestMacro);
    (negb (regexp.MatchString incomplete_test_re output), IncompleteTestMacro);
    ((regexp.FindAllString_len test_decl_literal output =? 4)%nat,
     WrongTestCount (regexp.FindAllString_len test_decl_literal output));
    (negb (0 <? List.length (missingMethods output))%nat,
     MissingMethods (missingMethods output));
    ((braceCount output =? 0)%Z, UnbalancedBraces (braceCount output)) ].

Fixpoint first_failing (cs : list (bool * Reason)) : option Reason :=
  match cs with
  | [] => None
  | (b, r) :: rest => if b then first_failing rest else Some r
  end.

(** The booleans of one list decide the properties of the other, with
    the same reasons. *)
Inductive reflects : list (bool * Reason) -> list (Prop * Reason) -> Prop :=
| reflects_nil : reflects [] []
| reflects_cons b P r bs ps :
    (b = true <-> P) -> reflects bs ps -> reflects ((b, r) :: bs) ((P, r) :: ps).

(** ** The traces of the generation loops

    What one turn of the inner loop leaves in the trace, and what it
    hands to the loop: [None] to go on, [Some output] to return. *)
Inductive attempt_events (req : GenerateRequest) (currentModel : string) (attempt : nat)
  : list Event -> option string -> Prop :=
| attempt_failed e :
    attempt_events req currentModel attempt
      [EvGenerate req (Failure e); EvSleep] None
| attempt_rejected raw wr reason :
    validate (normalize raw) = Rejected reason ->
    attempt_events req currentModel attempt
      [EvGenerate req (Success raw);
       EvWriteFile RawResponse (raw_response_name currentModel attempt) (normalize raw) wr]
      None
| attempt_accepted raw wr :
    validate (normalize raw) = Accepted (normalize raw) ->
    attempt_events req currentModel attempt
      [EvGenerate req (Success raw);
       EvWriteFile RawResponse (raw_response_name currentModel attempt) (normalize raw) wr]
      (Some (normalize raw)).

Inductive attempts_events (req : GenerateRequest) (currentModel : string)
  : list nat -> list Event -> option string -> Prop :=
| attempts_done : attempts_events req currentModel [] [] None
| attempts_next attempt rest t1 t2 r :
    attempt_events req currentModel attempt t1 None ->
    attempts_events req currentModel rest t2 r ->
    attempts_events req currentModel (attempt :: rest) (t1 ++ t2)%list r
| attempts_stop attempt rest t output :
    attempt_events req currentModel attempt t (Some output) ->
    attempts_events req currentModel (attempt :: rest) t (Some output).

Inductive models_events (req : GenerateRequest)
  : list string -> list Event -> option string -> Prop :=
| models_done : models_events req [] [] None
| models_next currentModel rest t1 t2 r :
    attempts_events (set_Model req currentModel) currentModel (seq 1 3) t1 None ->
    models_events (set_Model req currentModel) rest t2 r ->
    models_events req (currentModel :: rest) (t1 ++ t2)%list r
| models_stop currentModel rest t output :
    attempts_events (set_Model req currentModel) currentModel (seq 1 3) t (Some output) ->
    models_events req (currentModel :: rest) t (Some output).

(** Every answered call of a trace was answered with a text the
    validator rejects. *)
Definition all_rejected (t : list Event) : Prop :=
  forall req raw, In (EvGenerate req (Success raw)) t ->
    exists reason, validate (normalize raw) = Rejected reason.

(** The trace ends with the call whose answer was accepted as [output],
    and the write of its artifact. *)
Definition ends_with_accepted (t : list Event) (output : string) : Prop :=
  exists t0 req raw name wr,
    t = (t0 ++ [EvGenerate req (Success raw); EvWriteFile RawResponse name output wr])%list /\
    normalize raw = output /\
    validate output = Accepted output /\
    all_rejected t0.

(** In a trace whose first call is the call number [i] of the run,
    counted from 0: the call number [j] carries the model at the place
    [j / 3] of [models]; when it is answered, it is followed at once by
    the write of the normalized answer to the artifact of that model and
    of the attempt [j mod 3 + 1]; when it fails, by the pause. *)
Fixpoint artifacts_numbered (models : list string) (i : nat) (t : list Event) : Prop :=
  match t with
  | [] => True
  | EvGenerate req r :: rest =>
      (Model req = nth (i / 3) models EmptyString /\
       match r with
       | Success raw =>
           exists wr rest',
             rest = EvWriteFile RawResponse
                      (raw_response_name (Model req) (i mod 3 + 1))
                      (normalize raw) wr :: rest'
       | Failure _ => exists rest', rest = EvSleep :: rest'
       end) /\
      artifacts_numbered models (S i) rest
  | _ :: rest => artifacts_numbered models i rest
  end.

(** The event is a write of [text], to any file. *)
Definition writes_text (text : string) (ev : Event) : bool :=
  match ev with
  | EvWriteFile _ _ data _ => String.eqb data text
  | _ => false
  end.

Definition is_RawResponse_write (ev : Event) : bool :=
  match ev with
  | EvWriteFile RawResponse _ _ _ => true
  | _ => false
  end.

(** ** The files put into the temporary directory

    The events of [copyFile] and what it returns. *)
Inductive copy_events (src dst : string) : list Event -> option error -> Prop :=
| copy_unread e :
    copy_events src dst [EvReadFile src (Failure e)] (Some e)
| copy_written data wr :
    copy_events src dst
      [EvReadFile src (Success data); EvWriteFile SandboxCopy dst data wr] wr.

(** The events of lines 210-230, and the error they end with, if any. *)
Inductive setup_events (testFile sourceFile baseName tempDir : string)
  : list Event -> option error -> Prop :=
| setup_test_unwritten e :
    setup_events testFile sourceFile baseName tempDir
      [EvWriteFile SandboxTest (filepath.Join [tempDir; "test.cpp"]) testFile (Some e)]
      (Some (ErrWriteTestFile e))
| setup_source_uncopied tc e :
    copy_events sourceFile (filepath.Join [tempDir; baseName]) tc (Some e) ->
    setup_events testFile sourceFile baseName tempDir
      (EvWriteFile SandboxTest (filepath.Join [tempDir; "test.cpp"]) testFile None :: tc)
      (Some (ErrCopySource e))
| setup_without_header tc :
    copy_events sourceFile (filepath.Join [tempDir; baseName]) tc None ->
    strings.HasSuffix sourceFile ".cpp" = false ->
    setup_events testFile sourceFile baseName tempDir
      (EvWriteFile SandboxTest (filepath.Join [tempDir; "test.cpp"]) testFile None :: tc)
      None
| setup_header_not_found tc serr :
    copy_events sourceFile (filepath.Join [tempDir; baseName]) tc None ->
    strings.HasSuffix sourceFile ".cpp" = true ->
    setup_events testFile sourceFile baseName tempDir
      (EvWriteFile SandboxTest (filepath.Join [tempDir; "test.cpp"]) testFile None
         :: tc ++ [EvStat (strings.Replace1 sourceFile ".cpp" ".h") (Some serr)])%list
      None
| setup_header_uncopied tc th e :
    copy_events sourceFile (filepath.Join [tempDir; baseName]) tc None ->
    strings.HasSuffix sourceFile ".cpp" = true ->
    copy_events (strings.Replace1 sourceFile ".cpp" ".h")
      (filepath.Join [tempDir; filepath.Base (strings.Replace1 sourceFile ".cpp" ".h")])
      th (Some e) ->
    setup_events testFile sourceFile baseName tempDir
      (EvWriteFile SandboxTest (filepath.Join [tempDir; "test.cpp"]) testFile None
         :: tc ++ EvStat (strings.Replace1 sourceFile ".cpp" ".h") None :: th)%list
      (Some (ErrCopyHeader e))
| setup_with_header tc th :
    copy_events sourceFile (filepath.Join [tempDir; baseName]) tc None ->
    strings.HasSuffix sourceFile ".cpp" = true ->
    copy_events (strings.Replace1 sourceFile ".cpp" ".h")
      (filepath.Join [tempDir; filepath.Base (strings.Replace1 sourceFile ".cpp" ".h")])
      th None ->
    setup_events testFile sourceFile baseName tempDir
      (EvWriteFile SandboxTest (filepath.Join [tempDir; "test.cpp"]) testFile None
         :: tc ++ EvStat (strings.Replace1 sourceFile ".cpp" ".h") None :: th)%list
      None.

(** ** The traces of [runTestsAndCoverage] and of the loop body of [main]

    The events of lines 232-292 and the values returned with them. *)
Inductive measured (tempDir tempTestFile tempSourceFile baseName : string)
  : list Event -> bool * float64 * option error -> Prop :=
| measured_compile_failed cout err :
    measured tempDir tempTestFile tempSourceFile baseName
      [EvCombinedOutput (compileCmd tempDir tempTestFile tempSourceFile) cout (Some err)]
      (false, f64_0, Some (ErrCompilation err cout))
| measured_run_failed cout rout err :
    measured tempDir tempTestFile tempSourceFile baseName
      [EvCombinedOutput (compileCmd tempDir tempTestFile tempSourceFile) cout None;
       EvCombinedOutput (runCmd tempDir) rout (Some err)]
      (false, f64_0, Some (ErrTestsFailed err rout))
| measured_gcov_failed cout rout gout err :
    measured tempDir tempTestFile tempSourceFile baseName
      [EvCombinedOutput (compileCmd tempDir tempTestFile tempSourceFile) cout None;
       EvCombinedOutput (runCmd tempDir) rout None;
       EvCombinedOutput (gcovCmd tempDir baseName) gout (Some err)]
      (true, f64_0, Some (ErrGcov err gout))
| measured_gated cout rout gout :
    measured tempDir tempTestFile tempSourceFile baseName
      [EvCombinedOutput (compileCmd tempDir tempTestFile tempSourceFile) cout None;
       EvCombinedOutput (runCmd tempDir) rout None;
       EvCombinedOutput (gcovCmd tempDir baseName) gout None]
      (coverage_gate gout).

(** The events of lines 210-230: the files put into the temporary
    directory. *)
Definition is_setup (ev : Event) : bool :=
  match ev with
  | EvWriteFile SandboxTest _ _ _ => true
  | EvWriteFile SandboxCopy _ _ _ => true
  | EvReadFile _ _ => true
  | EvStat _ _ => true
  | _ => false
  end.

Definition is_setup_error (err : error) : bool :=
  match err with
  | ErrWriteTestFile _ | ErrCopySource _ | ErrCopyHeader _ => true
  | _ => false
  end.

Inductive sandboxed (baseName tempDir : string)
  : list Event -> bool * float64 * option error -> Prop :=
| sandboxed_setup_failed t err :
    Forall (fun ev => is_setup ev = true) t ->
    is_setup_error err = true ->
    sandboxed baseName tempDir t (false, f64_0, Some err)
| sandboxed_measured t1 t2 res :
    Forall (fun ev => is_setup ev = true) t1 ->
    measured tempDir (filepath.Join [tempDir; "test.cpp"])
      (filepath.Join [tempDir; baseName]) baseName t2 res ->
    sandboxed baseName tempDir (t1 ++ t2)%list res.

Inductive coverage_run (sourceFile : string)
  : list Event -> bool * float64 * option error -> Prop :=
| coverage_run_no_tempdir err :
    coverage_run sourceFile [EvMkdirTemp (Failure err)] (false, f64_0, Some (ErrTempDir err))
| coverage_run_sandboxed tempDir t res :
    sandboxed (filepath.Base sourceFile) tempDir t res ->
    coverage_run sourceFile
      (EvMkdirTemp (Success tempDir) :: t ++ [EvRemoveAll tempDir])%list res.

(** The same run with the files of its setup: what is written to the
    temporary directory, and from what. *)
Inductive sandbox_run (testFile sourceFile : string)
  : list Event -> bool * float64 * option error -> Prop :=
| sandbox_run_no_tempdir err :
    sandbox_run testFile sourceFile
      [EvMkdirTemp (Failure err)] (false, f64_0, Some (ErrTempDir err))
| sandbox_run_setup_failed tempDir ts err :
    setup_events testFile sourceFile (filepath.Base sourceFile) tempDir ts (Some err) ->
    sandbox_run testFile sourceFile
      (EvMkdirTemp (Success tempDir) :: ts ++ [EvRemoveAll tempDir])%list
      (false, f64_0, Some err)
| sandbox_run_measured tempDir ts tm res :
    setup_events testFile sourceFile (filepath.Base sourceFile) tempDir ts None ->
    measured tempDir (filepath.Join [tempDir; "test.cpp"])
      (filepath.Join [tempDir; filepath.Base sourceFile]) (filepath.Base sourceFile) tm res ->
    sandbox_run testFile sourceFile
      (EvMkdirTemp (Success tempDir) :: ts ++ tm ++ [EvRemoveAll tempDir])%list res.

Inductive generation_events (model code : string)
  : list Event -> string * option error -> Prop :=
| generation_unlisted e :
    generation_events model code [EvList (Failure e)] (EmptyString, Some e)
| generation_listed listed t o :
    models_events (initial_request model code) (available_models model listed) t o ->
    generation_events model code (EvList (Success listed) :: t)
      (match o with
       | Some output => (output, None)
       | None => (EmptyString, Some ErrExhausted)
       end).

Definition is_Stat (ev : Event) : bool :=
  match ev with
  | EvStat _ _ => true
  | _ => false
  end.

(** The events of lines 347-360 and their answer: is the unit skipped? *)
Inductive pairing_events (filePath : string) : list Event -> bool -> Prop :=
| pairing_header st :
    strings.HasSuffix filePath ".h" = true ->
    pairing_events filePath
      [EvStat (strings.Replace1 filePath ".h" ".cpp") st] (IsNotExist st)
| pairing_source st :
    strings.HasSuffix filePath ".h" = false ->
    strings.HasSuffix filePath ".cpp" = true ->
    pairing_events filePath
      [EvStat (strings.Replace1 filePath ".cpp" ".h") st] (IsNotExist st)
| pairing_other :
    strings.HasSuffix filePath ".h" = false ->
    strings.HasSuffix filePath ".cpp" = false ->
    pairing_events filePath [] false.

(** The events of one turn of the loop of line 343, and the exit taken. *)
Inductive unit_events (filePath content : string) : list Event -> Outcome -> Prop :=
| unit_skipped tp :
    pairing_events filePath tp true ->
    unit_events filePath content tp Skipped
| unit_generation_failed tp tg output err :
    pairing_events filePath tp false ->
    generation_events default_model content tg (output, Some err) ->
    unit_events filePath content (tp ++ tg)%list (GenerationFailed err)
| unit_validation_failed tp tg tests tc passed coverage err :
    pairing_events filePath tp false ->
    generation_events default_model content tg (tests, None) ->
    sandbox_run tests (source_file_of filePath) tc (passed, coverage, Some err) ->
    unit_events filePath content (tp ++ tg ++ tc)%list (TestValidationFailed err)
| unit_not_passed tp tg tests tc coverage :
    pairing_events filePath tp false ->
    generation_events default_model content tg (tests, None) ->
    sandbox_run tests (source_file_of filePath) tc (false, coverage, None) ->
    unit_events filePath content (tp ++ tg ++ tc)%list TestsDidNotPass
| unit_written tp tg tests tc coverage wr :
    pairing_events filePath tp false ->
    generation_events default_model content tg (tests, None) ->
    sandbox_run tests (source_file_of filePath) tc (true, coverage, None) ->
    unit_events filePath content
      (tp ++ tg ++ tc ++ [EvWriteFile TestsOutput (test_file_of filePath) tests wr])%list
      (match wr with
       | Some err => WriteFailed (test_file_of filePath) err
       | None => Saved (test_file_of filePath) coverage
       end).

(** The events of the loop of line 343 over a list of units: those of
    each unit, one after the other, and the exit of each. *)
Inductive units_events : list (string * string) -> list Event -> list Outcome -> Prop :=
| units_done : units_events [] [] []
| units_next filePath content rest t1 t2 outcome outcomes :
    unit_events filePath content t1 outcome ->
    units_events rest t2 outcomes ->
    units_events ((filePath, content) :: rest) (t1 ++ t2)%list (outcome :: outcomes).

(** ** The turns of the loop, with the worlds between them *)

Section Turns.

Context {World : Type} {host : Host World}.

(** [units_run files w outcomes w' t]: from the world [w], each unit of
    [files] in turn is given to [process_unit], in the world the turn
    before it left; the turns return [outcomes], leave the world [w'] and
    the events [t]. *)
Inductive units_run
  : list (string * string) -> World -> list Outcome -> World -> list Event -> Prop :=
| units_run_nil w : units_run [] w [] w []
| units_run_cons filePath content rest w outcome w1 t1 outcomes w2 t2 :
    process_unit filePath content w = (Done outcome, w1, t1) ->
    units_run rest w1 outcomes w2 t2 ->
    units_run ((filePath, content) :: rest) w (outcome :: outcomes) w2 (t1 ++ t2)%list.

End Turns.


(** ** Reading the traces of the sandbox *)

Definition is_command (ev : Event) : bool :=
  match ev with
  | EvCombinedOutput _ _ _ => true
  | _ => false
  end.


(** ** Reading the traces of the generation client *)

(** The models of the requests of a trace, in the order of the calls. *)
Definition models_called (t : list Event) : list string :=
  flat_map (fun ev => match ev with
                      | EvGenerate req _ => [Model req]
                      | _ => []
                      end) t.

Definition is_Sleep (ev : Event) : bool :=
  match ev with
  | EvSleep => true
  | _ => false
  end.

Definition is_failed_call (ev : Event) : bool :=
  match ev with
  | EvGenerate _ (Failure _) => true
  | _ => false
  end.

Definition is_answered_call (ev : Event) : bool :=
  match ev with
  | EvGenerate _ (Success _) => true
  | _ => false
  end.

(** ** Reading the traces of [readCodebase] and of [main] *)

(** The test of line 28 on an entry of the walk. *)
Definition selected (entry : WalkEntry) : bool :=
  negb (walk_isDir entry) &&
  (strings.HasSuffix (walk_name entry) ".cpp" || strings.HasSuffix (walk_name entry) ".h").

(** The names of the files a trace reads, in the order of the reads. *)
Definition files_read (t : list Event) : list string :=
  flat_map (fun ev => match ev with
                      | EvReadFile name _ => [name]
                      | _ => []
                      end) t.

(** The events of [main] before its loop. *)
Definition is_startup (ev : Event) : bool :=
  match ev with
  | EvGetenv _ _ => true
  | EvList _ => true
  | EvWalk _ _ => true
  | EvReadFile _ _ => true
  | EvMkdirAll _ _ => true
  | _ => false
  end.

(** ** The pattern of the coverage report as a syntax tree *)

(** [Lines executed:([\d.]+)% of (\d+)] *)
Definition coverage_re : regexp.Regexp :=
  regexp.MustCompile
    (regexp.Cat (regexp.Literal lines_executed)
       (regexp.Cat (regexp.Plus (regexp.Class digit_or_dot))
          (regexp.Cat (regexp.Literal percent_of)
             (regexp.Plus (regexp.Class strconv.is_digit)))))
    false.

(** ** Bytes at the ends of a normalized text *)

(** An ASCII byte that is not white space. *)
Definition plain (c : ascii) : bool :=
  (nat_of_ascii c <? 128)%nat && negb (strings.ascii_space c).

(** * Properties of the embedded program *)

(** ** Strings *)

Lemma append_empty_r (s : string) : s ++ EmptyString = s.
Proof. induction s as [|c s IH]; simpl; [reflexivity | now rewrite IH]. Qed.

Lemma append_assoc_str (s1 s2 s3 : string) : (s1 ++ s2) ++ s3 = s1 ++ s2 ++ s3.
Proof. induction s1 as [|c s1 IH]; simpl; [reflexivity | now rewrite IH]. Qed.

Lemma length_append_str (s1 s2 : string) :
  String.length (s1 ++ s2) = (String.length s1 + String.length s2)%nat.
Proof. induction s1 as [|c s1 IH]; simpl; [reflexivity | now rewrite IH]. Qed.

Lemma append_inv_head (p s1 s2 : string) : p ++ s1 = p ++ s2 -> s1 = s2.
Proof.
  induction p as [|c p IH]; simpl; intros H; [exact H|].
  injection H as H. now apply IH.
Qed.

Lemma HasPrefix_cons (c d : ascii) (s p : string) :
  strings.HasPrefix (String c s) (String d p) = Ascii.eqb c d && strings.HasPrefix s p.
Proof.
  unfold strings.HasPrefix. simpl.
  destruct (ascii_dec d c) as [->|Hne].
  - now rewrite Ascii.eqb_refl.
  - destruct (Ascii.eqb_spec c d) as [->|_]; [contradiction | reflexivity].
Qed.

Lemma HasPrefix_empty (s : string) : strings.HasPrefix s EmptyString = true.
Proof. now destruct s. Qed.

Lemma HasPrefix_of_empty (c : ascii) (p : string) :
  strings.HasPrefix EmptyString (String c p) = false.
Proof. reflexivity. Qed.

(** [strings.HasPrefix]: [s] starts with [p]. *)
Lemma HasPrefix_spec (s p : string) :
  strings.HasPrefix s p = true <-> exists post, s = p ++ post.
Proof.
  revert s. induction p as [|d p IH]; intros s.
  - rewrite HasPrefix_empty. split; [intros _; now exists s | reflexivity].
  - destruct s as [|c s].
    + rewrite HasPrefix_of_empty. split; [discriminate | intros [post H]; discriminate].
    + rewrite HasPrefix_cons, andb_true_iff, IH. split.
      * intros [Hc [post ->]]. apply Ascii.eqb_eq in Hc. subst. now exists post.
      * intros [post H]. simpl in H. injection H as -> ->.
        split; [apply Ascii.eqb_refl | now exists post].
Qed.

Lemma HasPrefix_append (p post : string) : strings.HasPrefix (p ++ post) p = true.
Proof. apply HasPrefix_spec. now exists post. Qed.

Lemma drop_append (p s : string) : strings.drop (String.length p) (p ++ s) = s.
Proof. induction p as [|c p IH]; simpl; [now destruct s | exact IH]. Qed.

Lemma take_append (p s : string) : strings.take (String.length p) (p ++ s) = p.
Proof. induction p as [|c p IH]; simpl; [now destruct s | now rewrite IH]. Qed.

(** [strings.Contains]: [sub] occurs somewhere in [s]. *)
Lemma Contains_spec (s sub : string) :
  strings.Contains s sub = true <-> substring_of sub s.
Proof.
  unfold substring_of. induction s as [|c s IH]; cbn [strings.Contains].
  - rewrite orb_false_r, HasPrefix_spec. split.
    + intros [post H]. now exists EmptyString, post.
    + intros [pre [post H]]. destruct pre; [now exists post | discriminate].
  - rewrite orb_true_iff, HasPrefix_spec, IH. split.
    + intros [[post H] | [pre [post H]]].
      * now exists EmptyString, post.
      * exists (String c pre), post. simpl. now rewrite H.
    + intros [pre [post H]]. destruct pre as [|d pre]; simpl in H.
      * left. now exists post.
      * right. injection H as _ H. now exists pre, post.
Qed.

Lemma Contains_false_spec (s sub : string) :
  strings.Contains s sub = false <-> ~ substring_of sub s.
Proof.
  rewrite <- Contains_spec. destruct (strings.Contains s sub).
  - split; [discriminate | intros H; exfalso; now apply H].
  - split; [intros _ H; discriminate | reflexivity].
Qed.

(** [strings.HasSuffix]: [s] ends with [suffix]. *)
Lemma HasSuffix_spec (s suffix : string) :
  strings.HasSuffix s suffix = true <-> exists pre, s = pre ++ suffix.
Proof.
  induction s as [|c s IH]; cbn [strings.HasSuffix].
  - rewrite orb_false_r, String.eqb_eq. split.
    + intros <-. now exists EmptyString.
    + intros [pre H]. destruct pre; [exact H | discriminate].
  - rewrite orb_true_iff, String.eqb_eq, IH. split.
    + intros [H | [pre H]]; [now exists EmptyString | exists (String c pre); simpl; now rewrite H].
    + intros [pre H]. destruct pre as [|d pre]; simpl in H; [now left|].
      injection H as _ H. right. now exists pre.
Qed.

Lemma HasSuffix_append (pre suffix : string) :
  strings.HasSuffix (pre ++ suffix) suffix = true.
Proof. apply HasSuffix_spec. now exists pre. Qed.

Lemma last_byte_append (s : string) (c : ascii) (t : string) :
  last_byte (s ++ String c t) = last_byte (String c t).
Proof.
  induction s as [|d s IH]; [reflexivity|].
  change (String d s ++ String c t) with (String d (s ++ String c t)).
  cbn [last_byte]. destruct (s ++ String c t) eqn:E.
  - destruct s; discriminate.
  - exact IH.
Qed.

(** A text that ends with [suffix] ends with the last byte of [suffix]. *)
Lemma HasSuffix_last_byte (s suffix : string) (c : ascii) :
  strings.HasSuffix s suffix = true -> last_byte suffix = Some c -> last_byte s = Some c.
Proof.
  intros H Hc. apply HasSuffix_spec in H as [pre ->].
  destruct suffix as [|d t]; [discriminate|].
  now rewrite last_byte_append.
Qed.

(** ** Regular expressions: matching by derivatives decides [lang] *)

Import regexp.

Lemma lang_Void_inv (s : string) : lang Void s -> False.
Proof. intros H. inversion H. Qed.

Lemma lang_Eps_iff (s : string) : lang Eps s <-> s = EmptyString.
Proof. split; [intros H; now inversion H | intros ->; constructor]. Qed.

Lemma lang_Class_iff (p : ascii -> bool) (s : string) :
  lang (Class p) s <-> exists c, s = str1 c /\ p c = true.
Proof.
  split.
  - intros H. inversion H; subst. now exists c.
  - intros [c [-> Hc]]. now constructor.
Qed.

Lemma lang_Cat_iff (r1 r2 : regex) (s : string) :
  lang (Cat r1 r2) s <-> exists s1 s2, s = s1 ++ s2 /\ lang r1 s1 /\ lang r2 s2.
Proof.
  split.
  - intros H. inversion H; subst. now exists s1, s2.
  - intros [s1 [s2 [-> [H1 H2]]]]. now constructor.
Qed.

Lemma lang_Alt_iff (r1 r2 : regex) (s : string) :
  lang (Alt r1 r2) s <-> lang r1 s \/ lang r2 s.
Proof.
  split.
  - intros H. inversion H; subst; [now left | now right].
  - intros [H | H]; [now apply lang_alt_l | now apply lang_alt_r].
Qed.

Lemma append_eq_empty (s1 s2 : string) :
  s1 ++ s2 = EmptyString -> s1 = EmptyString /\ s2 = EmptyString.
Proof. destruct s1; simpl; [now split | discriminate]. Qed.

Lemma nullable_spec (r : regex) : nullable r = true <-> lang r EmptyString.
Proof.
  induction r as [| |p|r1 IH1 r2 IH2|r1 IH1 r2 IH2|r IH]; simpl.
  - split; [discriminate | intros H; destruct (lang_Void_inv _ H)].
  - split; [constructor | reflexivity].
  - split; [discriminate|]. rewrite lang_Class_iff. intros [c [H _]]. discriminate.
  - rewrite andb_true_iff, IH1, IH2, lang_Cat_iff. split.
    + intros [H1 H2]. now exists EmptyString, EmptyString.
    + intros [s1 [s2 [E [H1 H2]]]]. symmetry in E.
      apply append_eq_empty in E as [-> ->]. now split.
  - now rewrite orb_true_iff, IH1, IH2, lang_Alt_iff.
  - split; [constructor | reflexivity].
Qed.

Lemma cat_spec (r1 r2 : regex) (s : string) : lang (cat r1 r2) s <-> lang (Cat r1 r2) s.
Proof.
  assert (HV1 : forall r, lang (Cat Void r) s <-> lang Void s).
  { intros r. rewrite lang_Cat_iff. split.
    - intros [s1 [s2 [_ [H _]]]]. destruct (lang_Void_inv _ H).
    - intros H. destruct (lang_Void_inv _ H). }
  assert (HV2 : forall r, lang (Cat r Void) s <-> lang Void s).
  { intros r. rewrite lang_Cat_iff. split.
    - intros [s1 [s2 [_ [_ H]]]]. destruct (lang_Void_inv _ H).
    - intros H. destruct (lang_Void_inv _ H). }
  assert (HE : forall r, lang (Cat Eps r) s <-> lang r s).
  { intros r. rewrite lang_Cat_iff. split.
    - intros [s1 [s2 [-> [H1 H2]]]]. apply lang_Eps_iff in H1. now subst.
    - intros H. exists EmptyString, s. repeat split; [constructor | exact H]. }
  destruct r1; destruct r2; simpl;
    rewrite ?HV1, ?HV2, ?HE; reflexivity.
Qed.

Lemma alt_spec (r1 r2 : regex) (s : string) : lang (alt r1 r2) s <-> lang (Alt r1 r2) s.
Proof.
  assert (HV1 : forall r, lang (Alt Void r) s <-> lang r s).
  { intros r. rewrite lang_Alt_iff. split; [|now right].
    intros [H | H]; [destruct (lang_Void_inv _ H) | exact H]. }
  assert (HV2 : forall r, lang (Alt r Void) s <-> lang r s).
  { intros r. rewrite lang_Alt_iff. split; [|now left].
    intros [H | H]; [exact H | destruct (lang_Void_inv _ H)]. }
  destruct r1; destruct r2; simpl;
    rewrite ?HV1, ?HV2; reflexivity.
Qed.

(** A nonempty text of a starred language starts with a nonempty text of
    the language. *)
Lemma lang_Star_cons_inv (r : regex) (c : ascii) (s : string) :
  lang (Star r) (String c s) ->
  exists s1 s2, s = s1 ++ s2 /\ lang r (String c s1) /\ lang (Star r) s2.
Proof.
  intros H. remember (Star r) as r' eqn:Er. remember (String c s) as t eqn:Et.
  revert Er Et.
  induction H as [| | | | | |r0 s1 s2 H1 _ H2 IH2]; intros Er Et; try discriminate.
  injection Er as ->.
  destruct s1 as [|d s1]; simpl in Et.
  - now apply IH2.
  - injection Et as -> <-. now exists s1, s2.
Qed.

Lemma deriv_spec (r : regex) (c : ascii) (s : string) :
  lang (deriv c r) s <-> lang r (String c s).
Proof.
  revert s. induction r as [| |p|r1 IH1 r2 IH2|r1 IH1 r2 IH2|r IH]; intros s; simpl.
  - split; intros H; inversion H.
  - split; intros H; inversion H.
  - rewrite lang_Class_iff. destruct (p c) eqn:Hp.
    + rewrite lang_Eps_iff. split.
      * intros ->. now exists c.
      * intros [d [E _]]. now injection E.
    + split; [intros H; inversion H|].
      intros [d [E Hd]]. injection E as -> _. congruence.
  - assert (Hcat : lang (Cat r1 r2) (String c s) <->
                   lang (Cat (deriv c r1) r2) s \/
                   (lang r1 EmptyString /\ lang (deriv c r2) s)).
    { rewrite !lang_Cat_iff. split.
      - intros [s1 [s2 [E [H1 H2]]]]. destruct s1 as [|d s1]; simpl in E.
        + right. subst s2. split; [exact H1 | now apply IH2].
        + injection E as <- ->. left. exists s1, s2.
          repeat split; [now apply IH1 | exact H2].
      - intros [[s1 [s2 [-> [H1 H2]]]] | [H1 H2]].
        + exists (String c s1), s2. repeat split; [now apply IH1 | exact H2].
        + exists EmptyString, (String c s). repeat split; [exact H1 | now apply IH2]. }
    rewrite Hcat. destruct (nullable r1) eqn:Hn.
    + rewrite alt_spec, lang_Alt_iff, cat_spec.
      apply nullable_spec in Hn. tauto.
    + rewrite cat_spec. split; [now left|].
      intros [H | [H _]]; [exact H|].
      apply nullable_spec in H. congruence.
  - now rewrite alt_spec, !lang_Alt_iff, IH1, IH2.
  - rewrite cat_spec, lang_Cat_iff. split.
    + intros [s1 [s2 [-> [H1 H2]]]].
      change (String c (s1 ++ s2)) with (String c s1 ++ s2).
      constructor; [now apply IH | exact H2].
    + intros H. apply lang_Star_cons_inv in H as [s1 [s2 [-> [H1 H2]]]].
      exists s1, s2. repeat split; [now apply IH | exact H2].
Qed.

(** The matcher decides membership in the language of the pattern. *)
Lemma full_match_spec (r : regex) (s : string) : full_match r s = true <-> lang r s.
Proof.
  revert r. induction s as [|c s IH]; intros r; simpl.
  - apply nullable_spec.
  - now rewrite IH, deriv_spec.
Qed.

Lemma prefix_match_spec (r : regex) (s : string) :
  prefix_match r s = true <-> exists s1 s2, s = s1 ++ s2 /\ lang r s1.
Proof.
  revert r. induction s as [|c s IH]; intros r; cbn [prefix_match].
  - rewrite orb_false_r, nullable_spec. split.
    + intros H. now exists EmptyString, EmptyString.
    + intros [s1 [s2 [E H]]]. symmetry in E. apply append_eq_empty in E as [-> _]. exact H.
  - rewrite orb_true_iff, nullable_spec, IH. split.
    + intros [H | [s1 [s2 [-> H]]]].
      * now exists EmptyString, (String c s).
      * exists (String c s1), s2. split; [reflexivity | now apply deriv_spec].
    + intros [s1 [s2 [E H]]]. destruct s1 as [|d s1]; simpl in E.
      * now left.
      * injection E as <- ->. right. exists s1, s2. split; [reflexivity | now apply deriv_spec].
Qed.

(** [MatchString]: the pattern matches at some position of the text. *)
Lemma MatchString_spec (re : Regexp) (s : string) :
  MatchString re s = true <-> exists pre post, s = pre ++ post /\ match_here re post = true.
Proof.
  induction s as [|c s IH]; cbn [MatchString].
  - rewrite orb_false_r. split.
    + intros H. now exists EmptyString, EmptyString.
    + intros [pre [post [E H]]]. symmetry in E. apply append_eq_empty in E as [_ ->]. exact H.
  - rewrite orb_true_iff, IH. split.
    + intros [H | [pre [post [-> H]]]].
      * now exists EmptyString, (String c s).
      * now exists (String c pre), post.
    + intros [pre [post [E H]]]. destruct pre as [|d pre]; simpl in E.
      * left. now subst.
      * injection E as _ ->. right. now exists pre, post.
Qed.

Lemma lang_Literal_iff (l s : string) : lang (Literal l) s <-> s = l.
Proof.
  revert s. induction l as [|c l IH]; intros s; simpl.
  - apply lang_Eps_iff.
  - rewrite lang_Cat_iff. split.
    + intros [s1 [s2 [-> [H1 H2]]]]. apply lang_Class_iff in H1 as [d [-> Hd]].
      apply Ascii.eqb_eq in Hd. subst. apply IH in H2. now subst.
    + intros ->. exists (str1 c), l. repeat split.
      * apply lang_Class_iff. exists c. split; [reflexivity | apply Ascii.eqb_refl].
      * now apply IH.
Qed.

Lemma lang_Chr_iff (c : ascii) (s : string) : lang (Chr c) s <-> s = str1 c.
Proof.
  unfold Chr. rewrite lang_Class_iff. split.
  - intros [d [-> Hd]]. apply Ascii.eqb_eq in Hd. now subst.
  - intros ->. exists c. split; [reflexivity | apply Ascii.eqb_refl].
Qed.

Lemma lang_Star_Class_iff (p : ascii -> bool) (s : string) :
  lang (Star (Class p)) s <-> all_bytes p s = true.
Proof.
  induction s as [|c s IH]; simpl.
  - split; [reflexivity | constructor].
  - rewrite andb_true_iff, <- IH. split.
    + intros H. apply lang_Star_cons_inv in H as [s1 [s2 [-> [H1 H2]]]].
      apply lang_Class_iff in H1 as [d [E Hd]]. injection E as -> ->. now split.
    + intros [Hc H]. change (String c s) with (str1 c ++ s).
      constructor; [now constructor | exact H].
Qed.

Lemma lang_Plus_Class_iff (p : ascii -> bool) (s : string) :
  lang (Plus (Class p)) s <-> s <> EmptyString /\ all_bytes p s = true.
Proof.
  unfold Plus. rewrite lang_Cat_iff. split.
  - intros [s1 [s2 [-> [H1 H2]]]]. apply lang_Class_iff in H1 as [c [-> Hc]].
    apply lang_Star_Class_iff in H2. simpl. split; [discriminate | now rewrite Hc].
  - intros [Hne H]. destruct s as [|c s]; [contradiction|].
    simpl in H. apply andb_true_iff in H as [Hc H].
    exists (str1 c), s. repeat split.
    + now constructor.
    + now apply lang_Star_Class_iff.
Qed.

(** ** The checks of the validator *)

(** The language of the pattern [TEST\([^)]+\)\s*{[^}]*]. *)
Lemma incomplete_test_lang (t : string) :
  lang (body incomplete_test_re) t <->
  exists name ws b,
    t = "TEST(" ++ name ++ ")" ++ ws ++ "{" ++ b /\
    name <> EmptyString /\
    all_bytes not_rparen name = true /\
    all_bytes re_space ws = true /\
    all_bytes not_rbrace b = true.
Proof.
  cbn [body incomplete_test_re]. split.
  - intros H.
    apply lang_Cat_iff in H as [s1 [t1 [-> [H1 H]]]]. apply lang_Literal_iff in H1.
    apply lang_Cat_iff in H as [name [t2 [-> [H2 H]]]]. apply lang_Plus_Class_iff in H2.
    apply lang_Cat_iff in H as [s3 [t3 [-> [H3 H]]]]. apply lang_Chr_iff in H3.
    apply lang_Cat_iff in H as [ws [t4 [-> [H4 H]]]]. apply lang_Star_Class_iff in H4.
    apply lang_Cat_iff in H as [s5 [b [-> [H5 H]]]]. apply lang_Chr_iff in H5.
    apply lang_Star_Class_iff in H. subst s1 s3 s5.
    exists name, ws, b. destruct H2 as [Hne Hname]. repeat split; assumption.
  - intros [name [ws [b [-> [Hne [Hname [Hws Hb]]]]]]].
    apply lang_cat; [now apply lang_Literal_iff|].
    apply lang_cat; [now apply lang_Plus_Class_iff|].
    apply (lang_cat _ _ ")"); [now apply lang_Chr_iff|].
    apply lang_cat; [now apply lang_Star_Class_iff|].
    apply (lang_cat _ _ "{"); [now apply lang_Chr_iff|].
    now apply lang_Star_Class_iff.
Qed.

(** The pattern of line 156 matches exactly the texts with an incomplete
    test body. *)
Lemma MatchString_incomplete (output : string) :
  MatchString incomplete_test_re output = true <-> incomplete_test_body output.
Proof.
  rewrite MatchString_spec. unfold incomplete_test_body, match_here.
  cbn [anchored_end incomplete_test_re]. split.
  - intros [pre [post [-> H]]]. apply full_match_spec, incomplete_test_lang in H.
    destruct H as [name [ws [b [-> H]]]]. now exists pre, name, ws, b.
  - intros [pre [name [ws [b [-> H]]]]].
    exists pre, ("TEST(" ++ name ++ ")" ++ ws ++ "{" ++ b). split; [reflexivity|].
    apply full_match_spec, incomplete_test_lang. now exists name, ws, b.
Qed.

Lemma drop_S_cons (k : nat) (c : ascii) (s : string) :
  strings.drop (S k) (String c s) = strings.drop k s.
Proof. reflexivity. Qed.

(** Matches of a literal that cannot overlap itself are counted one per
    position at which the literal starts. *)
Lemma count_matches_from_occurrences (lit : string) :
  (forall post k, (1 <= k < String.length lit)%nat ->
     strings.HasPrefix (strings.drop k (lit ++ post)) lit = false) ->
  forall s skip,
    (forall j, (j < skip)%nat -> strings.HasPrefix (strings.drop j s) lit = false) ->
    count_matches_from lit skip s = occurrences lit s.
Proof.
  intros Hbf. induction s as [|c s IH]; intros skip Hskip; [reflexivity|].
  cbn [count_matches_from occurrences]. destruct skip as [|k].
  - destruct (strings.HasPrefix (String c s) lit) eqn:Hp.
    + cbn [Nat.add]. f_equal. apply IH. intros j Hj.
      apply HasPrefix_spec in Hp as [post E]. rewrite <- drop_S_cons with (c := c), E.
      apply Hbf. lia.
    + apply IH. intros j Hj. lia.
  - assert (H0 : strings.HasPrefix (String c s) lit = false)
      by (apply (Hskip 0%nat); lia).
    rewrite H0. cbn [Nat.add]. apply IH. intros j Hj.
    rewrite <- drop_S_cons with (c := c). apply Hskip. lia.
Qed.

Lemma test_decl_literal_no_overlap (post : string) (k : nat) :
  (1 <= k < String.length test_decl_literal)%nat ->
  strings.HasPrefix (strings.drop k (test_decl_literal ++ post)) test_decl_literal = false.
Proof.
  intros [H1 H2]. destruct k as [|k]; [lia|].
  do 19 (destruct k as [|k]; [reflexivity|]).
  cbn in H2. lia.
Qed.

(** [len(re.FindAllString(output, -1))] for the pattern of line 163 is the
    number of positions at which [TEST(CalculatorTest,] starts. *)
Lemma FindAllString_len_occurrences (output : string) :
  FindAllString_len test_decl_literal output = occurrences test_decl_literal output.
Proof.
  unfold FindAllString_len. apply count_matches_from_occurrences.
  - exact test_decl_literal_no_overlap.
  - intros j Hj. lia.
Qed.

Lemma braceCount_from_count (count : Z) (output : string) :
  braceCount_from count output =
  (count + Z.of_nat (count_byte "{" output) - Z.of_nat (count_byte "}" output))%Z.
Proof.
  revert count. induction output as [|c s IH]; intros count; cbn [braceCount_from count_byte].
  - cbn. lia.
  - destruct (Ascii.eqb c "{") eqn:E1.
    + apply Ascii.eqb_eq in E1. subst c. rewrite IH.
      change (Ascii.eqb "{" "}") with false. cbv iota. lia.
    + destruct (Ascii.eqb c "}") eqn:E2; rewrite IH; cbv iota; lia.
Qed.

Lemma braceCount_count (output : string) :
  braceCount output =
  (Z.of_nat (count_byte "{" output) - Z.of_nat (count_byte "}" output))%Z.
Proof. unfold braceCount. rewrite braceCount_from_count. lia. Qed.

Lemma missingMethods_none (output : string) :
  negb (0 <? List.length (missingMethods output))%nat = true <->
  Forall (fun method => substring_of (method ++ "(") output) methods.
Proof.
  unfold missingMethods, methods. cbn [filter].
  destruct (strings.Contains output ("add" ++ "(")) eqn:E1;
    destruct (strings.Contains output ("subtract" ++ "(")) eqn:E2; cbn; split;
    try discriminate; try reflexivity.
  - intros _. repeat constructor; now apply Contains_spec.
  - intros H. inversion H as [|? ? _ H']; subst. inversion H' as [|? ? H2 _]; subst.
    apply Contains_spec in H2. congruence.
  - intros H. inversion H as [|? ? H1 _]; subst. apply Contains_spec in H1. congruence.
  - intros H. inversion H as [|? ? H1 _]; subst. apply Contains_spec in H1. congruence.
Qed.

(** [validate] is its chain of checks. *)
Lemma validate_first_failing (output : string) :
  validate output =
  match first_failing (bool_checks output) with
  | None => Accepted output
  | Some r => Rejected r
  end.
Proof.
  unfold validate, bool_checks. cbn [first_failing].
  destruct (String.length output <? 250)%nat; [reflexivity|]. cbn [negb].
  destruct (strings.Contains output include_gtest); [|reflexivity]. cbn [negb].
  destruct (strings.Contains output include_cmath); [|reflexivity]. cbn [negb].
  destruct (strings.Contains output include_stdexcept); [|reflexivity]. cbn [negb].
  destruct (strings.Contains output include_example); [|reflexivity]. cbn [negb].
  destruct (strings.Contains output "TEST"); [|reflexivity]. cbn [negb].
  destruct (MatchString incomplete_test_re output); [reflexivity|]. cbn [negb].
  destruct (FindAllString_len test_decl_literal output =? 4)%nat; [|reflexivity]. cbn [negb].
  destruct (0 <? List.length (missingMethods output))%nat; [reflexivity|]. cbn [negb].
  destruct (braceCount output =? 0)%Z; reflexivity.
Qed.

Lemma bool_checks_reflect (output : string) : reflects (bool_checks output) (checks output).
Proof.
  unfold bool_checks, checks.
  rewrite FindAllString_len_occurrences, braceCount_count.
  repeat (apply reflects_cons); try apply reflects_nil; try apply Contains_spec.
  - rewrite negb_true_iff, Nat.ltb_ge. reflexivity.
  - rewrite negb_true_iff, <- MatchString_incomplete.
    destruct (MatchString incomplete_test_re output); split; congruence.
  - apply Nat.eqb_eq.
  - apply missingMethods_none.
  - rewrite Z.eqb_eq. lia.
Qed.

Lemma first_failing_none (bs : list (bool * Reason)) (ps : list (Prop * Reason)) :
  reflects bs ps -> (first_failing bs = None <-> Forall (fun c => fst c) ps).
Proof.
  induction 1 as [|b P r bs ps Hb _ IH]; cbn [first_failing].
  - split; [constructor | reflexivity].
  - destruct b.
    + rewrite IH. split.
      * intros H. constructor; [now apply Hb | exact H].
      * intros H. now inversion H.
    + split; [discriminate|]. intros H. inversion H as [|? ? HP _]; subst.
      apply Hb in HP. discriminate.
Qed.

Lemma first_failing_some (bs : list (bool * Reason)) (ps : list (Prop * Reason)) :
  reflects bs ps -> forall r, first_failing bs = Some r <-> first_violated ps r.
Proof.
  induction 1 as [|b P r0 bs ps Hb _ IH]; intros r; cbn [first_failing].
  - split; [discriminate | intros H; inversion H].
  - destruct b.
    + rewrite IH. split.
      * intros H. apply violated_later; [now apply Hb | exact H].
      * intros H. inversion H; subst; [|assumption].
        exfalso. match goal with HN : ~ P |- _ => apply HN end. now apply Hb.
    + split.
      * intros [= <-]. apply violated_here. intros HP. apply Hb in HP. discriminate.
      * intros H. inversion H; subst; [reflexivity|].
        match goal with HP : P |- _ => apply Hb in HP; discriminate end.
Qed.

(** An accepted text is the text that was checked. *)
Lemma validate_Accepted_inv (output text : string) :
  validate output = Accepted text -> text = output.
Proof.
  rewrite validate_first_failing. destruct (first_failing (bool_checks output)).
  - discriminate.
  - now intros [= <-].
Qed.

(** C2.  The validator accepts a text if and only if every rule of the
    chain holds of it: at least 250 bytes, the four include directives,
    the word TEST, no incomplete test body, exactly four occurrences of
    the test declaration of the CalculatorTest suite, every method name
    followed by an opening parenthesis, and as many opening as closing
    braces.  It rejects with a reason if and only if that reason is the
    one of the first rule, in this order, that does not hold.  An accepted
    text is returned as it was given. *)
Theorem validate_accepts_iff_all_checks (output : string) :
  (validate output = Accepted output <-> Forall (fun c => fst c) (checks output)) /\
  (forall r, validate output = Rejected r <-> first_violated (checks output) r) /\
  (forall text, validate output = Accepted text <-> text = output /\ validate output = Accepted output).
Proof.
  pose proof (bool_checks_reflect output) as Href.
  split; [|split].
  - rewrite validate_first_failing, <- (first_failing_none _ _ Href).
    destruct (first_failing (bool_checks output)); split; congruence.
  - intros r. rewrite validate_first_failing, <- (first_failing_some _ _ Href).
    destruct (first_failing (bool_checks output)); split; congruence.
  - intros text. split.
    + intros H. pose proof (validate_Accepted_inv _ _ H) as ->. now split.
    + intros [-> H]. exact H.
Qed.

(** C3, as the claim states it, fails: a text of 16 bytes that lacks the
    gtest directive is rejected as too short, not for the directive. *)
Lemma short_output_rejected_as_too_short :
  strings.Contains include_cmath include_gtest = false /\
  validate include_cmath = Rejected (TooShort 16) /\
  validate include_cmath <> Rejected (MissingInclude include_gtest).
Proof.
  split; [vm_compute; reflexivity|].
  split; [vm_compute; reflexivity | vm_compute; discriminate].
Qed.

(** C3, amended.  A text of at least 250 bytes that lacks one of the four
    required directives, and has those that are checked before it, is
    rejected with the missing-include reason of that directive, whatever
    the rules checked after it say. *)
Theorem missing_include_reason
  (output : string) (present : list string) (inc : string) (later : list string) :
  required_includes = (present ++ inc :: later)%list ->
  (250 <= String.length output)%nat ->
  Forall (fun directive => strings.Contains output directive = true) present ->
  strings.Contains output inc = false ->
  validate output = Rejected (MissingInclude inc).
Proof.
  intros Hreq Hlen Hpresent Hinc. unfold validate.
  apply Nat.ltb_ge in Hlen. rewrite Hlen.
  unfold required_includes in Hreq.
  destruct present as [|i1 present]; cbn [app] in Hreq.
  { injection Hreq as <- _. now rewrite Hinc. }
  injection Hreq as <- Hreq. inversion Hpresent as [|? ? H1 Hp1]; subst.
  rewrite H1. cbn [negb].
  destruct present as [|i2 present]; cbn [app] in Hreq.
  { injection Hreq as <- _. now rewrite Hinc. }
  injection Hreq as <- Hreq. inversion Hp1 as [|? ? H2 Hp2]; subst.
  rewrite H2. cbn [negb].
  destruct present as [|i3 present]; cbn [app] in Hreq.
  { injection Hreq as <- _. now rewrite Hinc. }
  injection Hreq as <- Hreq. inversion Hp2 as [|? ? H3 Hp3]; subst.
  rewrite H3. cbn [negb].
  destruct present as [|i4 present]; cbn [app] in Hreq.
  { injection Hreq as <- _. now rewrite Hinc. }
  injection Hreq as _ Hreq. destruct present; discriminate.
Qed.

Lemma missing_include_reason_witness :
  validate Scripted.tests_without_cmath = Rejected (MissingInclude include_cmath).
Proof.
  apply (missing_include_reason Scripted.tests_without_cmath
           [include_gtest] include_cmath [include_stdexcept; include_example]).
  - reflexivity.
  - apply Nat.leb_le. vm_compute. reflexivity.
  - constructor; [vm_compute; reflexivity | constructor].
  - vm_compute. reflexivity.
Defined.

(** ** The coverage gate *)

(** C4.  When the report holds a percentage that parses, the gate
    compares it with 80.0: below, it rejects with the below-threshold
    error that carries the percentage; otherwise it accepts and returns the
    percentage.  The text 79.99 parses to a value below 80.0 and is
    rejected; the text 80.00 parses to 80.0 itself and is accepted: the
    bound is inclusive. *)
Theorem coverage_gate_boundary (report whole percentage : string) (rest : list string) :
  FindStringSubmatch_coverage report = Some (whole :: percentage :: rest) ->
  (forall coverage, strconv.ParseFloat percentage = (coverage, None) ->
     coverage_gate report =
       if f64_lt coverage f64_80
       then (false, coverage, Some (ErrBelowThreshold coverage))
       else (true, coverage, None)) /\
  (percentage = "79.99" ->
     exists coverage,
       strconv.ParseFloat "79.99" = (coverage, None) /\
       f64_lt coverage f64_80 = true /\
       coverage_gate report = (false, coverage, Some (ErrBelowThreshold coverage))) /\
  (percentage = "80.00" ->
     strconv.ParseFloat "80.00" = (f64_80, None) /\
     f64_lt f64_80 f64_80 = false /\
     coverage_gate report = (true, f64_80, None)).
Proof.
  intros Hfind. unfold coverage_gate. rewrite Hfind. split; [|split].
  - intros coverage Hparse. now rewrite Hparse.
  - intros ->. exists (fst (strconv.ParseFloat "79.99")).
    repeat split; vm_compute; reflexivity.
  - intros ->. repeat split; vm_compute; reflexivity.
Qed.

Lemma coverage_gate_boundary_witness :
  (exists coverage,
     f64_lt coverage f64_80 = true /\
     coverage_gate "Lines executed:79.99% of 100" =
       (false, coverage, Some (ErrBelowThreshold coverage))) /\
  coverage_gate "Lines executed:80.00% of 100" = (true, f64_80, None).
Proof.
  split.
  - assert (Hfind : FindStringSubmatch_coverage "Lines executed:79.99% of 100" =
                    Some ["Lines executed:79.99% of 100"; "79.99"; "100"])
      by (vm_compute; reflexivity).
    destruct (coverage_gate_boundary _ _ _ _ Hfind) as [_ [H _]].
    destruct (H eq_refl) as [coverage [_ [Hlt Hgate]]].
    exists coverage. now split.
  - assert (Hfind : FindStringSubmatch_coverage "Lines executed:80.00% of 100" =
                    Some ["Lines executed:80.00% of 100"; "80.00"; "100"])
      by (vm_compute; reflexivity).
    destruct (coverage_gate_boundary _ _ _ _ Hfind) as [_ [_ H]].
    destruct (H eq_refl) as [_ [_ Hgate]]. exact Hgate.
Defined.

(** ** The generation client *)

Lemma generate_calls_app (t1 t2 : list Event) :
  generate_calls (t1 ++ t2) = (generate_calls t1 + generate_calls t2)%nat.
Proof. unfold generate_calls. now rewrite filter_app, length_app. Qed.

Lemma attempt_events_calls req m n t o :
  attempt_events req m n t o -> generate_calls t = 1%nat.
Proof. intros H. destruct H; reflexivity. Qed.

Lemma attempts_events_calls req m ns t o :
  attempts_events req m ns t o ->
  (generate_calls t <= List.length ns)%nat /\
  (o = None -> generate_calls t = List.length ns).
Proof.
  induction 1 as [|n rest t1 t2 r H1 _ [IHle IHeq]|n rest t out H1]; cbn [List.length].
  - split; [apply Nat.le_refl | reflexivity].
  - rewrite generate_calls_app, (attempt_events_calls _ _ _ _ _ H1). split.
    + lia.
    + intros E. rewrite (IHeq E). reflexivity.
  - rewrite (attempt_events_calls _ _ _ _ _ H1). split; [lia | discriminate].
Qed.

Lemma models_events_calls req ms t o :
  models_events req ms t o ->
  (generate_calls t <= 3 * List.length ms)%nat /\
  (o = None -> generate_calls t = (3 * List.length ms)%nat).
Proof.
  induction 1 as [req|req m rest t1 t2 r H1 _ [IHle IHeq]|req m rest t out H1]; cbn [List.length].
  - split; [apply Nat.le_refl | reflexivity].
  - rewrite generate_calls_app.
    destruct (attempts_events_calls _ _ _ _ _ H1) as [_ E1].
    rewrite (E1 eq_refl). cbn [List.length seq]. split.
    + lia.
    + intros E. rewrite (IHeq E). lia.
  - destruct (attempts_events_calls _ _ _ _ _ H1) as [Hle _].
    cbn [List.length seq] in Hle. split; [lia | discriminate].
Qed.

Lemma all_rejected_nil : all_rejected [].
Proof. intros req raw []. Qed.

Lemma all_rejected_app (t1 t2 : list Event) :
  all_rejected t1 -> all_rejected t2 -> all_rejected (t1 ++ t2).
Proof.
  intros H1 H2 req raw Hin. apply in_app_or in Hin as [Hin | Hin]; eauto.
Qed.

Lemma attempt_events_rejected req m n t :
  attempt_events req m n t None -> all_rejected t.
Proof.
  intros H. inversion H; subst; intros rq rw Hin; cbn in Hin.
  - destruct Hin as [E | [E | []]]; discriminate.
  - destruct Hin as [E | [E | []]]; [|discriminate].
    injection E as _ <-. eauto.
Qed.

Lemma attempt_events_accepted req m n t output :
  attempt_events req m n t (Some output) -> ends_with_accepted t output.
Proof.
  intros H. inversion H; subst.
  exists [], req, raw, (raw_response_name m n), wr.
  repeat split; [assumption | apply all_rejected_nil].
Qed.

Lemma ends_with_accepted_after (t1 t2 : list Event) (output : string) :
  all_rejected t1 -> ends_with_accepted t2 output -> ends_with_accepted (t1 ++ t2) output.
Proof.
  intros H1 [t0 [req [raw [name [wr [-> [Hn [Hv H0]]]]]]]].
  exists (t1 ++ t0)%list, req, raw, name, wr.
  rewrite app_assoc. repeat split; try assumption. now apply all_rejected_app.
Qed.

Lemma attempts_events_outcome req m ns t o :
  attempts_events req m ns t o ->
  match o with
  | None => all_rejected t
  | Some output => ends_with_accepted t output
  end.
Proof.
  induction 1 as [|n rest t1 t2 r H1 _ IH|n rest t out H1].
  - apply all_rejected_nil.
  - apply attempt_events_rejected in H1. destruct r.
    + now apply ends_with_accepted_after.
    + now apply all_rejected_app.
  - now apply attempt_events_accepted in H1.
Qed.

Lemma models_events_outcome req ms t o :
  models_events req ms t o ->
  match o with
  | None => all_rejected t
  | Some output => ends_with_accepted t output
  end.
Proof.
  induction 1 as [req|req m rest t1 t2 r H1 _ IH|req m rest t out H1].
  - apply all_rejected_nil.
  - apply attempts_events_outcome in H1. destruct r.
    + now apply ends_with_accepted_after.
    + now apply all_rejected_app.
  - now apply attempts_events_outcome in H1.
Qed.

(** The requests of a trace: the one the loop was given. *)
Lemma attempt_events_request req m n t o rq r :
  attempt_events req m n t o -> In (EvGenerate rq r) t -> rq = req.
Proof.
  intros H Hin. destruct H; cbn in Hin;
    destruct Hin as [E | [E | []]]; try discriminate; now injection E.
Qed.

Lemma attempts_events_request req m ns t o rq r :
  attempts_events req m ns t o -> In (EvGenerate rq r) t -> rq = req.
Proof.
  induction 1 as [|n rest t1 t2 r0 H1 _ IH|n rest t out H1]; intros Hin.
  - destruct Hin.
  - apply in_app_or in Hin as [Hin | Hin]; [|now apply IH].
    eapply attempt_events_request; eassumption.
  - eapply attempt_events_request; eassumption.
Qed.

Lemma models_events_request req ms t o rq r :
  models_events req ms t o -> In (EvGenerate rq r) t ->
  Prompt rq = Prompt req /\ Options rq = Options req /\ In (Model rq) ms.
Proof.
  induction 1 as [req|req m rest t1 t2 r0 H1 _ IH|req m rest t out H1]; intros Hin.
  - destruct Hin.
  - apply in_app_or in Hin as [Hin | Hin].
    + apply (attempts_events_request _ _ _ _ _ _ _ H1) in Hin. subst rq.
      cbn. repeat split. now left.
    + destruct (IH Hin) as [Hp [Ho Hm]]. cbn in Hp, Ho. repeat split; try assumption.
      now right.
  - apply (attempts_events_request _ _ _ _ _ _ _ H1) in Hin. subst rq.
    cbn. repeat split. now left.
Qed.

(** The artifacts of a trace, with the number of the attempt. *)
Lemma div3_of (k r : nat) : (r < 3)%nat -> ((3 * k + r) / 3 = k)%nat.
Proof. intros H. symmetry. apply (Nat.div_unique _ 3 k r); [exact H | reflexivity]. Qed.

Lemma mod3_of (k r : nat) : (r < 3)%nat -> ((3 * k + r) mod 3 = r)%nat.
Proof. intros H. symmetry. apply (Nat.mod_unique _ 3 k r); [exact H | reflexivity]. Qed.

Lemma attempt_events_numbered models req m k a t o rest :
  attempt_events req m a t o -> Model req = m ->
  m = nth k models EmptyString -> (1 <= a <= 3)%nat ->
  artifacts_numbered models (S (3 * k + (a - 1))) rest ->
  artifacts_numbered models (3 * k + (a - 1)) (t ++ rest).
Proof.
  intros H Hm Hk Ha Hrest.
  assert (Hd : ((3 * k + (a - 1)) / 3 = k)%nat) by (apply div3_of; lia).
  assert (Hr : ((3 * k + (a - 1)) mod 3 + 1 = a)%nat) by (rewrite mod3_of; lia).
  destruct H; cbn [app artifacts_numbered]; rewrite Hd, ?Hr, Hm.
  - split; [split; [exact Hk | now eexists] | exact Hrest].
  - split; [split; [exact Hk | now do 2 eexists] | exact Hrest].
  - split; [split; [exact Hk | now do 2 eexists] | exact Hrest].
Qed.

Lemma seq_attempts_cons a n rest :
  seq a (4 - a) = n :: rest -> (1 <= a)%nat ->
  n = a /\ (1 <= a <= 3)%nat /\ rest = seq (S a) (4 - S a).
Proof.
  intros E Ha. destruct (4 - a)%nat as [|len] eqn:El; [discriminate|].
  cbn [seq] in E. injection E as <- <-.
  split; [reflexivity|]. split; [lia|]. f_equal. lia.
Qed.

Lemma attempts_events_numbered models req m k ns t o :
  attempts_events req m ns t o -> Model req = m -> m = nth k models EmptyString ->
  forall a rest,
    ns = seq a (4 - a) -> (1 <= a <= 4)%nat ->
    match o with
    | None => artifacts_numbered models (3 * S k) rest
    | Some _ => rest = []
    end ->
    artifacts_numbered models (3 * k + (a - 1)) (t ++ rest).
Proof.
  intros H Hm Hk.
  induction H as [|n ns' t1 t2 r H1 _ IH|n ns' t out H1]; intros a rest Ens Ha Hrest.
  - assert (a = 4)%nat as ->.
    { destruct (4 - a)%nat eqn:El; [lia | discriminate]. }
    cbn [app]. replace (3 * k + (4 - 1))%nat with (3 * S k)%nat by lia. exact Hrest.
  - symmetry in Ens. apply seq_attempts_cons in Ens as [-> [Ha' ->]]; [|lia].
    rewrite <- app_assoc. eapply attempt_events_numbered; try eassumption.
    replace (S (3 * k + (a - 1))) with (3 * k + (S a - 1))%nat by lia.
    apply IH; [reflexivity | lia | exact Hrest].
  - symmetry in Ens. apply seq_attempts_cons in Ens as [-> [Ha' ->]]; [|lia].
    subst rest. eapply attempt_events_numbered; try eassumption. exact I.
Qed.

Lemma models_events_numbered req ms t o :
  models_events req ms t o ->
  forall models k,
    (forall j, (j < List.length ms)%nat ->
       nth j ms EmptyString = nth (k + j) models EmptyString) ->
    artifacts_numbered models (3 * k) t.
Proof.
  induction 1 as [req|req m ms' t1 t2 r H1 _ IH|req m ms' t out H1]; intros models k Hnth.
  - exact I.
  - replace (3 * k)%nat with (3 * k + (1 - 1))%nat by lia.
    eapply attempts_events_numbered; try eassumption; try reflexivity; try lia.
    + specialize (Hnth 0%nat). cbn in Hnth. rewrite Nat.add_0_r in Hnth. apply Hnth. lia.
    + apply IH. intros j Hj. specialize (Hnth (S j)). cbn [nth List.length] in Hnth.
      replace (S k + j)%nat with (k + S j)%nat by lia. apply Hnth. lia.
  - replace (3 * k)%nat with (3 * k + (1 - 1))%nat by lia.
    rewrite <- (app_nil_r t).
    eapply attempts_events_numbered; try eassumption; try reflexivity; try lia.
    specialize (Hnth 0%nat). cbn in Hnth. rewrite Nat.add_0_r in Hnth. apply Hnth. lia.
Qed.

(** The events that follow the call of a given place in such a trace. *)
Lemma artifacts_numbered_at models (t1 t2 : list Event) req r :
  forall i,
    artifacts_numbered models i (t1 ++ EvGenerate req r :: t2) ->
    Model req = nth ((i + generate_calls t1) / 3) models EmptyString /\
    match r with
    | Success raw =>
        exists wr rest,
          t2 = EvWriteFile RawResponse
                 (raw_response_name (Model req) ((i + generate_calls t1) mod 3 + 1))
                 (normalize raw) wr :: rest
    | Failure _ => exists rest, t2 = EvSleep :: rest
    end.
Proof.
  induction t1 as [|ev t1 IH]; intros i H.
  - change (generate_calls []) with 0%nat. rewrite Nat.add_0_r.
    cbn [app artifacts_numbered] in H. exact (proj1 H).
  - cbn [app] in H.
    destruct ev; try exact (IH i H).
    match goal with
    | |- context [generate_calls (?e :: ?l)] =>
        replace (i + generate_calls (e :: l))%nat with (S i + generate_calls l)%nat
          by (unfold generate_calls; cbn [filter is_Generate List.length]; lia)
    end.
    apply IH. cbn [artifacts_numbered] in H. exact (proj2 H).
Qed.

(** The writes of a trace of the loops are writes of artifacts. *)
Lemma models_events_writes req ms t o :
  models_events req ms t o ->
  Forall (fun ev => is_TestsOutput_write ev = false) t /\
  Forall (fun ev => match ev with EvCombinedOutput _ _ _ => False | _ => True end) t.
Proof.
  assert (Hattempt : forall rq m n t' o',
             attempt_events rq m n t' o' ->
             Forall (fun ev => is_TestsOutput_write ev = false) t' /\
             Forall (fun ev => match ev with EvCombinedOutput _ _ _ => False | _ => True end) t').
  { intros rq m n t' o' H. destruct H; split; repeat constructor. }
  assert (Hattempts : forall rq m ns t' o',
             attempts_events rq m ns t' o' ->
             Forall (fun ev => is_TestsOutput_write ev = false) t' /\
             Forall (fun ev => match ev with EvCombinedOutput _ _ _ => False | _ => True end) t').
  { intros rq m ns t' o' H.
    induction H as [|n rest t1 t2 r H1 _ [IHa IHb]|n rest t' out H1].
    - split; constructor.
    - destruct (Hattempt _ _ _ _ _ H1). split; apply Forall_app; now split.
    - eapply Hattempt; eassumption. }
  induction 1 as [req|req m rest t1 t2 r H1 _ [IHa IHb]|req m rest t out H1].
  - split; constructor.
  - destruct (Hattempts _ _ _ _ _ H1). split; apply Forall_app; now split.
  - eapply Hattempts; eassumption.
Qed.

Section GenerationRuns.

Context {World : Type} {host : Host World}.

Lemma attempt_body_events req m n (w : World) :
  exists o w' t, attempt_body req m n w = (Done o, w', t) /\ attempt_events req m n t o.
Proof.
  unfold attempt_body, bind, Generate, Sleep, WriteFile, ret.
  destruct (client_Generate req w) as [[raw|e] w1].
  - destruct (os_WriteFile (raw_response_name m n) (normalize raw) w1) as [wr w2].
    destruct (validate (normalize raw)) as [text|reason] eqn:Hv.
    + pose proof (validate_Accepted_inv _ _ Hv) as ->.
      do 3 eexists. split; [reflexivity|]. now apply attempt_accepted.
    + do 3 eexists. split; [reflexivity|]. now apply attempt_rejected with (reason := reason).
  - do 3 eexists. split; [reflexivity | constructor].
Qed.

Lemma attempts_loop_events req m ns (w : World) :
  exists o w' t, attempts_loop req m ns w = (Done o, w', t) /\ attempts_events req m ns t o.
Proof.
  revert w. induction ns as [|n ns IH]; intros w; cbn [attempts_loop].
  - do 3 eexists. split; [reflexivity | constructor].
  - unfold bind. destruct (attempt_body_events req m n w) as [o [w1 [t1 [E H1]]]].
    rewrite E. destruct o as [out|].
    + do 3 eexists. split; [reflexivity|]. cbn. rewrite app_nil_r.
      now apply attempts_stop.
    + destruct (IH w1) as [o2 [w2 [t2 [E2 H2]]]]. rewrite E2.
      do 3 eexists. split; [reflexivity|]. now apply attempts_next.
Qed.

Lemma models_loop_events req ms (w : World) :
  exists o w' t, models_loop req ms w = (Done o, w', t) /\ models_events req ms t o.
Proof.
  revert req w. induction ms as [|m ms IH]; intros req w; cbn [models_loop].
  - do 3 eexists. split; [reflexivity | constructor].
  - unfold bind.
    destruct (attempts_loop_events (set_Model req m) m (seq 1 3) w) as [o [w1 [t1 [E H1]]]].
    rewrite E. destruct o as [out|].
    + do 3 eexists. split; [reflexivity|]. cbn. rewrite app_nil_r.
      now apply models_stop.
    + destruct (IH (set_Model req m) w1) as [o2 [w2 [t2 [E2 H2]]]]. rewrite E2.
      do 3 eexists. split; [reflexivity|]. now apply models_next.
Qed.

(** A run of [generateUnitTests]: the listing fails and its error is
    returned, or the loops run over the models. *)
Lemma generateUnitTests_events model code (w : World) :
  (exists e w',
      client_List w = (Failure e, w') /\
      generateUnitTests model code w =
        (Done (EmptyString, Some e), w', [EvList (Failure e)])) \/
  (exists listed w1 o w' t,
      client_List w = (Success listed, w1) /\
      models_events (initial_request model code) (available_models model listed) t o /\
      generateUnitTests model code w =
        (Done (match o with
               | Some output => (output, None)
               | None => (EmptyString, Some ErrExhausted)
               end), w', EvList (Success listed) :: t)).
Proof.
  unfold generateUnitTests, bind, List_.
  destruct (client_List w) as [[listed|e] w1].
  - right.
    destruct (models_loop_events (initial_request model code)
                (available_models model listed) w1) as [o [w2 [t [E H]]]].
    rewrite E. exists listed, w1, o, w2, t. split; [reflexivity|]. split; [exact H|].
    destruct o; cbn; now rewrite app_nil_r.
  - left. exists e, w1. split; reflexivity.
Qed.

End GenerationRuns.

(** C5.  With [N] models to try (the requested one and the listed ones
    that differ from it), a run of [generateUnitTests] calls the backend at
    most [3 * N] times.  It returns the exhausted failure only after
    exactly [3 * N] calls, none of which was answered with a text the
    validator accepts.  When it returns a text, the call that was answered
    with it and the write of its artifact end the trace: no call follows
    it, and every answered call before it was rejected. *)
Theorem generation_call_budget {World : Type} {host : Host World}
  (model code : string) (w : World) (listed : list string) :
  fst (client_List w) = Success listed ->
  (generate_calls (trace_of (generateUnitTests model code w))
     <= 3 * List.length (available_models model listed))%nat /\
  (result_of (generateUnitTests model code w) = Done (EmptyString, Some ErrExhausted) ->
     generate_calls (trace_of (generateUnitTests model code w))
       = (3 * List.length (available_models model listed))%nat /\
     all_rejected (trace_of (generateUnitTests model code w))) /\
  (forall output,
     result_of (generateUnitTests model code w) = Done (output, None) ->
     exists t,
       trace_of (generateUnitTests model code w) = EvList (Success listed) :: t /\
       ends_with_accepted t output).
Proof.
  intros Hlist.
  destruct (generateUnitTests_events model code w)
    as [[e [w' [El _]]] | [listed' [w1 [o [w' [t [El [Hev E]]]]]]]];
    rewrite El in Hlist; cbn in Hlist; [discriminate|].
  injection Hlist as ->. rewrite E. unfold result_of, trace_of. cbn [fst snd].
  change (generate_calls (EvList (Success listed) :: t)) with (generate_calls t).
  destruct (models_events_calls _ _ _ _ Hev) as [Hle Heq].
  pose proof (models_events_outcome _ _ _ _ Hev) as Hout.
  split; [exact Hle|]. split.
  - destruct o as [out|]; [discriminate|]. intros _. split; [now apply Heq|].
    intros req raw [Hin | Hin]; [discriminate | now apply (Hout req raw)].
  - intros output Hres. destruct o as [out|]; [|discriminate].
    injection Hres as ->. now exists t.
Qed.

Lemma generation_call_budget_witness :
  (generate_calls (trace_of Scripted.happy_generation) <= 3 * 2)%nat /\
  exists t,
    trace_of Scripted.happy_generation =
      EvList (Success ["qwen2.5-coder:7b"; "llama3"]) :: t /\
    ends_with_accepted t (normalize Scripted.fenced_answer).
Proof.
  destruct (generation_call_budget (host := Scripted.host)
              default_model Scripted.calc_cpp Scripted.happy
              ["qwen2.5-coder:7b"; "llama3"] eq_refl) as [Hle [_ Hacc]].
  split; [exact Hle|]. apply Hacc. vm_compute. reflexivity.
Defined.

(** C6.  Every request a run of [generateUnitTests] sends is the request
    built before the loops with its model field set: the prompt is the one
    built from the code, the options are the two of the source, at every
    attempt and for every model, whatever the earlier answers were. *)
Theorem request_prompt_and_options_fixed {World : Type} {host : Host World}
  (model code : string) (w : World) (req : GenerateRequest) (r : result string) :
  In (EvGenerate req r) (trace_of (generateUnitTests model code w)) ->
  req = set_Model (initial_request model code) (Model req) /\
  Prompt req = build_prompt code /\
  Options req = generate_options /\
  exists listed,
    fst (client_List w) = Success listed /\ In (Model req) (available_models model listed).
Proof.
  intros Hin.
  destruct (generateUnitTests_events model code w)
    as [[e [w' [El E]]] | [listed [w1 [o [w' [t [El [Hev E]]]]]]]];
    rewrite E in Hin; unfold trace_of in Hin; cbn [snd] in Hin.
  - destruct Hin as [Hin | []]. discriminate.
  - destruct Hin as [Hin | Hin]; [discriminate|].
    destruct (models_events_request _ _ _ _ _ _ Hev Hin) as [Hp [Ho Hm]].
    cbn in Hp, Ho. repeat split; try assumption.
    + destruct req as [m p o']. cbn in *. now subst.
    + exists listed. rewrite El. now split.
Qed.

Lemma request_prompt_and_options_fixed_witness :
  Prompt (set_Model (initial_request default_model Scripted.calc_cpp) "qwen2.5-coder:7b")
    = build_prompt Scripted.calc_cpp /\
  Options (set_Model (initial_request default_model Scripted.calc_cpp) "qwen2.5-coder:7b")
    = generate_options.
Proof.
  destruct (request_prompt_and_options_fixed (host := Scripted.host)
              default_model Scripted.calc_cpp Scripted.happy
              (set_Model (initial_request default_model Scripted.calc_cpp) "qwen2.5-coder:7b")
              (Success Scripted.fenced_answer)) as [_ [Hp [Ho _]]].
  - vm_compute. right. right. right. left. reflexivity.
  - now split.
Defined.

(** The defect behind C7, on the example run: the backend answers the
    second call with a fenced text of 525 bytes, and the file
    [raw_response_qwen2.5-coder:7b_attempt_2.txt], written under the
    comment that announces the raw response, holds the 517 bytes that are
    left once lines 122-124 have removed the fences and the white space
    around them.  The raw answer is written nowhere. *)
Lemma artifact_differs_from_raw_answer :
  filter is_Generate (trace_of Scripted.happy_generation) =
    [EvGenerate (set_Model (initial_request default_model Scripted.calc_cpp) default_model)
       (Failure (ErrLibrary "timeout"));
     EvGenerate (set_Model (initial_request default_model Scripted.calc_cpp) default_model)
       (Success Scripted.fenced_answer)] /\
  filter is_RawResponse_write (trace_of Scripted.happy_generation) =
    [EvWriteFile RawResponse "raw_response_qwen2.5-coder:7b_attempt_2.txt"
       (normalize Scripted.fenced_answer) None] /\
  String.length Scripted.fenced_answer = 525%nat /\
  String.length (normalize Scripted.fenced_answer) = 517%nat /\
  normalize Scripted.fenced_answer <> Scripted.fenced_answer /\
  existsb (writes_text Scripted.fenced_answer) (trace_of Scripted.happy_generation) = false.
Proof.
  split; [vm_compute; reflexivity|].
  split; [vm_compute; reflexivity|].
  split; [vm_compute; reflexivity|].
  split; [vm_compute; reflexivity|].
  split; [|vm_compute; reflexivity].
  intros E. apply (f_equal String.length) in E. vm_compute in E. discriminate.
Qed.

(** C7.  What the code does where the claim expects the raw output to be
    kept: in a run of [generateUnitTests], the call number [n] of the run,
    counted from 0, carries the model at the place [n / 3] of the models to
    try.  When it is answered, it is followed at once, before the validator
    is consulted and whatever its verdict, by one write to the file named
    after that model and the attempt [n mod 3 + 1]; the text written is the
    normalized answer (fences and surrounding white space removed), not the
    answer as the backend gave it.  When the call fails, it is followed by
    the pause. *)
Theorem artifact_holds_normalized_answer {World : Type} {host : Host World}
  (model code : string) (w : World)
  (t1 : list Event) (req : GenerateRequest) (r : result string) (t2 : list Event) :
  trace_of (generateUnitTests model code w) = (t1 ++ EvGenerate req r :: t2)%list ->
  exists listed,
    fst (client_List w) = Success listed /\
    Model req = nth (generate_calls t1 / 3) (available_models model listed) EmptyString /\
    match r with
    | Success raw =>
        exists wr rest,
          t2 = EvWriteFile RawResponse
                 (raw_response_name (Model req) (generate_calls t1 mod 3 + 1))
                 (normalize raw) wr :: rest
    | Failure _ => exists rest, t2 = EvSleep :: rest
    end.
Proof.
  intros Htrace.
  destruct (generateUnitTests_events model code w)
    as [[e [w' [El E]]] | [listed [w1 [o [w' [t [El [Hev E]]]]]]]];
    rewrite E in Htrace; unfold trace_of in Htrace; cbn [snd] in Htrace.
  - destruct t1 as [|ev [|ev' t1]]; discriminate.
  - exists listed. split; [now rewrite El|].
    assert (Hn : artifacts_numbered (available_models model listed) 0
                   (EvList (Success listed) :: t)).
    { cbn [artifacts_numbered].
      apply (models_events_numbered _ _ _ _ Hev (available_models model listed) 0).
      intros j _. reflexivity. }
    rewrite Htrace in Hn.
    exact (artifacts_numbered_at _ _ _ _ _ 0 Hn).
Qed.

Lemma artifact_holds_normalized_answer_witness :
  exists listed,
    fst (client_List (Host := Scripted.host) Scripted.happy) = Success listed /\
    Model (set_Model (initial_request default_model Scripted.calc_cpp) default_model) =
      nth (1 / 3) (available_models default_model listed) EmptyString /\
    exists wr rest,
      [EvWriteFile RawResponse "raw_response_qwen2.5-coder:7b_attempt_2.txt"
         (normalize Scripted.fenced_answer) None] =
      EvWriteFile RawResponse
        (raw_response_name
           (Model (set_Model (initial_request default_model Scripted.calc_cpp) default_model))
           (1 mod 3 + 1))
        (normalize Scripted.fenced_answer) wr :: rest.
Proof.
  apply (artifact_holds_normalized_answer (host := Scripted.host)
           default_model Scripted.calc_cpp Scripted.happy
           [EvList (Success ["qwen2.5-coder:7b"; "llama3"]);
            EvGenerate (set_Model (initial_request default_model Scripted.calc_cpp) default_model)
              (Failure (ErrLibrary "timeout"));
            EvSleep]
           (set_Model (initial_request default_model Scripted.calc_cpp) default_model)
           (Success Scripted.fenced_answer)).
  vm_compute. reflexivity.
Defined.

(** ** Rounding never yields NaN *)

Lemma shr_1_nonneg (mrs : shr_record) :
  (0 <= shr_m mrs)%Z -> (0 <= shr_m (shr_1 mrs))%Z.
Proof.
  destruct mrs as [m r s]. cbn [shr_m]. intros Hm.
  destruct m as [|p|p]; [cbn; lia | destruct p; cbn; lia | lia].
Qed.

Lemma iter_pos_shr_1_nonneg (p : positive) (mrs : shr_record) :
  (0 <= shr_m mrs)%Z -> (0 <= shr_m (iter_pos shr_1 p mrs))%Z.
Proof.
  revert mrs. induction p as [p IH|p IH|]; intros mrs Hm; cbn [iter_pos].
  - apply IH, IH. now apply shr_1_nonneg.
  - now apply IH, IH.
  - now apply shr_1_nonneg.
Qed.

Lemma shr_fexp_nonneg (pr em m e : Z) (l : location) :
  (0 <= m)%Z -> (0 <= shr_m (fst (shr_fexp pr em m e l)))%Z.
Proof.
  intros Hm. unfold shr_fexp, shr.
  assert (H0 : (0 <= shr_m (shr_record_of_loc m l))%Z).
  { destruct l as [|[ | | ]]; exact Hm. }
  destruct (fexp pr em (Zdigits2 m + e) - e)%Z; cbn [fst]; try exact H0.
  now apply iter_pos_shr_1_nonneg.
Qed.

Lemma round_nearest_even_nonneg (m : Z) (l : location) :
  (0 <= m)%Z -> (0 <= round_nearest_even m l)%Z.
Proof.
  intros Hm. destruct l as [|[ | | ]]; cbn; try lia.
  destruct (Z.even m); lia.
Qed.

Lemma binary_round_aux_not_nan (pr em : Z) (sx : bool) (mx ex : Z) (lx : location) :
  (0 <= mx)%Z -> binary_round_aux pr em sx mx ex lx <> S754_nan.
Proof.
  intros Hm. unfold binary_round_aux.
  pose proof (shr_fexp_nonneg pr em mx ex lx Hm) as H1.
  destruct (shr_fexp pr em mx ex lx) as [mrs' e']. cbn [fst] in H1.
  pose proof (shr_fexp_nonneg pr em _ e' loc_Exact
                (round_nearest_even_nonneg _ (loc_of_shr_record mrs') H1)) as H2.
  destruct (shr_fexp pr em (round_nearest_even (shr_m mrs') (loc_of_shr_record mrs')) e' loc_Exact)
    as [mrs'' e'']. cbn [fst] in H2.
  destruct (shr_m mrs'') as [|m|m]; [discriminate | | lia].
  destruct (e'' <=? em - pr)%Z; discriminate.
Qed.

Lemma SFdiv_finite_not_nan (pr em : Z) (mx my : positive) (ex ey : Z) :
  SFdiv pr em (S754_finite false mx ex) (S754_finite false my ey) <> S754_nan.
Proof.
  cbn [SFdiv]. unfold SFdiv_core_binary.
  set (e' := Z.min _ _). set (m' := match (ex - ey - e')%Z with Z0 => _ | Zpos _ => _ | Zneg _ => _ end).
  assert (Hm' : (0 <= m')%Z).
  { subst m'. destruct (ex - ey - e')%Z; try lia. apply Z.shiftl_nonneg. lia. }
  pose proof (Z.div_eucl_eq m' (Zpos my)) as Hdiv.
  pose proof (Z.mod_pos_bound m' (Zpos my)) as Hmod.
  unfold Z.modulo in Hmod.
  destruct (Z.div_eucl m' (Z.pos my)) as [q r].
  apply binary_round_aux_not_nan.
  specialize (Hdiv ltac:(lia)). specialize (Hmod ltac:(lia)). nia.
Qed.

Lemma round_decimal_not_nan (m : Z) (k : nat) : strconv.round_decimal m k <> S754_nan.
Proof.
  unfold strconv.round_decimal. destruct m; try discriminate.
  apply SFdiv_finite_not_nan.
Qed.

(** A parsed value is a number. *)
Lemma ParseFloat_finite (s : string) (x : float64) :
  strconv.ParseFloat s = (x, None) -> x <> S754_nan /\ forall sg, x <> S754_infinity sg.
Proof.
  unfold strconv.ParseFloat. destruct (strconv.readFloat s false false 0 0) as [[m k]|]; [|discriminate].
  pose proof (round_decimal_not_nan m k) as Hn.
  destruct (strconv.round_decimal m k); intros [= <-]; split; try discriminate; try exact Hn.
Qed.

(** For a parsed value, not below 80 is at least 80. *)
Lemma parsed_not_below_is_at_least (s : string) (x : float64) :
  strconv.ParseFloat s = (x, None) -> f64_lt x f64_80 = false -> f64_ge x f64_80.
Proof.
  intros Hp Hlt. apply ParseFloat_finite in Hp as [Hn _].
  unfold f64_lt, SFltb in Hlt. unfold f64_ge.
  destruct x as [sg|sg| |sg m e]; try contradiction.
  - destruct sg; cbn in Hlt; discriminate.
  - destruct sg; cbn in *; [discriminate | now right].
  - unfold f64_80 in *. cbn [SFcompare] in *.
    match goal with |- Some ?c = _ \/ _ => destruct c end;
      [now left | discriminate | now right].
Qed.

(** ** The sandbox and the loop body of [main] *)

Section PipelineRuns.

Context {World : Type} {host : Host World}.

Lemma generateUnitTests_generation model code (w : World) :
  exists res w' t,
    generateUnitTests model code w = (Done res, w', t) /\
    generation_events model code t res.
Proof.
  destruct (generateUnitTests_events model code w)
    as [[e [w' [_ E]]] | [listed [w1 [o [w' [t [_ [Hev E]]]]]]]]; rewrite E.
  - do 3 eexists. split; [reflexivity | constructor].
  - do 3 eexists. split; [reflexivity | now constructor].
Qed.

Lemma compile_run_measure_events d tt ts b (w : World) :
  exists res w' t,
    compile_run_measure d tt ts b w = (Done res, w', t) /\ measured d tt ts b t res.
Proof.
  unfold compile_run_measure, bind, CombinedOutput, ret.
  destruct (exec_CombinedOutput (compileCmd d tt ts) w) as [[cout [err|]] w1]; cbn.
  { do 3 eexists. split; [reflexivity | constructor]. }
  destruct (exec_CombinedOutput (runCmd d) w1) as [[rout [err|]] w2]; cbn.
  { do 3 eexists. split; [reflexivity | constructor]. }
  destruct (exec_CombinedOutput (gcovCmd d b) w2) as [[gout [err|]] w3]; cbn.
  { do 3 eexists. split; [reflexivity | constructor]. }
  do 3 eexists. split; [reflexivity | constructor].
Qed.

Lemma copyFile_events src dst (w : World) :
  exists r w' t,
    copyFile src dst w = (Done r, w', t) /\ Forall (fun ev => is_setup ev = true) t.
Proof.
  unfold copyFile, bind, ReadFile, WriteFile, ret.
  destruct (os_ReadFile src w) as [[data|err] w1]; cbn.
  - destruct (os_WriteFile dst data w1) as [wr w2].
    do 3 eexists. split; [reflexivity | repeat constructor].
  - do 3 eexists. split; [reflexivity | repeat constructor].
Qed.

Lemma sandboxed_after_setup b d (t t1 t2 : list Event) res :
  t = (t1 ++ t2)%list ->
  Forall (fun ev => is_setup ev = true) t1 ->
  measured d (filepath.Join [d; "test.cpp"]) (filepath.Join [d; b]) b t2 res ->
  sandboxed b d t res.
Proof. intros -> H1 H2. now apply sandboxed_measured. Qed.

Lemma run_in_sandbox_events testFile sourceFile b d (w : World) :
  exists res w' t,
    run_in_sandbox testFile sourceFile b d w = (Done res, w', t) /\ sandboxed b d t res.
Proof.
  unfold run_in_sandbox, bind. unfold WriteFile at 1.
  destruct (os_WriteFile (filepath.Join [d; "test.cpp"]) testFile w) as [[err|] w1]; cbn [ret].
  { do 3 eexists. split; [reflexivity|].
    apply sandboxed_setup_failed; [repeat constructor | reflexivity]. }
  destruct (copyFile_events sourceFile (filepath.Join [d; b]) w1) as [r [w2 [t2 [E2 H2]]]].
  rewrite E2. destruct r as [err|].
  { do 3 eexists. split; [reflexivity|].
    apply sandboxed_setup_failed; [|reflexivity].
    rewrite app_nil_r. constructor; [reflexivity | exact H2]. }
  destruct (strings.HasSuffix sourceFile ".cpp").
  - unfold Stat.
    destruct (os_Stat (strings.Replace1 sourceFile ".cpp" ".h") w2) as [[serr|] w3].
    + destruct (compile_run_measure_events d (filepath.Join [d; "test.cpp"])
                  (filepath.Join [d; b]) b w3) as [res [w6 [t6 [E6 H6]]]].
      rewrite E6. do 3 eexists. split; [reflexivity|].
      apply (sandboxed_after_setup b d _
               (EvWriteFile SandboxTest (filepath.Join [d; "test.cpp"]) testFile None
                  :: t2 ++ [EvStat (strings.Replace1 sourceFile ".cpp" ".h") (Some serr)])
               t6 res); [cbn [app]; now rewrite <- ?app_assoc | | exact H6].
      constructor; [reflexivity|]. apply Forall_app. split; [exact H2 | repeat constructor].
    + destruct (copyFile_events (strings.Replace1 sourceFile ".cpp" ".h")
                  (filepath.Join [d; filepath.Base (strings.Replace1 sourceFile ".cpp" ".h")]) w3)
        as [r5 [w5 [t5 [E5 H5]]]].
      rewrite E5. destruct r5 as [err|].
      * do 3 eexists. split; [reflexivity|].
        apply sandboxed_setup_failed; [|reflexivity].
        cbn [ret]. rewrite !app_nil_r. constructor; [reflexivity|].
        apply Forall_app. split; [exact H2|]. constructor; [reflexivity | exact H5].
      * destruct (compile_run_measure_events d (filepath.Join [d; "test.cpp"])
                    (filepath.Join [d; b]) b w5) as [res [w6 [t6 [E6 H6]]]].
        rewrite E6. do 3 eexists. split; [reflexivity|].
        apply (sandboxed_after_setup b d _
                 (EvWriteFile SandboxTest (filepath.Join [d; "test.cpp"]) testFile None
                    :: t2 ++ EvStat (strings.Replace1 sourceFile ".cpp" ".h") None :: t5)
                 t6 res); [cbn [app]; now rewrite <- ?app_assoc | | exact H6].
        constructor; [reflexivity|]. apply Forall_app. split; [exact H2|].
        constructor; [reflexivity | exact H5].
  - destruct (compile_run_measure_events d (filepath.Join [d; "test.cpp"])
                (filepath.Join [d; b]) b w2) as [res [w6 [t6 [E6 H6]]]].
    rewrite E6. do 3 eexists. split; [reflexivity|].
    apply (sandboxed_after_setup b d _
             (EvWriteFile SandboxTest (filepath.Join [d; "test.cpp"]) testFile None :: t2)
             t6 res); [reflexivity | | exact H6].
    constructor; [reflexivity | exact H2].
Qed.

End PipelineRuns.

(** ** The files of the sandbox *)

Section SandboxFiles.

Context {World : Type} {host : Host World}.

Lemma copyFile_copy_events src dst (w : World) :
  exists r w' t, copyFile src dst w = (Done r, w', t) /\ copy_events src dst t r.
Proof.
  unfold copyFile, bind, ReadFile, WriteFile, ret.
  destruct (os_ReadFile src w) as [[data|err] w1]; cbn.
  - destruct (os_WriteFile dst data w1) as [wr w2].
    do 3 eexists. split; [reflexivity | constructor].
  - do 3 eexists. split; [reflexivity | constructor].
Qed.

Lemma run_in_sandbox_setup testFile sourceFile b d (w : World) :
  exists res w' t ts oe,
    run_in_sandbox testFile sourceFile b d w = (Done res, w', t) /\
    setup_events testFile sourceFile b d ts oe /\
    match oe with
    | Some err => t = ts /\ res = (false, f64_0, Some err)
    | None =>
        exists tm,
          t = (ts ++ tm)%list /\
          measured d (filepath.Join [d; "test.cpp"]) (filepath.Join [d; b]) b tm res
    end.
Proof.
  unfold run_in_sandbox, bind. unfold WriteFile at 1.
  destruct (os_WriteFile (filepath.Join [d; "test.cpp"]) testFile w) as [[err|] w1]; cbn [ret].
  { do 3 eexists. eexists _, (Some (ErrWriteTestFile err)).
    split; [reflexivity|]. split; [constructor | now split]. }
  destruct (copyFile_copy_events sourceFile (filepath.Join [d; b]) w1) as [r [w2 [t2 [E2 H2]]]].
  rewrite E2. destruct r as [err|].
  { do 3 eexists. eexists _, (Some (ErrCopySource err)).
    split; [reflexivity|]. split; [eapply setup_source_uncopied; eassumption|].
    split; [now rewrite app_nil_r | reflexivity]. }
  destruct (strings.HasSuffix sourceFile ".cpp") eqn:Hsuffix.
  - unfold Stat.
    destruct (os_Stat (strings.Replace1 sourceFile ".cpp" ".h") w2) as [[serr|] w3].
    + destruct (compile_run_measure_events d (filepath.Join [d; "test.cpp"])
                  (filepath.Join [d; b]) b w3) as [res [w6 [t6 [E6 H6]]]].
      rewrite E6. do 3 eexists. eexists _, None.
      split; [reflexivity|]. split; [eapply setup_header_not_found with (serr := serr); eassumption|].
      exists t6. split; [cbn [app]; now rewrite <- ?app_assoc | exact H6].
    + destruct (copyFile_copy_events (strings.Replace1 sourceFile ".cpp" ".h")
                  (filepath.Join [d; filepath.Base (strings.Replace1 sourceFile ".cpp" ".h")]) w3)
        as [r5 [w5 [t5 [E5 H5]]]].
      rewrite E5. destruct r5 as [err|].
      * do 3 eexists. eexists _, (Some (ErrCopyHeader err)).
        split; [reflexivity|]. split; [eapply setup_header_uncopied; eassumption|].
        split; [cbn [ret app]; now rewrite !app_nil_r | reflexivity].
      * destruct (compile_run_measure_events d (filepath.Join [d; "test.cpp"])
                    (filepath.Join [d; b]) b w5) as [res [w6 [t6 [E6 H6]]]].
        rewrite E6. do 3 eexists. eexists _, None.
        split; [reflexivity|]. split; [eapply setup_with_header; eassumption|].
        exists t6. split; [cbn [app]; now rewrite <- ?app_assoc | exact H6].
  - destruct (compile_run_measure_events d (filepath.Join [d; "test.cpp"])
                (filepath.Join [d; b]) b w2) as [res [w6 [t6 [E6 H6]]]].
    rewrite E6. do 3 eexists. eexists _, None.
    split; [reflexivity|]. split; [eapply setup_without_header; eassumption|].
    exists t6. split; [reflexivity | exact H6].
Qed.

End SandboxFiles.

Lemma copy_events_write src dst t r site name data wr :
  copy_events src dst t r ->
  In (EvWriteFile site name data wr) t ->
  site = SandboxCopy /\ name = dst /\ wr = r /\ In (EvReadFile src (Success data)) t.
Proof.
  intros H Hin. destruct H as [e|data0 wr0]; cbn in Hin.
  - destruct Hin as [E | []]. discriminate.
  - destruct Hin as [E | [E | []]]; [discriminate|].
    injection E as <- <- <- <-. repeat split. now left.
Qed.

Lemma copy_events_done src dst t :
  copy_events src dst t None ->
  exists data, t = [EvReadFile src (Success data); EvWriteFile SandboxCopy dst data None].
Proof. intros H. inversion H; subst. now eexists. Qed.

Lemma copy_events_no_command src dst t r :
  copy_events src dst t r -> Forall (fun ev => is_setup ev = true) t.
Proof. intros H. destruct H; repeat constructor. Qed.

(** The writes of the events of lines 210-230. *)
Lemma setup_events_write tf sf b d ts oe site name data wr :
  setup_events tf sf b d ts oe ->
  In (EvWriteFile site name data wr) ts ->
  (site = SandboxTest /\ name = filepath.Join [d; "test.cpp"] /\ data = tf) \/
  (site = SandboxCopy /\
   exists src,
     In (EvReadFile src (Success data)) ts /\
     ((src = sf /\ name = filepath.Join [d; b]) \/
      (strings.HasSuffix sf ".cpp" = true /\
       src = strings.Replace1 sf ".cpp" ".h" /\
       name = filepath.Join [d; filepath.Base src] /\
       In (EvStat src None) ts))).
Proof.
  intros H Hin.
  assert (Hsource : forall tc r,
             copy_events sf (filepath.Join [d; b]) tc r ->
             In (EvWriteFile site name data wr) tc ->
             site = SandboxCopy /\
             exists src, In (EvReadFile src (Success data)) tc /\
                         src = sf /\ name = filepath.Join [d; b]).
  { intros tc r Hc Hi. destruct (copy_events_write _ _ _ _ _ _ _ _ Hc Hi) as [-> [-> [_ Hr]]].
    split; [reflexivity|]. now exists sf. }
  assert (Hheader : forall th r,
             copy_events (strings.Replace1 sf ".cpp" ".h")
               (filepath.Join [d; filepath.Base (strings.Replace1 sf ".cpp" ".h")]) th r ->
             In (EvWriteFile site name data wr) th ->
             site = SandboxCopy /\
             In (EvReadFile (strings.Replace1 sf ".cpp" ".h") (Success data)) th /\
             name = filepath.Join [d; filepath.Base (strings.Replace1 sf ".cpp" ".h")]).
  { intros th r Hc Hi. destruct (copy_events_write _ _ _ _ _ _ _ _ Hc Hi) as [-> [-> [_ Hr]]].
    now repeat split. }
  destruct H as [e|tc e Hc|tc Hc Hs|tc serr Hc Hs|tc th e Hc Hs Hh|tc th Hc Hs Hh].
  - destruct Hin as [E | []]. injection E as <- <- <- _. now left.
  - destruct Hin as [E | Hin]; [injection E as <- <- <- _; now left|].
    destruct (Hsource _ _ Hc Hin) as [-> [src [Hr [-> ->]]]].
    right. split; [reflexivity|]. exists sf. split; [now right | now left].
  - destruct Hin as [E | Hin]; [injection E as <- <- <- _; now left|].
    destruct (Hsource _ _ Hc Hin) as [-> [src [Hr [-> ->]]]].
    right. split; [reflexivity|]. exists sf. split; [now right | now left].
  - destruct Hin as [E | Hin]; [injection E as <- <- <- _; now left|].
    apply in_app_or in Hin as [Hin | [E | []]]; [|discriminate].
    destruct (Hsource _ _ Hc Hin) as [-> [src [Hr [-> ->]]]].
    right. split; [reflexivity|]. exists sf.
    split; [right; apply in_or_app; now left | now left].
  - destruct Hin as [E | Hin]; [injection E as <- <- <- _; now left|].
    apply in_app_or in Hin as [Hin | [E | Hin]]; [|discriminate|].
    + destruct (Hsource _ _ Hc Hin) as [-> [src [Hr [-> ->]]]].
      right. split; [reflexivity|]. exists sf.
      split; [right; apply in_or_app; now left | now left].
    + destruct (Hheader _ _ Hh Hin) as [-> [Hr ->]].
      right. split; [reflexivity|]. exists (strings.Replace1 sf ".cpp" ".h").
      split; [right; apply in_or_app; right; now right|].
      right. repeat split; [exact Hs|]. right. apply in_or_app. right. now left.
  - destruct Hin as [E | Hin]; [injection E as <- <- <- _; now left|].
    apply in_app_or in Hin as [Hin | [E | Hin]]; [|discriminate|].
    + destruct (Hsource _ _ Hc Hin) as [-> [src [Hr [-> ->]]]].
      right. split; [reflexivity|]. exists sf.
      split; [right; apply in_or_app; now left | now left].
    + destruct (Hheader _ _ Hh Hin) as [-> [Hr ->]].
      right. split; [reflexivity|]. exists (strings.Replace1 sf ".cpp" ".h").
      split; [right; apply in_or_app; right; now right|].
      right. repeat split; [exact Hs|]. right. apply in_or_app. right. now left.
Qed.

(** When the events of lines 210-230 end without an error, the tests
    and a copy of the source are in the temporary directory. *)
Lemma setup_events_done tf sf b d ts :
  setup_events tf sf b d ts None ->
  In (EvWriteFile SandboxTest (filepath.Join [d; "test.cpp"]) tf None) ts /\
  exists data,
    In (EvReadFile sf (Success data)) ts /\
    In (EvWriteFile SandboxCopy (filepath.Join [d; b]) data None) ts.
Proof.
  intros H.
  inversion H as [| |tc Hc Hs|tc serr Hc Hs| |tc th Hc Hs Hh]; subst;
    (split; [now left|]);
    destruct (copy_events_done _ _ _ Hc) as [data ->]; exists data.
  - split; [right; now left | right; right; now left].
  - split; [right; now left | right; right; now left].
  - split; [right; now left | right; right; now left].
Qed.

Lemma setup_events_no_command tf sf b d ts oe :
  setup_events tf sf b d ts oe -> Forall (fun ev => is_setup ev = true) ts.
Proof.
  intros H.
  destruct H as [e|tc e Hc|tc Hc Hs|tc serr Hc Hs|tc th e Hc Hs Hh|tc th Hc Hs Hh];
    try (constructor; [reflexivity|]);
    try (apply copy_events_no_command in Hc);
    try (apply copy_events_no_command in Hh).
  - constructor.
  - exact Hc.
  - exact Hc.
  - apply Forall_app. split; [exact Hc | repeat constructor].
  - apply Forall_app. split; [exact Hc | constructor; [reflexivity | exact Hh]].
  - apply Forall_app. split; [exact Hc | constructor; [reflexivity | exact Hh]].
Qed.

Lemma measured_commands d tt ts b t res :
  measured d tt ts b t res -> Forall (fun ev => is_command ev = true) t.
Proof. intros H. destruct H; repeat constructor. Qed.

Section SandboxRuns.

Context {World : Type} {host : Host World}.

(** A run of [runTestsAndCoverage] once the directory is created: the
    events of the setup, then those of the stages when the setup ended
    without an error, then the removal. *)
Lemma runTestsAndCoverage_setup testFile sourceFile (w : World) :
  (exists err,
      trace_of (runTestsAndCoverage testFile sourceFile w) = [EvMkdirTemp (Failure err)]) \/
  (exists d ts oe tm res,
      trace_of (runTestsAndCoverage testFile sourceFile w)
        = (EvMkdirTemp (Success d) :: ts ++ tm ++ [EvRemoveAll d])%list /\
      result_of (runTestsAndCoverage testFile sourceFile w) = Done res /\
      setup_events testFile sourceFile (filepath.Base sourceFile) d ts oe /\
      match oe with
      | Some err => tm = [] /\ res = (false, f64_0, Some err)
      | None =>
          measured d (filepath.Join [d; "test.cpp"])
            (filepath.Join [d; filepath.Base sourceFile]) (filepath.Base sourceFile) tm res
      end).
Proof.
  unfold runTestsAndCoverage, bind, MkdirTemp.
  destruct (os_MkdirTemp w) as [[d|err] w1]; cbn [ret].
  - right.
    destruct (run_in_sandbox_setup testFile sourceFile (filepath.Base sourceFile) d w1)
      as [res [w2 [t [ts [oe [E [Hs Ht]]]]]]].
    rewrite E. unfold RemoveAll, trace_of, result_of. cbn [fst snd app].
    destruct oe as [err|].
    + destruct Ht as [-> ->]. exists d, ts, (Some err), [], (false, f64_0, Some err).
      repeat split; try assumption.
    + destruct Ht as [tm [-> Hm]]. exists d, ts, None, tm, res.
      split; [now rewrite <- app_assoc|]. now repeat split.
  - left. now exists err.
Qed.

End SandboxRuns.

Lemma setup_events_error tf sf b d ts err :
  setup_events tf sf b d ts (Some err) -> is_setup_error err = true.
Proof. intros H. inversion H; reflexivity. Qed.

(** The run with its files is a run. *)
Lemma sandbox_run_coarse tf sf t res :
  sandbox_run tf sf t res -> coverage_run sf t res.
Proof.
  intros H. destruct H as [err|d ts err Hs|d ts tm res Hs Hm].
  - constructor.
  - apply coverage_run_sandboxed. apply sandboxed_setup_failed.
    + eapply setup_events_no_command; eassumption.
    + eapply setup_events_error; eassumption.
  - rewrite app_assoc. apply coverage_run_sandboxed. apply sandboxed_measured; [|exact Hm].
    eapply setup_events_no_command; eassumption.
Qed.

Lemma pairing_events_Stat filePath t skip :
  pairing_events filePath t skip -> Forall (fun ev => is_Stat ev = true) t.
Proof. intros H. destruct H; repeat constructor. Qed.

Section UnitRuns.

Context {World : Type} {host : Host World}.

Lemma runTestsAndCoverage_events testFile sourceFile (w : World) :
  exists res w' t,
    runTestsAndCoverage testFile sourceFile w = (Done res, w', t) /\
    coverage_run sourceFile t res.
Proof.
  unfold runTestsAndCoverage, bind, MkdirTemp.
  destruct (os_MkdirTemp w) as [[d|err] w1]; cbn [ret].
  - destruct (run_in_sandbox_events testFile sourceFile (filepath.Base sourceFile) d w1)
      as [res [w2 [t2 [E2 H2]]]].
    rewrite E2. unfold RemoveAll. do 3 eexists. split; [reflexivity|].
    cbn [app]. now apply coverage_run_sandboxed.
  - do 3 eexists. split; [reflexivity | constructor].
Qed.

Lemma runTestsAndCoverage_sandbox_run testFile sourceFile (w : World) :
  exists res w' t,
    runTestsAndCoverage testFile sourceFile w = (Done res, w', t) /\
    sandbox_run testFile sourceFile t res.
Proof.
  unfold runTestsAndCoverage, bind, MkdirTemp.
  destruct (os_MkdirTemp w) as [[d|err] w1]; cbn [ret].
  - destruct (run_in_sandbox_setup testFile sourceFile (filepath.Base sourceFile) d w1)
      as [res [w2 [t [ts [oe [E [Hs Ht]]]]]]].
    rewrite E. unfold RemoveAll. do 3 eexists. split; [reflexivity|].
    cbn [app]. destruct oe as [err|].
    + destruct Ht as [-> ->]. now apply sandbox_run_setup_failed.
    + destruct Ht as [tm [-> Hm]]. rewrite <- app_assoc. now apply sandbox_run_measured.
  - do 3 eexists. split; [reflexivity | constructor].
Qed.

Lemma pairing_check_events filePath (w : World) :
  exists skip w' t,
    pairing_check filePath w = (Done skip, w', t) /\
    pairing_events filePath t skip.
Proof.
  unfold pairing_check, bind, Stat, ret.
  destruct (strings.HasSuffix filePath ".h") eqn:Hh.
  - destruct (os_Stat (strings.Replace1 filePath ".h" ".cpp") w) as [st w1].
    do 3 eexists. split; [reflexivity|]. cbn [app]. now apply pairing_header.
  - destruct (strings.HasSuffix filePath ".cpp") eqn:Hc.
    + destruct (os_Stat (strings.Replace1 filePath ".cpp" ".h") w) as [st w1].
      do 3 eexists. split; [reflexivity|]. cbn [app]. now apply pairing_source.
    + do 3 eexists. split; [reflexivity|]. now apply pairing_other.
Qed.

(** One turn of the loop of [main] ends, whatever happens in it, and
    takes one of the exits of [unit_events]. *)
Lemma process_unit_events filePath content (w : World) :
  exists outcome w' t,
    process_unit filePath content w = (Done outcome, w', t) /\
    unit_events filePath content t outcome.
Proof.
  unfold process_unit, bind.
  destruct (pairing_check_events filePath w) as [skip [w1 [tp [Ep Hp]]]].
  rewrite Ep. destruct skip; cbn [ret].
  { do 3 eexists. split; [reflexivity|]. rewrite app_nil_r. now apply unit_skipped. }
  destruct (generateUnitTests_generation default_model content w1)
    as [[tests gerr] [w2 [tg [Eg Hg]]]].
  rewrite Eg. destruct gerr as [err|].
  { do 3 eexists. split; [reflexivity|]. rewrite app_nil_r.
    now apply unit_generation_failed with (output := tests). }
  destruct (runTestsAndCoverage_sandbox_run tests (source_file_of filePath) w2)
    as [[[passed coverage] cerr] [w3 [tc [Ec Hc]]]].
  rewrite Ec. destruct cerr as [err|].
  { exists (TestValidationFailed err), w3, (tp ++ tg ++ tc)%list.
    split; [destruct passed; cbn [ret]; now rewrite app_nil_r|].
    now apply unit_validation_failed with (tests := tests) (passed := passed) (coverage := coverage). }
  destruct passed.
  - unfold WriteFile.
    destruct (os_WriteFile (test_file_of filePath) tests w3) as [wr w4].
    exists (match wr with
            | Some err => WriteFailed (test_file_of filePath) err
            | None => Saved (test_file_of filePath) coverage
            end), w4,
      (tp ++ tg ++ tc ++ [EvWriteFile TestsOutput (test_file_of filePath) tests wr])%list.
    split; [destruct wr; cbn; now rewrite ?app_nil_r|].
    now apply unit_written.
  - do 3 eexists. split; [reflexivity|]. rewrite app_nil_r.
    now apply unit_not_passed with (tests := tests) (coverage := coverage).
Qed.

(** The loop gives every unit of the list to [process_unit], in the
    world the turn before it left. *)
Lemma process_units_run files (w : World) :
  exists outcomes w' t,
    process_units files w = (Done outcomes, w', t) /\
    units_run files w outcomes w' t /\
    units_events files t outcomes.
Proof.
  revert w. induction files as [|[filePath content] rest IH]; intros w; cbn [process_units].
  - do 3 eexists. split; [reflexivity|]. split; constructor.
  - unfold bind.
    destruct (process_unit_events filePath content w) as [o [w1 [t1 [E1 H1]]]].
    rewrite E1. destruct (IH w1) as [os [w2 [t2 [E2 [R2 H2]]]]]. rewrite E2.
    do 3 eexists. split; [reflexivity|]. cbn [ret]. rewrite app_nil_r. split.
    + eapply units_run_cons; eassumption.
    + now apply units_next.
Qed.

Lemma units_run_events files (w : World) outcomes w' t :
  units_run files w outcomes w' t -> units_events files t outcomes.
Proof.
  induction 1 as [|filePath content rest w o w1 t1 os w2 t2 E _ IH]; [constructor|].
  apply units_next; [|exact IH].
  destruct (process_unit_events filePath content w) as [o' [w1' [t1' [E' H']]]].
  rewrite E in E'. injection E' as <- <- <-. exact H'.
Qed.

Lemma units_run_app_inv files1 files2 (w : World) outcomes w' t :
  units_run (files1 ++ files2) w outcomes w' t ->
  exists wm t1 t2 os1 os2,
    t = (t1 ++ t2)%list /\ outcomes = (os1 ++ os2)%list /\
    units_run files1 w os1 wm t1 /\ units_run files2 wm os2 w' t2.
Proof.
  revert w t outcomes. induction files1 as [|[p c] files1 IH]; intros w t outcomes H.
  - exists w, [], t, [], outcomes. repeat split; [constructor | exact H].
  - cbn [app] in H. inversion H as [|p' c' rest w0 o w1 ta os w2 tb E Hrest]; subst.
    destruct (IH _ _ _ Hrest) as [wm [t1 [t2 [os1 [os2 [-> [-> [H1 H2]]]]]]]].
    exists wm, (ta ++ t1)%list, t2, (o :: os1), os2.
    repeat split; [now rewrite app_assoc | | exact H2].
    eapply units_run_cons; eassumption.
Qed.

End UnitRuns.

(** ** What the traces of the sandbox tell *)

Lemma coverage_gate_passed (gout : string) (passed : bool) (coverage : float64) :
  coverage_gate gout = (passed, coverage, None) ->
  passed = true /\
  exists whole percentage rest,
    FindStringSubmatch_coverage gout = Some (whole :: percentage :: rest) /\
    strconv.ParseFloat percentage = (coverage, None) /\
    f64_lt coverage f64_80 = false.
Proof.
  unfold coverage_gate.
  destruct (FindStringSubmatch_coverage gout) as [[|whole [|percentage rest]]|];
    try discriminate.
  destruct (strconv.ParseFloat percentage) as [c [e|]] eqn:Hp; [discriminate|].
  destruct (f64_lt c f64_80) eqn:Hlt; [discriminate|].
  intros [= <- <-]. split; [reflexivity|]. now exists whole, percentage, rest.
Qed.

(** The gate fails with the flag set when the report lacks the pattern. *)
Lemma coverage_gate_no_match (gout : string) :
  FindStringSubmatch_coverage gout = None ->
  coverage_gate gout = (true, f64_0, Some (ErrParseGcov gout)).
Proof. intros H. unfold coverage_gate. now rewrite H. Qed.

Lemma compileCmd_not_gcovCmd d tt ts d' b' : compileCmd d tt ts <> gcovCmd d' b'.
Proof. intros E. apply (f_equal Name) in E. discriminate. Qed.

Lemma runCmd_not_gcovCmd d d' b' : runCmd d <> gcovCmd d' b'.
Proof. intros E. apply (f_equal Args) in E. discriminate. Qed.

Lemma EvCombinedOutput_inj cmd out r cmd' out' r' :
  EvCombinedOutput cmd out r = EvCombinedOutput cmd' out' r' ->
  cmd = cmd' /\ out = out' /\ r = r'.
Proof. intros H. injection H as -> -> ->. now repeat split. Qed.

Lemma setup_not_command (t : list Event) cmd out r :
  Forall (fun ev => is_setup ev = true) t -> ~ In (EvCombinedOutput cmd out r) t.
Proof.
  intros H Hin. rewrite Forall_forall in H. apply H in Hin. discriminate.
Qed.

Lemma setup_not_TestsOutput (t : list Event) :
  Forall (fun ev => is_setup ev = true) t ->
  Forall (fun ev => is_TestsOutput_write ev = false) t.
Proof.
  apply Forall_impl. intros ev. destruct ev; try discriminate; try reflexivity.
  destruct site; try discriminate; reflexivity.
Qed.

Lemma measured_not_TestsOutput d tt ts b t res :
  measured d tt ts b t res -> Forall (fun ev => is_TestsOutput_write ev = false) t.
Proof. intros H. destruct H; repeat constructor. Qed.

Lemma coverage_run_not_TestsOutput sourceFile t res :
  coverage_run sourceFile t res -> Forall (fun ev => is_TestsOutput_write ev = false) t.
Proof.
  intros H. destruct H as [err|d t res Hs]; [repeat constructor|].
  constructor; [reflexivity|]. apply Forall_app. split; [|repeat constructor].
  destruct Hs as [t err Hs _|t1 t2 res Hs Hm].
  - now apply setup_not_TestsOutput.
  - apply Forall_app. split; [now apply setup_not_TestsOutput|].
    eapply measured_not_TestsOutput; eassumption.
Qed.

(** A run that returns without an error has compiled the tests, run
    them with status zero and read from the report of gcov a percentage
    that is not below 80. *)
Lemma coverage_run_passed sourceFile t passed coverage :
  coverage_run sourceFile t (passed, coverage, None) ->
  passed = true /\
  exists d cout rout gout,
    In (EvCombinedOutput
          (compileCmd d (filepath.Join [d; "test.cpp"])
             (filepath.Join [d; filepath.Base sourceFile])) cout None) t /\
    In (EvCombinedOutput (runCmd d) rout None) t /\
    In (EvCombinedOutput (gcovCmd d (filepath.Base sourceFile)) gout None) t /\
    coverage_gate gout = (true, coverage, None).
Proof.
  intros H. inversion H as [|d t0 res Hs]; subst.
  inversion Hs as [|t1 t2 res Hsetup Hm]; subst.
  inversion Hm as [| | |cout rout gout]; subst.
  assert (Hgate : coverage_gate gout = (passed, coverage, None)) by congruence.
  destruct (coverage_gate_passed _ _ _ Hgate) as [-> _].
  split; [reflexivity|]. exists d, cout, rout, gout.
  repeat split; try exact Hgate;
    right; apply in_or_app; left; apply in_or_app; right; cbn; tauto.
Qed.

(** A run in which gcov fails, or reports without the pattern, returns
    the flag set, the coverage 0 and an error. *)
Lemma coverage_run_gcov_failed sourceFile t res d b gout gerr :
  coverage_run sourceFile t res ->
  In (EvCombinedOutput (gcovCmd d b) gout gerr) t ->
  gerr <> None \/ FindStringSubmatch_coverage gout = None ->
  exists err, res = (true, f64_0, Some err).
Proof.
  intros H Hin Hfail. inversion H as [err|d0 t0 res0 Hs]; subst.
  { destruct Hin as [E | []]. discriminate. }
  destruct Hin as [E | Hin]; [discriminate|].
  apply in_app_or in Hin as [Hin | [E | []]]; [|discriminate].
  inversion Hs as [t1 err Hsetup _|t1 t2 res1 Hsetup Hm]; subst.
  { exfalso. eapply setup_not_command; eassumption. }
  apply in_app_or in Hin as [Hin | Hin].
  { exfalso. eapply setup_not_command; eassumption. }
  inversion Hm; subst; cbn in Hin.
  - destruct Hin as [E | []]. apply EvCombinedOutput_inj in E as [E _].
    destruct (compileCmd_not_gcovCmd _ _ _ _ _ E).
  - destruct Hin as [E | [E | []]]; apply EvCombinedOutput_inj in E as [E _].
    + destruct (compileCmd_not_gcovCmd _ _ _ _ _ E).
    + destruct (runCmd_not_gcovCmd _ _ _ E).
  - now eexists.
  - destruct Hin as [E | [E | [E | []]]]; apply EvCombinedOutput_inj in E as [E [Eo Er]].
    + destruct (compileCmd_not_gcovCmd _ _ _ _ _ E).
    + destruct (runCmd_not_gcovCmd _ _ _ E).
    + subst. destruct Hfail as [Hfail | Hfail]; [congruence|].
      rewrite (coverage_gate_no_match _ Hfail). now eexists.
Qed.

(** ** What the traces of a unit tell *)

Lemma Stat_not_TestsOutput (t : list Event) :
  Forall (fun ev => is_Stat ev = true) t ->
  Forall (fun ev => is_TestsOutput_write ev = false) t.
Proof. apply Forall_impl. intros ev. destruct ev; try discriminate; reflexivity. Qed.

Lemma Stat_not_command (t : list Event) cmd out r :
  Forall (fun ev => is_Stat ev = true) t -> ~ In (EvCombinedOutput cmd out r) t.
Proof. intros H Hin. rewrite Forall_forall in H. apply H in Hin. discriminate. Qed.

Lemma generation_events_not_TestsOutput model code t res :
  generation_events model code t res ->
  Forall (fun ev => is_TestsOutput_write ev = false) t.
Proof.
  intros H. destruct H as [e|listed t o Hev]; [repeat constructor|].
  constructor; [reflexivity|]. now apply (models_events_writes _ _ _ _ Hev).
Qed.

Lemma generation_events_not_command model code t res cmd out r :
  generation_events model code t res -> ~ In (EvCombinedOutput cmd out r) t.
Proof.
  intros H Hin. destruct H as [e|listed t o Hev].
  - destruct Hin as [E | []]. discriminate.
  - destruct Hin as [E | Hin]; [discriminate|].
    destruct (models_events_writes _ _ _ _ Hev) as [_ Hc].
    rewrite Forall_forall in Hc. exact (Hc _ Hin).
Qed.

(** A text that [generateUnitTests] returns without an error is the
    normalized answer of a call of the trace, and the validator accepts
    it. *)
Lemma generation_events_accepted model code t tests :
  generation_events model code t (tests, None) ->
  exists req raw,
    In (EvGenerate req (Success raw)) t /\
    normalize raw = tests /\
    validate tests = Accepted tests.
Proof.
  intros H. inversion H as [|listed t0 o Hev Et Eres]; subst.
  destruct o as [out|]; [|discriminate]. injection Eres as ->.
  pose proof (models_events_outcome _ _ _ _ Hev) as Hout. cbn in Hout.
  destruct Hout as [t1 [req [raw [name [wr [-> [Hn [Hv _]]]]]]]].
  exists req, raw. repeat split; try assumption.
  right. apply in_or_app. right. now left.
Qed.

Lemma no_TestsOutput_write (t : list Event) name text wr :
  Forall (fun ev => is_TestsOutput_write ev = false) t ->
  ~ In (EvWriteFile TestsOutput name text wr) t.
Proof. intros H Hin. rewrite Forall_forall in H. apply H in Hin. discriminate. Qed.

(** A run with its files that returns without an error: the setup ended
    without an error, the three commands left with status zero, and the
    gate let the percentage through. *)
Lemma sandbox_run_passed tf sf t passed coverage :
  sandbox_run tf sf t (passed, coverage, None) ->
  passed = true /\
  exists d ts cout rout gout,
    t = (EvMkdirTemp (Success d)
           :: ts ++
              [EvCombinedOutput
                 (compileCmd d (filepath.Join [d; "test.cpp"])
                    (filepath.Join [d; filepath.Base sf])) cout None;
               EvCombinedOutput (runCmd d) rout None;
               EvCombinedOutput (gcovCmd d (filepath.Base sf)) gout None] ++
              [EvRemoveAll d])%list /\
    setup_events tf sf (filepath.Base sf) d ts None /\
    coverage_gate gout = (true, coverage, None).
Proof.
  intros H. inversion H as [| |d ts tm res Hs Hm]; subst.
  inversion Hm as [| | |cout rout gout]; subst.
  assert (Hgate : coverage_gate gout = (passed, coverage, None)) by congruence.
  destruct (coverage_gate_passed _ _ _ Hgate) as [-> _].
  split; [reflexivity|]. now exists d, ts, cout, rout, gout.
Qed.

(** The write under [./tests] is the last event of a turn that passed
    the validator, the run of the tests and the gate; the text it carries
    is the text that was written to the sandbox and compiled there. *)
Lemma unit_events_persisted filePath content t outcome name text wr :
  unit_events filePath content t outcome ->
  In (EvWriteFile TestsOutput name text wr) t ->
  name = test_file_of filePath /\
  exists tp tg d ts cout rout gout,
    t = (tp ++ tg ++
         (EvMkdirTemp (Success d)
            :: ts ++
               [EvCombinedOutput
                  (compileCmd d (filepath.Join [d; "test.cpp"])
                     (filepath.Join [d; filepath.Base (source_file_of filePath)])) cout None;
                EvCombinedOutput (runCmd d) rout None;
                EvCombinedOutput (gcovCmd d (filepath.Base (source_file_of filePath))) gout None] ++
               [EvRemoveAll d]) ++
         [EvWriteFile TestsOutput name text wr])%list /\
    pairing_events filePath tp false /\
    generation_events default_model content tg (text, None) /\
    setup_events text (source_file_of filePath)
      (filepath.Base (source_file_of filePath)) d ts None /\
    exists coverage,
      coverage_gate gout = (true, coverage, None) /\
      outcome = match wr with
                | Some err => WriteFailed name err
                | None => Saved name coverage
                end.
Proof.
  intros H Hin.
  destruct H as [tp Hp|tp tg out err Hp Hg|tp tg tests tc passed cov err Hp Hg Hc
                |tp tg tests tc cov Hp Hg Hc|tp tg tests tc cov wr0 Hp Hg Hc];
    pose proof (Stat_not_TestsOutput _ (pairing_events_Stat _ _ _ Hp)) as Hs;
    try pose proof (generation_events_not_TestsOutput _ _ _ _ Hg) as Hgn;
    try pose proof (coverage_run_not_TestsOutput _ _ _ (sandbox_run_coarse _ _ _ _ Hc)) as Hcn.
  - destruct (no_TestsOutput_write _ _ _ _ Hs Hin).
  - apply in_app_or in Hin as [Hin | Hin].
    + destruct (no_TestsOutput_write _ _ _ _ Hs Hin).
    + destruct (no_TestsOutput_write _ _ _ _ Hgn Hin).
  - apply in_app_or in Hin as [Hin | Hin];
      [destruct (no_TestsOutput_write _ _ _ _ Hs Hin)|].
    apply in_app_or in Hin as [Hin | Hin].
    + destruct (no_TestsOutput_write _ _ _ _ Hgn Hin).
    + destruct (no_TestsOutput_write _ _ _ _ Hcn Hin).
  - apply in_app_or in Hin as [Hin | Hin];
      [destruct (no_TestsOutput_write _ _ _ _ Hs Hin)|].
    apply in_app_or in Hin as [Hin | Hin].
    + destruct (no_TestsOutput_write _ _ _ _ Hgn Hin).
    + destruct (no_TestsOutput_write _ _ _ _ Hcn Hin).
  - apply in_app_or in Hin as [Hin | Hin];
      [destruct (no_TestsOutput_write _ _ _ _ Hs Hin)|].
    apply in_app_or in Hin as [Hin | Hin];
      [destruct (no_TestsOutput_write _ _ _ _ Hgn Hin)|].
    apply in_app_or in Hin as [Hin | Hin];
      [destruct (no_TestsOutput_write _ _ _ _ Hcn Hin)|].
    destruct Hin as [E | []]. injection E as <- <- <-.
    split; [reflexivity|].
    destruct (sandbox_run_passed _ _ _ _ _ Hc)
      as [_ [d [ts [cout [rout [gout [-> [Hsetup Hgate]]]]]]]].
    exists tp, tg, d, ts, cout, rout, gout.
    repeat split; try assumption. now exists cov.
Qed.

(** C1.  When a turn of the loop of [main] writes a file under the
    tests directory, the file is the one named after the unit and the
    write is the last event of the turn.  Before it the turn has, in this
    order: checked the companion of the unit and found it; obtained the
    text from a generation call, as the normalized answer that the
    validator accepted; written this very text to [test.cpp] in the
    sandbox and copied the source of the unit next to it; compiled the two
    there, run the test binary and run gcov, each leaving with status
    zero; and read from the report of gcov a percentage that parsed to a
    number that is at least 80.  A text that misses one of these is never
    written there. *)
Theorem persisted_only_after_all_gates {World : Type} {host : Host World}
  (filePath content : string) (w : World) (name text : string) (wr : option error) :
  In (EvWriteFile TestsOutput name text wr) (trace_of (process_unit filePath content w)) ->
  name = test_file_of filePath /\
  exists tp tg d ts cout rout gout whole percentage rest coverage,
    trace_of (process_unit filePath content w) =
      (tp ++ tg ++
       (EvMkdirTemp (Success d)
          :: ts ++
             [EvCombinedOutput
                (compileCmd d (filepath.Join [d; "test.cpp"])
                   (filepath.Join [d; filepath.Base (source_file_of filePath)])) cout None;
              EvCombinedOutput (runCmd d) rout None;
              EvCombinedOutput (gcovCmd d (filepath.Base (source_file_of filePath))) gout None] ++
             [EvRemoveAll d]) ++
       [EvWriteFile TestsOutput name text wr])%list /\
    pairing_events filePath tp false /\
    generation_events default_model content tg (text, None) /\
    (exists req raw,
        In (EvGenerate req (Success raw)) tg /\
        normalize raw = text /\
        validate text = Accepted text) /\
    setup_events text (source_file_of filePath)
      (filepath.Base (source_file_of filePath)) d ts None /\
    In (EvWriteFile SandboxTest (filepath.Join [d; "test.cpp"]) text None) ts /\
    (exists data,
        In (EvReadFile (source_file_of filePath) (Success data)) ts /\
        In (EvWriteFile SandboxCopy
              (filepath.Join [d; filepath.Base (source_file_of filePath)]) data None) ts) /\
    FindStringSubmatch_coverage gout = Some (whole :: percentage :: rest) /\
    strconv.ParseFloat percentage = (coverage, None) /\
    f64_lt coverage f64_80 = false /\
    f64_ge coverage f64_80 /\
    result_of (process_unit filePath content w) =
      Done (match wr with
            | Some err => WriteFailed name err
            | None => Saved name coverage
            end).
Proof.
  intros Hin.
  destruct (process_unit_events filePath content w) as [o [w' [t [E H]]]].
  rewrite E in *. unfold trace_of, result_of in *. cbn [fst snd] in *.
  destruct (unit_events_persisted _ _ _ _ _ _ _ H Hin)
    as [Hname [tp [tg [d [ts [cout [rout [gout [Et [Hp [Hg [Hs [cov [Hgate Ho]]]]]]]]]]]]]].
  split; [exact Hname|].
  destruct (coverage_gate_passed _ _ _ Hgate) as [_ [whole [pct [rest [Hf [Hparse Hlt]]]]]].
  destruct (setup_events_done _ _ _ _ _ Hs) as [Hw Hcopy].
  exists tp, tg, d, ts, cout, rout, gout, whole, pct, rest, cov.
  repeat split; try assumption.
  - exact (generation_events_accepted _ _ _ _ Hg).
  - eapply parsed_not_below_is_at_least; eassumption.
  - now rewrite Ho.
Qed.

Lemma persisted_only_after_all_gates_witness :
  validate (normalize Scripted.fenced_answer) = Accepted (normalize Scripted.fenced_answer) /\
  result_of Scripted.happy_unit =
    Done (Saved "tests/calc_test.cpp" (fst (strconv.ParseFloat "92.00"))).
Proof.
  destruct (persisted_only_after_all_gates (host := Scripted.host)
              "codebase/calc.cpp" Scripted.calc_cpp Scripted.happy
              "tests/calc_test.cpp" (normalize Scripted.fenced_answer) None)
    as [_ [tp [tg [d [ts [cout [rout [gout [whole [pct [rest [cov H]]]]]]]]]]]].
  - vm_compute. repeat (first [left; reflexivity | right]).
  - destruct H as [_ [_ [_ [[req [raw [_ [_ Hv]]]] _]]]].
    split; [exact Hv | vm_compute; reflexivity].
Defined.

(** A turn in which gcov fails, or reports without the pattern, ends
    with the error of the coverage run and writes nothing under the tests
    directory. *)
Lemma unit_events_gcov_failed filePath content t outcome d b gout gerr :
  unit_events filePath content t outcome ->
  In (EvCombinedOutput (gcovCmd d b) gout gerr) t ->
  gerr <> None \/ FindStringSubmatch_coverage gout = None ->
  (exists err, outcome = TestValidationFailed err) /\
  Forall (fun ev => is_TestsOutput_write ev = false) t.
Proof.
  intros H Hin Hfail.
  assert (Hrun : forall tp tg tests tc res,
             Forall (fun ev => is_Stat ev = true) tp ->
             generation_events default_model content tg (tests, None) ->
             coverage_run (source_file_of filePath) tc res ->
             forall rest, In (EvCombinedOutput (gcovCmd d b) gout gerr) (tp ++ tg ++ tc ++ rest) ->
             (forall cmd out r, ~ In (EvCombinedOutput cmd out r) rest) ->
             exists err, res = (true, f64_0, Some err)).
  { intros tp tg tests tc res Hp Hg Hc rest Hin' Hrest.
    apply in_app_or in Hin' as [Hin' | Hin'];
      [destruct (Stat_not_command _ _ _ _ Hp Hin')|].
    apply in_app_or in Hin' as [Hin' | Hin'];
      [destruct (generation_events_not_command _ _ _ _ _ _ _ Hg Hin')|].
    apply in_app_or in Hin' as [Hin' | Hin']; [|destruct (Hrest _ _ _ Hin')].
    eapply coverage_run_gcov_failed; eassumption. }
  destruct H as [tp Hp|tp tg out err Hp Hg|tp tg tests tc passed cov err Hp Hg Hc
                |tp tg tests tc cov Hp Hg Hc|tp tg tests tc cov wr0 Hp Hg Hc];
    apply pairing_events_Stat in Hp; try apply sandbox_run_coarse in Hc.
  - destruct (Stat_not_command _ _ _ _ Hp Hin).
  - apply in_app_or in Hin as [Hin | Hin].
    + destruct (Stat_not_command _ _ _ _ Hp Hin).
    + destruct (generation_events_not_command _ _ _ _ _ _ _ Hg Hin).
  - split; [now exists err|].
    apply Forall_app. split; [now apply Stat_not_TestsOutput|].
    apply Forall_app. split.
    + eapply generation_events_not_TestsOutput; eassumption.
    + eapply coverage_run_not_TestsOutput; eassumption.
  - destruct (Hrun tp tg tests tc _ Hp Hg Hc []) as [err E].
    + now rewrite app_nil_r.
    + intros cmd out r [].
    + discriminate.
  - destruct (Hrun tp tg tests tc _ Hp Hg Hc
                [EvWriteFile TestsOutput (test_file_of filePath) tests wr0] Hin) as [err E].
    + intros cmd out r [E | []]. discriminate.
    + discriminate.
Qed.

(** C9.  When the call of gcov fails, or its output lacks the pattern
    [Lines executed:...% of ...], [runTestsAndCoverage] returns the flag
    [true], the coverage 0 and an error.  The turn of [main] in which this
    happens takes the exit of the error, line 376, and writes nothing under
    the tests directory: the flag alone would not have stopped it. *)
Theorem gcov_failure_returns_flag_true {World : Type} {host : Host World}
  (testFile sourceFile filePath content : string) (w w0 : World)
  (d b gout : string) (gerr : option error) :
  gerr <> None \/ FindStringSubmatch_coverage gout = None ->
  (In (EvCombinedOutput (gcovCmd d b) gout gerr)
      (trace_of (runTestsAndCoverage testFile sourceFile w)) ->
   exists err,
     result_of (runTestsAndCoverage testFile sourceFile w) = Done (true, f64_0, Some err)) /\
  (In (EvCombinedOutput (gcovCmd d b) gout gerr)
      (trace_of (process_unit filePath content w0)) ->
   (exists err, result_of (process_unit filePath content w0) = Done (TestValidationFailed err)) /\
   Forall (fun ev => is_TestsOutput_write ev = false)
     (trace_of (process_unit filePath content w0))).
Proof.
  intros Hfail. split.
  - intros Hin.
    destruct (runTestsAndCoverage_events testFile sourceFile w) as [res [w' [t [E H]]]].
    rewrite E in *. unfold trace_of, result_of in *. cbn [fst snd] in *.
    destruct (coverage_run_gcov_failed _ _ _ _ _ _ _ H Hin Hfail) as [err ->].
    now exists err.
  - intros Hin.
    destruct (process_unit_events filePath content w0) as [o [w' [t [E H]]]].
    rewrite E in *. unfold trace_of, result_of in *. cbn [fst snd] in *.
    destruct (unit_events_gcov_failed _ _ _ _ _ _ _ _ H Hin Hfail) as [[err ->] Hno].
    split; [now exists err | exact Hno].
Qed.

Lemma gcov_failure_returns_flag_true_witness :
  (exists err, result_of Scripted.gcov_broken_run = Done (true, f64_0, Some err)) /\
  (exists err, result_of Scripted.gcov_broken_unit = Done (TestValidationFailed err)).
Proof.
  destruct (gcov_failure_returns_flag_true (host := Scripted.host)
              Scripted.good_tests "codebase/calc.cpp" "codebase/calc.cpp" Scripted.calc_cpp
              Scripted.gcov_broken Scripted.gcov_broken
              "/tmp/unit-test-generator-1" "calc.cpp"
              "calc.gcno:cannot open notes file" (Some (ErrLibrary "exit status 1")))
    as [Hrun Hunit].
  - left. discriminate.
  - split.
    + apply Hrun. vm_compute. repeat (first [left; reflexivity | right]).
    + apply Hunit. vm_compute. repeat (first [left; reflexivity | right]).
Defined.

(** ** The loop over the units *)

Lemma units_events_length files t outcomes :
  units_events files t outcomes -> List.length outcomes = List.length files.
Proof. induction 1; cbn; [reflexivity | now f_equal]. Qed.

(** C8.  The loop of [main] over the units never ends the process: for
    every list of units it returns one exit per unit.  Whatever the turns
    of the units before it did (skipped, generation exhausted, compiler,
    tests or gate failed, file written), a unit is given to the body of
    the loop, in the world those turns left; its turn has its own events
    and its own exit, which is the one the body returns there; and the
    units after it are given to the body in turn, from the world this turn
    left.  The events and the exits of the loop are those of the turns,
    in the order of the list, and nothing else. *)
Theorem unit_failures_do_not_stop_the_batch {World : Type} {host : Host World}
  (before : list (string * string)) (filePath content : string)
  (after : list (string * string)) (w : World) :
  exists outcomes w' t,
    process_units (before ++ (filePath, content) :: after) w = (Done outcomes, w', t) /\
    List.length outcomes = S (List.length before + List.length after) /\
    exists w1 w2 t1 t2 t3 os1 outcome os2,
      t = (t1 ++ t2 ++ t3)%list /\
      outcomes = (os1 ++ outcome :: os2)%list /\
      List.length os1 = List.length before /\
      List.length os2 = List.length after /\
      units_run before w os1 w1 t1 /\
      process_unit filePath content w1 = (Done outcome, w2, t2) /\
      units_run after w2 os2 w' t3 /\
      units_events before t1 os1 /\
      unit_events filePath content t2 outcome /\
      units_events after t3 os2.
Proof.
  destruct (process_units_run (before ++ (filePath, content) :: after) w)
    as [outcomes [w' [t [E [R H]]]]].
  exists outcomes, w', t. split; [exact E|]. split.
  - rewrite (units_events_length _ _ _ H), length_app. cbn. lia.
  - apply units_run_app_inv in R as [w1 [t1 [t23 [os1 [os23 [-> [-> [R1 R23]]]]]]]].
    inversion R23 as [|p c rest w0 o w2 t2 os2 w3 t3 Eu Rrest]; subst.
    pose proof (units_run_events _ _ _ _ _ R1) as H1.
    pose proof (units_run_events _ _ _ _ _ Rrest) as H3.
    exists w1, w2, t1, t2, t3, os1, o, os2.
    repeat split; try assumption.
    + exact (units_events_length _ _ _ H1).
    + exact (units_events_length _ _ _ H3).
    + destruct (process_unit_events filePath content w1) as [o' [w2' [t2' [E' H']]]].
      rewrite Eu in E'. injection E' as <- <- <-. exact H'.
Qed.

(** ** Paths of paired units *)

Lemma Replace1_unfold (s old new : string) :
  strings.Replace1 s old new =
  if strings.HasPrefix s old then new ++ strings.drop (String.length old) s
  else match s with
       | EmptyString => EmptyString
       | String c s' => String c (strings.Replace1 s' old new)
       end.
Proof. destruct s; reflexivity. Qed.

Lemma HasPrefix_refl (s : string) : strings.HasPrefix s s = true.
Proof. apply HasPrefix_spec. exists EmptyString. now rewrite append_empty_r. Qed.

Lemma drop_all (s : string) : strings.drop (String.length s) s = EmptyString.
Proof.
  rewrite <- (append_empty_r s) at 2. apply drop_append.
Qed.

(** When [old] first occurs in [stem ++ old] after [stem], replacing the
    first occurrence replaces that one. *)
Lemma Replace1_no_earlier (stem old new : string) :
  no_earlier stem old = true -> strings.Replace1 (stem ++ old) old new = stem ++ new.
Proof.
  induction stem as [|c stem IH]; intros H.
  - cbn [append]. rewrite Replace1_unfold, HasPrefix_refl, drop_all.
    now rewrite append_empty_r.
  - cbn [no_earlier] in H. apply andb_true_iff in H as [Hp Hrest].
    apply negb_true_iff in Hp. rewrite Replace1_unfold, Hp.
    cbn [append]. now rewrite (IH Hrest).
Qed.

Lemma no_earlier_drop (dir b old : string) :
  no_earlier (dir ++ b) old = true -> no_earlier b old = true.
Proof.
  induction dir as [|c dir IH]; intros H; [exact H|].
  cbn [append no_earlier] in H. apply andb_true_iff in H as [_ H]. now apply IH.
Qed.

Lemma last_byte_h_not_p (s : string) :
  last_byte s = Some "h"%char -> last_byte s = Some "p"%char -> False.
Proof. intros H1 H2. rewrite H1 in H2. discriminate. Qed.

(** Two paths that are each the companion of the other, as lines 347-360
    compute it, differ in their extension only, and the extension does not
    occur before the end. *)
Lemma companion_pair_stem (header impl : string) :
  strings.HasSuffix header ".h" = true ->
  strings.HasSuffix impl ".cpp" = true ->
  strings.Replace1 header ".h" ".cpp" = impl ->
  strings.Replace1 impl ".cpp" ".h" = header ->
  exists stem,
    header = stem ++ ".h" /\ impl = stem ++ ".cpp" /\
    no_earlier stem ".h" = true /\ no_earlier stem ".cpp" = true.
Proof.
  revert impl. induction header as [|a h IH]; intros impl Hh Hc Hhc Hch.
  - cbn in Hh. discriminate.
  - rewrite Replace1_unfold in Hhc.
    destruct (strings.HasPrefix (String a h) ".h") eqn:Hp.
    + apply HasPrefix_spec in Hp as [post Ep]. rewrite Ep in Hhc.
      change (String.length ".h") with (String.length ".h") in Hhc.
      rewrite drop_append in Hhc.
      destruct post as [|p0 post].
      * exists EmptyString. rewrite Ep, <- Hhc. now repeat split.
      * exfalso. apply (last_byte_h_not_p (String p0 post)).
        -- rewrite <- (last_byte_append ".h" p0 post), <- Ep.
           now apply (HasSuffix_last_byte _ ".h").
        -- rewrite <- (last_byte_append ".cpp" p0 post), Hhc.
           now apply (HasSuffix_last_byte _ ".cpp").
    + subst impl. rewrite Replace1_unfold in Hch.
      destruct (strings.HasPrefix (String a (strings.Replace1 h ".h" ".cpp")) ".cpp") eqn:Hpc.
      { rewrite <- Hch, HasPrefix_append in Hp. discriminate. }
      injection Hch as Hch.
      cbn [strings.HasSuffix] in Hh, Hc.
      apply orb_true_iff in Hh as [Hh | Hh].
      { apply String.eqb_eq in Hh. rewrite Hh, HasPrefix_refl in Hp. discriminate. }
      apply orb_true_iff in Hc as [Hc | Hc].
      { apply String.eqb_eq in Hc. rewrite Hc, HasPrefix_refl in Hpc. discriminate. }
      destruct (IH _ Hh Hc eq_refl Hch) as [stem [E1 [E2 [N1 N2]]]].
      exists (String a stem). cbn [append no_earlier].
      rewrite <- E1, <- E2, Hp, Hpc, N1, N2. now repeat split.
Qed.

(** The last element of a path. *)
Lemma split_from_last (cur s : string) :
  exists l, filepath.split_from cur s = (l ++ [last_elem_from cur s])%list.
Proof.
  revert cur. induction s as [|c s IH]; intros cur; cbn [filepath.split_from last_elem_from].
  - now exists [].
  - destruct (Ascii.eqb c filepath.slash).
    + destruct (IH EmptyString) as [l ->]. now exists (strings.rev cur :: l).
    + apply IH.
Qed.

Lemma Base_last_elem (path : string) :
  last_elem_from EmptyString path <> EmptyString ->
  filepath.Base path = last_elem_from EmptyString path.
Proof.
  intros Hne. unfold filepath.Base, filepath.split.
  destruct path as [|c path]; [now destruct Hne|]. cbn [is_empty].
  destruct (split_from_last EmptyString (String c path)) as [l ->].
  rewrite rev_app_distr. cbn [List.rev app filter].
  destruct (last_elem_from EmptyString (String c path)); [now destruct Hne | reflexivity].
Qed.

Lemma rev_cons_append (c : ascii) (cur s : string) :
  strings.rev (String c cur) ++ s = strings.rev cur ++ String c s.
Proof. cbn [strings.rev]. now rewrite append_assoc_str. Qed.

Lemma last_elem_from_no_slash (cur ext : string) :
  all_bytes (fun c => negb (Ascii.eqb c filepath.slash)) ext = true ->
  last_elem_from cur ext = strings.rev cur ++ ext.
Proof.
  revert cur. induction ext as [|c ext IH]; intros cur H; cbn [last_elem_from].
  - now rewrite append_empty_r.
  - cbn [all_bytes] in H. apply andb_true_iff in H as [Hc H].
    apply negb_true_iff in Hc. rewrite Hc, (IH _ H). apply rev_cons_append.
Qed.

Lemma last_elem_from_append (cur stem ext : string) :
  all_bytes (fun c => negb (Ascii.eqb c filepath.slash)) ext = true ->
  last_elem_from cur (stem ++ ext) = last_elem_from cur stem ++ ext.
Proof.
  intros H. revert cur. induction stem as [|c stem IH]; intros cur.
  - cbn [append last_elem_from]. now apply last_elem_from_no_slash.
  - cbn [append last_elem_from]. destruct (Ascii.eqb c filepath.slash); apply IH.
Qed.

Lemma last_elem_from_is_suffix (cur stem : string) :
  exists dir, strings.rev cur ++ stem = dir ++ last_elem_from cur stem.
Proof.
  revert cur. induction stem as [|c stem IH]; intros cur; cbn [last_elem_from].
  - exists EmptyString. now rewrite append_empty_r.
  - destruct (Ascii.eqb c filepath.slash).
    + destruct (IH EmptyString) as [dir E]. cbn [strings.rev append] in E.
      exists (strings.rev cur ++ String c dir). rewrite append_assoc_str.
      cbn [append]. now rewrite <- E.
    + destruct (IH (String c cur)) as [dir E]. exists dir.
      now rewrite <- E, rev_cons_append.
Qed.

Lemma append_nonempty (s : string) (c : ascii) (t : string) : s ++ String c t <> EmptyString.
Proof. destruct s; discriminate. Qed.

Lemma HasPrefix_overlap_cpp (s : string) :
  strings.HasPrefix (s ++ ".cpp") ".cpp" = true ->
  s = EmptyString \/ strings.HasPrefix s ".cpp" = true.
Proof.
  destruct s as [|c1 [|c2 [|c3 [|c4 s]]]]; cbn [append]; intros H.
  - now left.
  - exfalso. rewrite !HasPrefix_cons in H. cbn in H. rewrite ?andb_false_r in H. discriminate.
  - exfalso. rewrite !HasPrefix_cons in H. cbn in H. rewrite ?andb_false_r in H. discriminate.
  - exfalso. rewrite !HasPrefix_cons in H. cbn in H. rewrite ?andb_false_r in H. discriminate.
  - right. rewrite !HasPrefix_cons, HasPrefix_empty in *. exact H.
Qed.

Lemma HasPrefix_overlap_h (s : string) :
  strings.HasPrefix (s ++ ".h") ".h" = true ->
  s = EmptyString \/ strings.HasPrefix s ".h" = true.
Proof.
  destruct s as [|c1 [|c2 s]]; cbn [append]; intros H.
  - now left.
  - exfalso. rewrite !HasPrefix_cons in H. cbn in H. rewrite ?andb_false_r in H. discriminate.
  - right. rewrite !HasPrefix_cons, HasPrefix_empty in *. exact H.
Qed.

Lemma Contains_false_no_earlier (stem ext : string) :
  ext = ".cpp" \/ ext = ".h" ->
  strings.Contains stem ext = false -> no_earlier stem ext = true.
Proof.
  intros Hext. induction stem as [|c stem IH]; [reflexivity|].
  cbn [strings.Contains no_earlier]. intros H.
  apply orb_false_iff in H as [Hp Hc]. rewrite (IH Hc), andb_true_r.
  apply negb_true_iff.
  destruct (strings.HasPrefix (String c stem ++ ext) ext) eqn:Ho; [|reflexivity].
  destruct Hext as [-> | ->].
  - apply HasPrefix_overlap_cpp in Ho as [Ho | Ho]; [discriminate | congruence].
  - apply HasPrefix_overlap_h in Ho as [Ho | Ho]; [discriminate | congruence].
Qed.

(** The name of the test file of a path [stem ++ ext], when [ext] is free
    of separators and does not occur in the last element of [stem ++ ext]
    before its end. *)
Lemma Base_Replace1_extension (stem ext new : string) :
  ext <> EmptyString ->
  all_bytes (fun c => negb (Ascii.eqb c filepath.slash)) ext = true ->
  no_earlier (last_elem_from EmptyString stem) ext = true ->
  filepath.Base (stem ++ ext) = last_elem_from EmptyString stem ++ ext /\
  strings.Replace1 (filepath.Base (stem ++ ext)) ext new =
    last_elem_from EmptyString stem ++ new.
Proof.
  intros Hne Hslash Hno.
  assert (HB : filepath.Base (stem ++ ext) = last_elem_from EmptyString stem ++ ext).
  { rewrite Base_last_elem; rewrite last_elem_from_append by exact Hslash; [reflexivity|].
    destruct ext as [|c ext]; [now destruct Hne | apply append_nonempty]. }
  split; [exact HB|]. rewrite HB. now apply Replace1_no_earlier.
Qed.

Lemma no_earlier_last_elem (stem ext : string) :
  no_earlier stem ext = true -> no_earlier (last_elem_from EmptyString stem) ext = true.
Proof.
  intros Hno. destruct (last_elem_from_is_suffix EmptyString stem) as [dir E].
  cbn [strings.rev append] in E. rewrite E in Hno. now apply no_earlier_drop in Hno.
Qed.

Lemma HasSuffix_h_of_cpp (s : string) : strings.HasSuffix (s ++ ".cpp") ".h" = false.
Proof.
  destruct (strings.HasSuffix (s ++ ".cpp") ".h") eqn:H; [|reflexivity].
  apply (HasSuffix_last_byte _ _ "h"%char) in H; [|reflexivity].
  rewrite last_byte_append in H. discriminate.
Qed.

(** The test files of [stem ++ ".h"] and of [stem ++ ".cpp"], when
    neither extension occurs in the last element of [stem]. *)
Lemma test_file_of_pair (stem : string) :
  no_earlier (last_elem_from EmptyString stem) ".h" = true ->
  no_earlier (last_elem_from EmptyString stem) ".cpp" = true ->
  test_file_of (stem ++ ".h") =
    filepath.Join ["./tests"; last_elem_from EmptyString stem ++ "_test.cpp"] /\
  test_file_of (stem ++ ".cpp") =
    filepath.Join ["./tests"; last_elem_from EmptyString stem ++ "_test.cpp"].
Proof.
  intros Nh Nc. unfold test_file_of.
  destruct (Base_Replace1_extension stem ".h" "_test.cpp") as [Bh Rh];
    [discriminate | reflexivity | exact Nh|].
  destruct (Base_Replace1_extension stem ".cpp" "_test.cpp") as [Bc Rc];
    [discriminate | reflexivity | exact Nc|].
  rewrite Rh, Rc, Bh, Bc, HasSuffix_append, HasSuffix_h_of_cpp. now split.
Qed.

(** Two paths that the pairing check of lines 347-360 takes each for the
    companion of the other get one test file and one source file. *)
Lemma mutual_companions_share_test_file (header impl : string) :
  strings.HasSuffix header ".h" = true ->
  strings.HasSuffix impl ".cpp" = true ->
  strings.Replace1 header ".h" ".cpp" = impl ->
  strings.Replace1 impl ".cpp" ".h" = header ->
  test_file_of header = test_file_of impl /\
  source_file_of header = source_file_of impl.
Proof.
  intros Hh Hc Hhc Hch.
  destruct (companion_pair_stem _ _ Hh Hc Hhc Hch) as [stem [Eh [Ec [Nh Nc]]]].
  split.
  - destruct (test_file_of_pair stem) as [E1 E2];
      [now apply no_earlier_last_elem | now apply no_earlier_last_elem|].
    now rewrite Eh, Ec, E1, E2.
  - unfold source_file_of. rewrite Hh, Hhc. rewrite Ec at 2.
    now rewrite HasSuffix_h_of_cpp.
Qed.





(** ** Further properties of the sandbox *)




(** The commands of a measured run, in the order of the stages. *)
Lemma measured_stage d tt ts b t res cmd out r :
  measured d tt ts b t res ->
  In (EvCombinedOutput cmd out r) t ->
  cmd = compileCmd d tt ts \/
  (cmd = runCmd d /\ exists cout, In (EvCombinedOutput (compileCmd d tt ts) cout None) t) \/
  (cmd = gcovCmd d b /\
   exists cout rout,
     In (EvCombinedOutput (compileCmd d tt ts) cout None) t /\
     In (EvCombinedOutput (runCmd d) rout None) t).
Proof.
  intros H Hin. destruct H; cbn in Hin.
  - destruct Hin as [E | []]. apply EvCombinedOutput_inj in E as [<- _]. now left.
  - destruct Hin as [E | [E | []]]; apply EvCombinedOutput_inj in E as [<- _].
    + now left.
    + right. left. split; [reflexivity|]. exists cout. now left.
  - destruct Hin as [E | [E | [E | []]]]; apply EvCombinedOutput_inj in E as [<- _].
    + now left.
    + right. left. split; [reflexivity|]. exists cout. now left.
    + right. right. split; [reflexivity|]. exists cout, rout.
      split; [now left | right; now left].
  - destruct Hin as [E | [E | [E | []]]]; apply EvCombinedOutput_inj in E as [<- _].
    + now left.
    + right. left. split; [reflexivity|]. exists cout. now left.
    + right. right. split; [reflexivity|]. exists cout, rout.
      split; [now left | right; now left].
Qed.

(** A command that fails decides the result of a measured run. *)
Lemma measured_failed_stage d tt ts b t res cmd out err :
  measured d tt ts b t res ->
  In (EvCombinedOutput cmd out (Some err)) t ->
  (cmd = compileCmd d tt ts /\ res = (false, f64_0, Some (ErrCompilation err out))) \/
  (cmd = runCmd d /\ res = (false, f64_0, Some (ErrTestsFailed err out))) \/
  (cmd = gcovCmd d b /\ res = (true, f64_0, Some (ErrGcov err out))).
Proof.
  intros H Hin. destruct H; cbn in Hin.
  - destruct Hin as [E | []]. apply EvCombinedOutput_inj in E as [<- [<- E]].
    injection E as <-. now left.
  - destruct Hin as [E | [E | []]]; apply EvCombinedOutput_inj in E as [<- [<- E]];
      [discriminate|]. injection E as <-. right. now left.
  - destruct Hin as [E | [E | [E | []]]]; apply EvCombinedOutput_inj in E as [<- [<- E]];
      try discriminate. injection E as <-. right. now right.
  - destruct Hin as [E | [E | [E | []]]]; apply EvCombinedOutput_inj in E as [_ [_ E]];
      discriminate.
Qed.

Lemma coverage_run_command sourceFile t res cmd out r :
  coverage_run sourceFile t res ->
  In (EvCombinedOutput cmd out r) t ->
  exists d t0,
    t = (EvMkdirTemp (Success d) :: t0 ++ [EvRemoveAll d])%list /\
    exists t1 t2,
      t0 = (t1 ++ t2)%list /\
      Forall (fun ev => is_setup ev = true) t1 /\
      measured d (filepath.Join [d; "test.cpp"])
        (filepath.Join [d; filepath.Base sourceFile]) (filepath.Base sourceFile) t2 res /\
      In (EvCombinedOutput cmd out r) t2.
Proof.
  intros H Hin. destruct H as [err|d t0 res Hs].
  { destruct Hin as [E | []]. discriminate. }
  destruct Hin as [E | Hin]; [discriminate|].
  apply in_app_or in Hin as [Hin | [E | []]]; [|discriminate].
  exists d, t0. split; [reflexivity|].
  destruct Hs as [t err Hs _|t1 t2 res Hs Hm].
  { exfalso. eapply setup_not_command; eassumption. }
  apply in_app_or in Hin as [Hin | Hin].
  { exfalso. eapply setup_not_command; eassumption. }
  now exists t1, t2.
Qed.

(** X1.  [runTestsAndCoverage] never returns the flag [false] without an
    error, so the branch of [main] at lines 380-383, taken when the flag
    is [false] and the error is nil, is never taken: no turn of the loop
    ends there. *)
Theorem not_passed_branch_is_dead {World : Type} {host : Host World}
  (testFile sourceFile filePath content : string) (w w0 : World) :
  (forall coverage,
     result_of (runTestsAndCoverage testFile sourceFile w) <> Done (false, coverage, None)) /\
  result_of (process_unit filePath content w0) <> Done TestsDidNotPass.
Proof.
  split.
  - intros coverage Hres.
    destruct (runTestsAndCoverage_events testFile sourceFile w) as [res [w' [t [E H]]]].
    rewrite E in Hres. unfold result_of in Hres. cbn [fst] in Hres.
    injection Hres as ->. apply coverage_run_passed in H as [H _]. discriminate.
  - intros Hres.
    destruct (process_unit_events filePath content w0) as [o [w' [t [E H]]]].
    rewrite E in Hres. unfold result_of in Hres. cbn [fst] in Hres.
    injection Hres as ->.
    inversion H as [| | |tp tg tests tc cov Hp Hg Hc|tp tg tests tc cov wr Hp Hg Hc Et Eo]; subst.
    + apply sandbox_run_coarse, coverage_run_passed in Hc as [Hc _]. discriminate.
    + destruct wr; discriminate.
Qed.


(** X3.  The stages of lines 232-273 run in order, in the temporary
    directory of the run: a command of the trace of [runTestsAndCoverage]
    is the compiler, or the test binary after the compiler left with
    status zero, or gcov after both did; its working directory is the
    directory the run created. *)
Theorem stages_run_in_order {World : Type} {host : Host World}
  (testFile sourceFile : string) (w : World) (cmd : Cmd) (out : string) (r : option error) :
  In (EvCombinedOutput cmd out r) (trace_of (runTestsAndCoverage testFile sourceFile w)) ->
  exists d,
    In (EvMkdirTemp (Success d)) (trace_of (runTestsAndCoverage testFile sourceFile w)) /\
    Dir cmd = d /\
    (cmd = compileCmd d (filepath.Join [d; "test.cpp"])
             (filepath.Join [d; filepath.Base sourceFile]) \/
     (cmd = runCmd d /\
      exists cout,
        In (EvCombinedOutput
              (compileCmd d (filepath.Join [d; "test.cpp"])
                 (filepath.Join [d; filepath.Base sourceFile])) cout None)
           (trace_of (runTestsAndCoverage testFile sourceFile w))) \/
     (cmd = gcovCmd d (filepath.Base sourceFile) /\
      exists cout rout,
        In (EvCombinedOutput
              (compileCmd d (filepath.Join [d; "test.cpp"])
                 (filepath.Join [d; filepath.Base sourceFile])) cout None)
           (trace_of (runTestsAndCoverage testFile sourceFile w)) /\
        In (EvCombinedOutput (runCmd d) rout None)
           (trace_of (runTestsAndCoverage testFile sourceFile w)))).
Proof.
  intros Hin.
  destruct (runTestsAndCoverage_events testFile sourceFile w) as [res [w' [t [E H]]]].
  rewrite E in *. unfold trace_of in *. cbn [snd] in *.
  destruct (coverage_run_command _ _ _ _ _ _ H Hin)
    as [d [t0 [-> [t1 [t2 [-> [Hs [Hm Hin2]]]]]]]].
  exists d. split; [now left|].
  assert (Hlift : forall ev, In ev t2 ->
            In ev (EvMkdirTemp (Success d) :: (t1 ++ t2) ++ [EvRemoveAll d])).
  { intros ev Hev. right. apply in_or_app. left. apply in_or_app. now right. }
  destruct (measured_stage _ _ _ _ _ _ _ _ _ Hm Hin2)
    as [-> | [[-> [cout Hc]] | [-> [cout [rout [Hc Hr]]]]]].
  - split; [reflexivity | now left].
  - split; [reflexivity|]. right. left. split; [reflexivity|]. exists cout. auto.
  - split; [reflexivity|]. right. right. split; [reflexivity|]. exists cout, rout. auto.
Qed.

Lemma stages_run_in_order_witness :
  Dir (gcovCmd "/tmp/unit-test-generator-1" "calc.cpp") = "/tmp/unit-test-generator-1" /\
  exists rout,
    In (EvCombinedOutput (runCmd "/tmp/unit-test-generator-1") rout None)
       (trace_of Scripted.happy_run).
Proof.
  destruct (stages_run_in_order (host := Scripted.host)
              Scripted.good_tests "codebase/calc.cpp" Scripted.happy
              (gcovCmd "/tmp/unit-test-generator-1" "calc.cpp")
              (fst (Scripted.gcov_result Scripted.happy)) None)
    as [d [_ [Hd [Hc | [[Hc _] | [_ [cout [rout [_ Hr]]]]]]]]].
  - vm_compute. repeat (first [left; reflexivity | right]).
  - exfalso. apply (f_equal Name) in Hc. discriminate.
  - exfalso. apply (f_equal Args) in Hc. discriminate.
  - cbn [Dir gcovCmd] in Hd. subst d. split; [reflexivity|]. exists rout. exact Hr.
Defined.

(** X4.  The first stage that fails ends the run and decides what is
    returned: a failing compiler gives the compilation error with the
    output of the compiler and the flag [false], a failing test binary the
    tests-failed error with its output and the flag [false], a failing gcov
    the gcov error with its output and the flag [true]; the coverage is 0
    in the three cases. *)
Theorem failed_stage_decides_result {World : Type} {host : Host World}
  (testFile sourceFile : string) (w : World) (cmd : Cmd) (out : string) (err : error) :
  In (EvCombinedOutput cmd out (Some err))
     (trace_of (runTestsAndCoverage testFile sourceFile w)) ->
  (Name cmd = "g++" /\
   result_of (runTestsAndCoverage testFile sourceFile w)
     = Done (false, f64_0, Some (ErrCompilation err out))) \/
  (Args cmd = [] /\
   result_of (runTestsAndCoverage testFile sourceFile w)
     = Done (false, f64_0, Some (ErrTestsFailed err out))) \/
  (Name cmd = "gcov" /\
   result_of (runTestsAndCoverage testFile sourceFile w)
     = Done (true, f64_0, Some (ErrGcov err out))).
Proof.
  intros Hin.
  destruct (runTestsAndCoverage_events testFile sourceFile w) as [res [w' [t [E H]]]].
  rewrite E in *. unfold trace_of, result_of in *. cbn [fst snd] in *.
  destruct (coverage_run_command _ _ _ _ _ _ H Hin)
    as [d [t0 [_ [t1 [t2 [_ [_ [Hm Hin2]]]]]]]].
  destruct (measured_failed_stage _ _ _ _ _ _ _ _ _ Hm Hin2)
    as [[-> ->] | [[-> ->] | [-> ->]]].
  - now left.
  - right. now left.
  - right. now right.
Qed.

Lemma failed_stage_decides_result_witness :
  result_of Scripted.compile_broken_run =
    Done (false, f64_0,
          Some (ErrCompilation (ErrLibrary "exit status 1") "test.cpp:3: error: expected ';'")).
Proof.
  destruct (failed_stage_decides_result (host := Scripted.host)
              Scripted.good_tests "codebase/calc.cpp" Scripted.compile_broken
              (compileCmd "/tmp/unit-test-generator-1" "/tmp/unit-test-generator-1/test.cpp"
                 "/tmp/unit-test-generator-1/calc.cpp")
              "test.cpp:3: error: expected ';'" (ErrLibrary "exit status 1"))
    as [[_ H] | [[Ha _] | [Hn _]]].
  - vm_compute. repeat (first [left; reflexivity | right]).
  - exact H.
  - discriminate Ha.
  - discriminate Hn.
Defined.

(** ** Further properties of the generation client *)

Lemma validate_Accepted_length (output text : string) :
  validate output = Accepted text -> (250 <= String.length output)%nat.
Proof.
  unfold validate. destruct (String.length output <? 250)%nat eqn:H; [discriminate|].
  intros _. now apply Nat.ltb_ge.
Qed.

(** X5.  What [generateUnitTests] returns: it always returns; with an
    error the text is empty, and the error is the one of the listing of the
    models or the exhausted error; without an error the text is one the
    validator accepts, of at least 250 bytes.  When the listing fails the
    backend is not called at all. *)
Theorem generateUnitTests_returns {World : Type} {host : Host World}
  (model code : string) (w : World) :
  exists output oe,
    result_of (generateUnitTests model code w) = Done (output, oe) /\
    match oe with
    | Some e =>
        output = EmptyString /\
        ((fst (client_List w) = Failure e /\
          trace_of (generateUnitTests model code w) = [EvList (Failure e)]) \/
         (e = ErrExhausted /\ exists listed, fst (client_List w) = Success listed))
    | None =>
        validate output = Accepted output /\ (250 <= String.length output)%nat /\
        exists listed, fst (client_List w) = Success listed
    end.
Proof.
  destruct (generateUnitTests_events model code w)
    as [[e [w' [El E]]] | [listed [w1 [o [w' [t [El [Hev E]]]]]]]];
    rewrite E, El; unfold result_of, trace_of; cbn [fst snd].
  - exists EmptyString, (Some e). split; [reflexivity|]. split; [reflexivity|]. now left.
  - pose proof (models_events_outcome _ _ _ _ Hev) as Hout. destruct o as [out|].
    + exists out, None. split; [reflexivity|].
      destruct Hout as [t0 [req [raw [name [wr [_ [_ [Hv _]]]]]]]].
      split; [exact Hv|]. split; [now apply (validate_Accepted_length _ _ Hv)|].
      now exists listed.
    + exists EmptyString, (Some ErrExhausted). split; [reflexivity|].
      split; [reflexivity|]. right. split; [reflexivity | now exists listed].
Qed.

(** X6.  The list of lines 55-60: the requested model comes first and
    occurs once, and the list holds the requested model and the listed
    ones, nothing else. *)
Theorem available_models_spec (model : string) (listed : list string) :
  hd_error (available_models model listed) = Some model /\
  count_occ string_dec (available_models model listed) model = 1%nat /\
  (forall name, In name (available_models model listed) <-> name = model \/ In name listed) /\
  (List.length (available_models model listed) <= S (List.length listed))%nat.
Proof.
  unfold available_models. split; [reflexivity|]. split; [|split].
  - cbn [count_occ]. destruct (string_dec model model) as [_|Hne]; [|now destruct Hne].
    f_equal. apply count_occ_not_In. rewrite filter_In. intros [_ H].
    rewrite String.eqb_refl in H. discriminate.
  - intros name. cbn [In]. rewrite filter_In. split.
    + intros [H | [H _]]; [now left | now right].
    + intros [H | H]; [now left|].
      destruct (String.eqb name model) eqn:E.
      * left. apply String.eqb_eq in E. now subst.
      * right. now split.
  - cbn [List.length]. apply le_n_S, filter_length_le.
Qed.

Lemma models_called_app (t1 t2 : list Event) :
  models_called (t1 ++ t2) = (models_called t1 ++ models_called t2)%list.
Proof. unfold models_called. apply flat_map_app. Qed.

Lemma attempt_events_models req m n t o :
  attempt_events req m n t o -> models_called t = [Model req].
Proof. intros H. destruct H; reflexivity. Qed.

Lemma attempts_events_models req m ns t o :
  attempts_events req m ns t o ->
  exists j, (j <= List.length ns)%nat /\ models_called t = repeat (Model req) j /\
            (o = None -> j = List.length ns).
Proof.
  induction 1 as [|n rest t1 t2 r H1 _ [j [Hj [Hm Hn]]]|n rest t out H1].
  - exists 0%nat. now repeat split.
  - exists (S j). rewrite models_called_app, (attempt_events_models _ _ _ _ _ H1), Hm.
    cbn [List.length]. repeat split; [lia|]. intros E. now rewrite (Hn E).
  - exists 1%nat. rewrite (attempt_events_models _ _ _ _ _ H1).
    cbn [List.length]. repeat split; [lia | discriminate].
Qed.

Lemma firstn_repeat_prefix (m : string) (j : nat) (rest : list string) :
  (j <= 3)%nat -> repeat m j = firstn j (repeat m 3 ++ rest).
Proof.
  intros Hj. destruct j as [|[|[|[|j]]]]; try reflexivity. lia.
Qed.

Lemma models_events_models req ms t o :
  models_events req ms t o ->
  exists k, models_called t = firstn k (flat_map (fun m => repeat m 3) ms).
Proof.
  induction 1 as [req|req m rest t1 t2 r H1 _ [k Hk]|req m rest t out H1].
  - now exists 0%nat.
  - destruct (attempts_events_models _ _ _ _ _ H1) as [j [_ [Hm Hn]]].
    rewrite (Hn eq_refl) in Hm. cbn [List.length seq set_Model Model] in Hm.
    exists (3 + k)%nat. rewrite models_called_app, Hm, Hk. reflexivity.
  - destruct (attempts_events_models _ _ _ _ _ H1) as [j [Hj [Hm _]]].
    cbn [List.length seq set_Model Model] in Hj, Hm.
    exists j. rewrite Hm. cbn [flat_map]. now apply firstn_repeat_prefix.
Qed.

(** X7.  The order of the calls: the models of the requests of a run,
    in the order in which they are sent, are an initial part of the list
    that repeats each available model three times, the requested model
    first. *)
Theorem calls_follow_the_matrix {World : Type} {host : Host World}
  (model code : string) (w : World) (listed : list string) :
  fst (client_List w) = Success listed ->
  exists k,
    models_called (trace_of (generateUnitTests model code w)) =
    firstn k (flat_map (fun m => repeat m 3) (available_models model listed)).
Proof.
  intros Hlist.
  destruct (generateUnitTests_events model code w)
    as [[e [w' [El _]]] | [listed' [w1 [o [w' [t [El [Hev E]]]]]]]];
    rewrite El in Hlist; cbn in Hlist; [discriminate|].
  injection Hlist as ->. rewrite E. unfold trace_of. cbn [snd].
  change (models_called (EvList (Success listed) :: t)) with (models_called t).
  eapply models_events_models; eassumption.
Qed.

Lemma calls_follow_the_matrix_witness :
  exists k,
    models_called (trace_of Scripted.happy_generation) =
    firstn k ["qwen2.5-coder:7b"; "qwen2.5-coder:7b"; "qwen2.5-coder:7b";
              "llama3"; "llama3"; "llama3"].
Proof.
  exact (calls_follow_the_matrix (host := Scripted.host)
           default_model Scripted.calc_cpp Scripted.happy
           ["qwen2.5-coder:7b"; "llama3"] eq_refl).
Defined.

Lemma attempt_events_counts req m n t o :
  attempt_events req m n t o ->
  List.length (filter is_Sleep t) = List.length (filter is_failed_call t) /\
  List.length (filter is_RawResponse_write t) = List.length (filter is_answered_call t).
Proof. intros H. destruct H; split; reflexivity. Qed.

Lemma attempts_events_counts req m ns t o :
  attempts_events req m ns t o ->
  List.length (filter is_Sleep t) = List.length (filter is_failed_call t) /\
  List.length (filter is_RawResponse_write t) = List.length (filter is_answered_call t).
Proof.
  induction 1 as [|n rest t1 t2 r H1 _ [IH1 IH2]|n rest t out H1].
  - split; reflexivity.
  - destruct (attempt_events_counts _ _ _ _ _ H1) as [E1 E2].
    rewrite !filter_app, !length_app. split; congruence.
  - eapply attempt_events_counts; eassumption.
Qed.

Lemma models_events_counts req ms t o :
  models_events req ms t o ->
  List.length (filter is_Sleep t) = List.length (filter is_failed_call t) /\
  List.length (filter is_RawResponse_write t) = List.length (filter is_answered_call t).
Proof.
  induction 1 as [req|req m rest t1 t2 r H1 _ [IH1 IH2]|req m rest t out H1].
  - split; reflexivity.
  - destruct (attempts_events_counts _ _ _ _ _ H1) as [E1 E2].
    rewrite !filter_app, !length_app. split; congruence.
  - eapply attempts_events_counts; eassumption.
Qed.

(** X8.  In a run of [generateUnitTests] there are as many pauses as
    failed calls of the backend and as many artifacts written as answered
    calls; a run never writes outside the artifacts and never starts a
    command. *)
Theorem pauses_and_artifacts_counted {World : Type} {host : Host World}
  (model code : string) (w : World) :
  List.length (filter is_Sleep (trace_of (generateUnitTests model code w)))
    = List.length (filter is_failed_call (trace_of (generateUnitTests model code w))) /\
  List.length (filter is_RawResponse_write (trace_of (generateUnitTests model code w)))
    = List.length (filter is_answered_call (trace_of (generateUnitTests model code w))) /\
  Forall (fun ev => match ev with
                    | EvWriteFile site _ _ _ => site = RawResponse
                    | EvCombinedOutput _ _ _ => False
                    | _ => True
                    end) (trace_of (generateUnitTests model code w)).
Proof.
  destruct (generateUnitTests_events model code w)
    as [[e [w' [El E]]] | [listed [w1 [o [w' [t [El [Hev E]]]]]]]];
    rewrite E; unfold trace_of; cbn [snd].
  - repeat split. repeat constructor.
  - destruct (models_events_counts _ _ _ _ Hev) as [E1 E2].
    cbn [filter is_Sleep is_failed_call is_RawResponse_write is_answered_call].
    split; [exact E1|]. split; [exact E2|].
    constructor; [exact I|].
    assert (Hattempt : forall rq m n t' o',
               attempt_events rq m n t' o' ->
               Forall (fun ev => match ev with
                                 | EvWriteFile site _ _ _ => site = RawResponse
                                 | EvCombinedOutput _ _ _ => False
                                 | _ => True
                                 end) t').
    { intros rq m n t' o' H. destruct H; repeat constructor. }
    assert (Hattempts : forall rq m ns t' o',
               attempts_events rq m ns t' o' ->
               Forall (fun ev => match ev with
                                 | EvWriteFile site _ _ _ => site = RawResponse
                                 | EvCombinedOutput _ _ _ => False
                                 | _ => True
                                 end) t').
    { intros rq m ns t' o' H.
      induction H as [|n rest t1 t2 r H1 _ IH|n rest t' out H1].
      - constructor.
      - apply Forall_app. split; [eapply Hattempt; eassumption | exact IH].
      - eapply Hattempt; eassumption. }
    clear E E1 E2 El.
    induction Hev as [req|req m rest t1 t2 r H1 _ IH|req m rest t out H1].
    + constructor.
    + apply Forall_app. split; [eapply Hattempts; eassumption | exact IH].
    + eapply Hattempts; eassumption.
Qed.

(** ** Further properties of the loop body *)

Lemma IsNotExist_true (st : option error) : IsNotExist st = true <-> st = Some ErrNotExist.
Proof.
  split; [|now intros ->].
  destruct st as [[]|]; cbn; try discriminate. reflexivity.
Qed.

Section SkippedUnits.

Context {World : Type} {host : Host World}.

(** What [pairing_check] answers, and the one call it makes. *)
Lemma pairing_check_spec filePath (w : World) :
  exists skip w' t,
    pairing_check filePath w = (Done skip, w', t) /\
    (List.length t <= 1)%nat /\ Forall (fun ev => is_Stat ev = true) t /\
    (skip = true <->
     (strings.HasSuffix filePath ".h" = true /\
      fst (os_Stat (strings.Replace1 filePath ".h" ".cpp") w) = Some ErrNotExist) \/
     (strings.HasSuffix filePath ".h" = false /\
      strings.HasSuffix filePath ".cpp" = true /\
      fst (os_Stat (strings.Replace1 filePath ".cpp" ".h") w) = Some ErrNotExist)).
Proof.
  unfold pairing_check, bind, Stat, ret.
  destruct (strings.HasSuffix filePath ".h") eqn:Hh.
  - destruct (os_Stat (strings.Replace1 filePath ".h" ".cpp") w) as [st w1].
    do 3 eexists. split; [reflexivity|]. cbn [fst List.length app].
    split; [lia|]. split; [repeat constructor|].
    rewrite IsNotExist_true. split.
    + intros ->. now left.
    + intros [[_ H] | [H _]]; [exact H | discriminate].
  - destruct (strings.HasSuffix filePath ".cpp") eqn:Hc.
    + destruct (os_Stat (strings.Replace1 filePath ".cpp" ".h") w) as [st w1].
      do 3 eexists. split; [reflexivity|]. cbn [fst List.length app].
      split; [lia|]. split; [repeat constructor|].
      rewrite IsNotExist_true. split.
      * intros ->. right. now repeat split.
      * intros [[H _] | [_ [_ H]]]; [discriminate | exact H].
    + do 3 eexists. split; [reflexivity|]. cbn [List.length].
      split; [lia|]. split; [constructor|]. split; [discriminate|].
      intros [[H _] | [_ [H _]]]; discriminate.
Qed.

Lemma process_unit_after_pairing filePath content (w w1 : World) tp skip :
  pairing_check filePath w = (Done skip, w1, tp) ->
  (skip = true ->
   process_unit filePath content w = (Done Skipped, w1, tp)) /\
  (skip = false ->
   result_of (process_unit filePath content w) <> Done Skipped).
Proof.
  intros Ep. unfold process_unit, bind. rewrite Ep. split.
  - intros ->. cbn [ret]. now rewrite app_nil_r.
  - intros ->.
    destruct (generateUnitTests_generation default_model content w1)
      as [[tests gerr] [w2 [tg [Eg _]]]].
    rewrite Eg. destruct gerr as [err|]; [cbn; discriminate|].
    destruct (runTestsAndCoverage_events tests (source_file_of filePath) w2)
      as [[[passed coverage] cerr] [w3 [tc [Ec _]]]].
    rewrite Ec. destruct passed, cerr as [err|]; try (cbn; discriminate).
    unfold WriteFile.
    destruct (os_WriteFile (test_file_of filePath) tests w3) as [[err|] w4];
      cbn; discriminate.
Qed.

End SkippedUnits.

(** X9.  A unit is skipped exactly when [os.Stat] on its companion path
    (the first [.h] replaced by [.cpp] for a path ending in [.h], the first
    [.cpp] replaced by [.h] for another path ending in [.cpp]) answers that
    the file does not exist; any other answer of [os.Stat], another error
    included, lets the unit through, and so does a path with neither
    ending.  A skipped unit costs that one call: the backend is not
    called, nothing is written, no command is run. *)
Theorem skipped_iff_companion_missing {World : Type} {host : Host World}
  (filePath content : string) (w : World) :
  (result_of (process_unit filePath content w) = Done Skipped <->
   (strings.HasSuffix filePath ".h" = true /\
    fst (os_Stat (strings.Replace1 filePath ".h" ".cpp") w) = Some ErrNotExist) \/
   (strings.HasSuffix filePath ".h" = false /\
    strings.HasSuffix filePath ".cpp" = true /\
    fst (os_Stat (strings.Replace1 filePath ".cpp" ".h") w) = Some ErrNotExist)) /\
  (result_of (process_unit filePath content w) = Done Skipped ->
   (List.length (trace_of (process_unit filePath content w)) <= 1)%nat /\
   Forall (fun ev => is_Stat ev = true) (trace_of (process_unit filePath content w))).
Proof.
  destruct (pairing_check_spec filePath w) as [skip [w1 [tp [Ep [Hlen [Hstat Hskip]]]]]].
  destruct (process_unit_after_pairing filePath content w w1 tp skip Ep) as [Hyes Hno].
  destruct skip.
  - rewrite (Hyes eq_refl). unfold result_of, trace_of. cbn [fst snd]. split.
    + split; [intros _; now apply Hskip | reflexivity].
    + intros _. now split.
  - split.
    + split; [intros H; now destruct (Hno eq_refl)|].
      intros H. apply Hskip in H. discriminate.
    + intros H. now destruct (Hno eq_refl).
Qed.

(** ** [readCodebase] and the start of [main] *)

Lemma files_read_app (t1 t2 : list Event) :
  files_read (t1 ++ t2) = (files_read t1 ++ files_read t2)%list.
Proof. unfold files_read. apply flat_map_app. Qed.

Section Codebase.

Context {World : Type} {host : Host World}.

(** The callback of the walk over the entries: it always returns; what
    it read and what it returns, by the way it ended. *)
Lemma readCodebase_walk_spec entries acc (w : World) :
  exists files oe w' t,
    readCodebase_walk entries acc w = (Done (files, oe), w', t) /\
    Forall (fun ev => is_startup ev = true) t /\
    generate_calls t = 0%nat /\
    match oe with
    | None =>
        Forall (fun entry => walk_err entry = None) entries /\
        map fst files = (map fst acc ++ map walk_path (filter selected entries))%list /\
        files_read t = map walk_path (filter selected entries) /\
        (forall path text, In (path, text) files ->
           In (path, text) acc \/ In (EvReadFile path (Success text)) t)
    | Some err =>
        exists before entry after,
          entries = (before ++ entry :: after)%list /\
          Forall (fun entry => walk_err entry = None) before /\
          ((walk_err entry = Some err /\
            files_read t = map walk_path (filter selected before)) \/
           (walk_err entry = None /\ selected entry = true /\
            In (EvReadFile (walk_path entry) (Failure err)) t /\
            files_read t = (map walk_path (filter selected before) ++ [walk_path entry])%list))
    end.
Proof.
  revert acc w. induction entries as [|entry rest IH]; intros acc w; cbn [readCodebase_walk].
  - exists acc, None, w, []. split; [reflexivity|]. split; [constructor|].
    split; [reflexivity|]. cbn. rewrite app_nil_r. repeat split; auto.
  - destruct (walk_err entry) as [err|] eqn:Herr.
    { exists acc, (Some err), w, []. split; [reflexivity|]. split; [constructor|].
      split; [reflexivity|]. exists [], entry, rest. repeat split; [constructor|].
      left. now split. }
    fold (selected entry). destruct (selected entry) eqn:Hsel.
    + unfold bind, ReadFile.
      destruct (os_ReadFile (walk_path entry) w) as [[text|err] w1].
      * destruct (IH (acc ++ [(walk_path entry, text)])%list w1)
          as [files [oe [w2 [t2 [E2 [Hs [Hg Hspec]]]]]]].
        rewrite E2. exists files, oe, w2, (EvReadFile (walk_path entry) (Success text) :: t2).
        split; [reflexivity|]. split; [constructor; [reflexivity | exact Hs]|].
        split; [exact Hg|]. destruct oe as [err|].
        -- destruct Hspec as [before [e [after [-> [Hb Hcase]]]]].
           exists (entry :: before), e, after. split; [reflexivity|].
           split; [now constructor|]. cbn [filter]. rewrite Hsel. cbn [map files_read flat_map app].
           destruct Hcase as [[He Hr] | [He [Hse [Hin Hr]]]].
           ++ left. split; [exact He|]. fold (files_read t2). now rewrite Hr.
           ++ right. repeat split; try assumption; [now right|].
              fold (files_read t2). now rewrite Hr.
        -- destruct Hspec as [Hall [Hfiles [Hreads Hin]]].
           split; [now constructor|]. cbn [filter]. rewrite Hsel.
           split; [|split].
           ++ rewrite Hfiles, map_app. cbn [map fst]. now rewrite <- app_assoc.
           ++ cbn [files_read flat_map app map]. fold (files_read t2). now rewrite Hreads.
           ++ intros path text' Hp. destruct (Hin _ _ Hp) as [Hacc | Hev].
              ** apply in_app_or in Hacc as [Hacc | [E | []]]; [now left|].
                 injection E as <- <-. right. now left.
              ** right. now right.
      * exists acc, (Some err), w1, [EvReadFile (walk_path entry) (Failure err)].
        split; [reflexivity|]. split; [repeat constructor|]. split; [reflexivity|].
        exists [], entry, rest. repeat split; [constructor|].
        right. repeat split; try assumption. now left.
    + destruct (IH acc w) as [files [oe [w2 [t2 [E2 [Hs [Hg Hspec]]]]]]].
      rewrite E2. exists files, oe, w2, t2. split; [reflexivity|].
      split; [exact Hs|]. split; [exact Hg|]. destruct oe as [err|].
      * destruct Hspec as [before [e [after [-> [Hb Hcase]]]]].
        exists (entry :: before), e, after. split; [reflexivity|].
        split; [now constructor|]. cbn [filter]. now rewrite Hsel.
      * destruct Hspec as [Hall [Hfiles [Hreads Hin]]].
        split; [now constructor|]. cbn [filter]. now rewrite Hsel.
Qed.

End Codebase.

(** X10.  When [readCodebase] returns without an error, no entry of the
    walk carried an error, the files of the map are, in the order of the
    walk, the entries that are not directories and whose name ends in
    [.cpp] or [.h], exactly those files were read, and each is mapped to
    the text that was read from it. *)
Theorem readCodebase_selects_sources {World : Type} {host : Host World}
  (dir : string) (w : World) (files : list (string * string)) :
  result_of (readCodebase dir w) = Done (files, None) ->
  Forall (fun entry => walk_err entry = None) (fst (filepath_Walk dir w)) /\
  map fst files = map walk_path (filter selected (fst (filepath_Walk dir w))) /\
  files_read (trace_of (readCodebase dir w))
    = map walk_path (filter selected (fst (filepath_Walk dir w))) /\
  (forall path text, In (path, text) files ->
     In (EvReadFile path (Success text)) (trace_of (readCodebase dir w))).
Proof.
  unfold readCodebase, bind, Walk.
  destruct (filepath_Walk dir w) as [entries w1]. cbn [fst].
  destruct (readCodebase_walk_spec entries [] w1) as [fs [oe [w2 [t2 [E2 [_ [_ Hspec]]]]]]].
  rewrite E2. unfold result_of, trace_of. cbn [fst snd].
  intros [= -> ->]. destruct Hspec as [Hall [Hfiles [Hreads Hin]]].
  split; [exact Hall|]. split; [exact Hfiles|]. split; [exact Hreads|].
  intros path text Hp. destruct (Hin _ _ Hp) as [[] | Hev]. now right.
Qed.

Lemma readCodebase_selects_sources_witness :
  map fst [("codebase/calc.cpp", Scripted.calc_cpp); ("codebase/calc.h", "class Calculator;")]
    = ["codebase/calc.cpp"; "codebase/calc.h"] /\
  files_read (trace_of Scripted.tree_read) = ["codebase/calc.cpp"; "codebase/calc.h"].
Proof.
  destruct (readCodebase_selects_sources (host := Scripted.host) "./codebase"
              (Scripted.with_walked Scripted.walked_tree Scripted.happy)
              [("codebase/calc.cpp", Scripted.calc_cpp); ("codebase/calc.h", "class Calculator;")])
    as [_ [Hfiles [Hreads _]]].
  - vm_compute. reflexivity.
  - split; [exact Hfiles | exact Hreads].
Defined.

(** X11.  When [readCodebase] returns an error, the walk stopped at the
    first entry that carried an error or could not be read: the error is
    that of this entry, the entries before it carried none, and no file of
    an entry after it was read. *)
Theorem readCodebase_stops_at_first_error {World : Type} {host : Host World}
  (dir : string) (w : World) (files : list (string * string)) (err : error) :
  result_of (readCodebase dir w) = Done (files, Some err) ->
  exists before entry after,
    fst (filepath_Walk dir w) = (before ++ entry :: after)%list /\
    Forall (fun entry => walk_err entry = None) before /\
    ((walk_err entry = Some err /\
      files_read (trace_of (readCodebase dir w)) = map walk_path (filter selected before)) \/
     (walk_err entry = None /\ selected entry = true /\
      In (EvReadFile (walk_path entry) (Failure err)) (trace_of (readCodebase dir w)) /\
      files_read (trace_of (readCodebase dir w))
        = (map walk_path (filter selected before) ++ [walk_path entry])%list)).
Proof.
  unfold readCodebase, bind, Walk.
  destruct (filepath_Walk dir w) as [entries w1]. cbn [fst].
  destruct (readCodebase_walk_spec entries [] w1) as [fs [oe [w2 [t2 [E2 [_ [_ Hspec]]]]]]].
  rewrite E2. unfold result_of, trace_of. cbn [fst snd].
  intros [= -> ->]. destruct Hspec as [before [entry [after [-> [Hb Hcase]]]]].
  exists before, entry, after. split; [reflexivity|]. split; [exact Hb|].
  destruct Hcase as [[He Hr] | [He [Hs [Hin Hr]]]].
  - left. now split.
  - right. repeat split; try assumption. now right.
Qed.

Lemma readCodebase_stops_at_first_error_witness :
  exists before entry after,
    Scripted.walked_broken = (before ++ entry :: after)%list /\
    Forall (fun entry => walk_err entry = None) before /\
    ((walk_err entry = Some (ErrLibrary "permission denied") /\
      files_read (trace_of Scripted.broken_read) = map walk_path (filter selected before)) \/
     (walk_err entry = None /\ selected entry = true /\
      In (EvReadFile (walk_path entry) (Failure (ErrLibrary "permission denied")))
         (trace_of Scripted.broken_read) /\
      files_read (trace_of Scripted.broken_read)
        = (map walk_path (filter selected before) ++ [walk_path entry])%list)).
Proof.
  apply (readCodebase_stops_at_first_error (host := Scripted.host) "./codebase"
           (Scripted.with_walked Scripted.walked_broken Scripted.happy)
           [("codebase/calc.cpp", Scripted.calc_cpp)]).
  vm_compute. reflexivity.
Defined.

Section MainRuns.

Context {World : Type} {host : Host World}.


End MainRuns.


(** ** Further properties of the validator *)

Lemma last_byte_app_nonempty (a b : string) :
  b <> EmptyString -> last_byte (a ++ b) = last_byte b.
Proof.
  intros Hb. destruct b as [|c b]; [now destruct Hb|]. apply last_byte_append.
Qed.

Lemma all_bytes_last_byte (p : ascii -> bool) (s : string) (c : ascii) :
  all_bytes p s = true -> last_byte s = Some c -> p c = true.
Proof.
  induction s as [|d s IH]; [discriminate|].
  cbn [all_bytes last_byte]. intros H Hl. apply andb_true_iff in H as [Hd H].
  destruct s as [|e s]; [injection Hl as <-; exact Hd | now apply IH].
Qed.

(** X13.  The check of lines 156-160 looks at the end of the text only:
    a text whose last byte is a closing brace is never reported as an
    incomplete test body, whatever it holds before. *)
Theorem closed_text_is_not_incomplete (output : string) :
  last_byte output = Some "}"%char ->
  MatchString incomplete_test_re output = false.
Proof.
  intros Hlast. destruct (MatchString incomplete_test_re output) eqn:Hm; [|reflexivity].
  apply MatchString_incomplete in Hm.
  destruct Hm as [pre [name [ws [b [-> [_ [_ [_ Hb]]]]]]]].
  assert (Hne : forall x : string, (0 < String.length x)%nat -> x <> EmptyString).
  { intros x Hx ->. cbn in Hx. lia. }
  rewrite (last_byte_app_nonempty pre) in Hlast
    by (apply Hne; rewrite !length_append_str; cbn; lia).
  rewrite (last_byte_app_nonempty "TEST(") in Hlast
    by (apply Hne; rewrite !length_append_str; cbn; lia).
  rewrite (last_byte_app_nonempty name) in Hlast
    by (apply Hne; rewrite !length_append_str; cbn; lia).
  rewrite (last_byte_app_nonempty ")") in Hlast
    by (apply Hne; rewrite !length_append_str; cbn; lia).
  rewrite (last_byte_app_nonempty ws) in Hlast
    by (apply Hne; rewrite !length_append_str; cbn; lia).
  cbn [append last_byte] in Hlast. destruct b as [|c b]; [discriminate|].
  apply (all_bytes_last_byte _ _ _ Hb) in Hlast. discriminate.
Qed.

Lemma closed_text_is_not_incomplete_witness :
  MatchString incomplete_test_re Scripted.good_tests = false.
Proof.
  apply closed_text_is_not_incomplete. vm_compute. reflexivity.
Defined.

(** ** Further properties of the coverage gate *)

(** X14.  The four ways out of lines 276-292.  Without an error the
    flag is set and the coverage, the number read from the report, is at
    least 80.  The flag is cleared in one case only, the coverage being
    read and below 80, with the error that carries it.  A report without
    the pattern and a percentage that does not parse give the flag set,
    the coverage 0 and their errors. *)
Theorem coverage_gate_outcomes (gcovOutput : string) :
  match coverage_gate gcovOutput with
  | (passed, coverage, None) =>
      passed = true /\ f64_ge coverage f64_80 /\
      exists whole percentage rest,
        FindStringSubmatch_coverage gcovOutput = Some (whole :: percentage :: rest) /\
        strconv.ParseFloat percentage = (coverage, None)
  | (passed, coverage, Some (ErrBelowThreshold c)) =>
      passed = false /\ c = coverage /\ f64_lt coverage f64_80 = true
  | (passed, coverage, Some (ErrParseGcov output)) =>
      passed = true /\ coverage = f64_0 /\ output = gcovOutput
  | (passed, coverage, Some (ErrParseCoverage (ErrNum _))) =>
      passed = true /\ coverage = f64_0
  | (_, _, Some _) => False
  end.
Proof.
  destruct (coverage_gate gcovOutput) as [[passed coverage] oe] eqn:Hgate.
  destruct oe as [err|].
  - unfold coverage_gate in Hgate.
    destruct (FindStringSubmatch_coverage gcovOutput) as [[|whole [|percentage rest]]|];
      try (injection Hgate as <- <- <-; now repeat split).
    destruct (strconv.ParseFloat percentage) as [c [e|]];
      [injection Hgate as <- <- <-; now repeat split|].
    destruct (f64_lt c f64_80) eqn:Hlt; [|discriminate].
    injection Hgate as <- <- <-. now repeat split.
  - destruct (coverage_gate_passed _ _ _ Hgate) as [-> [whole [pct [rest [Hf [Hp Hlt]]]]]].
    split; [reflexivity|]. split; [eapply parsed_not_below_is_at_least; eassumption|].
    now exists whole, pct, rest.
Qed.

Lemma is_digit_not_dot (c : ascii) : strconv.is_digit c = true -> Ascii.eqb c "." = false.
Proof.
  intros H. destruct (Ascii.eqb_spec c "."%char) as [->|]; [discriminate | reflexivity].
Qed.

(** A text with two dots, or with a dot after one was read, is not a
    number. *)
Lemma readFloat_second_dot (s : string) (sawdot sawdigits : bool) (m : Z) (k : nat) :
  ((if sawdot then 1 else 2) <= count_byte "." s)%nat ->
  strconv.readFloat s sawdot sawdigits m k = None.
Proof.
  revert sawdot sawdigits m k.
  induction s as [|c s IH]; intros sawdot sawdigits m k H.
  - cbn in H. destruct sawdot; lia.
  - cbn [strconv.readFloat count_byte] in *.
    destruct (strconv.is_digit c) eqn:Hd.
    + rewrite (is_digit_not_dot _ Hd) in H. apply IH. exact H.
    + destruct (Ascii.eqb c ".") eqn:Hdot; [|reflexivity].
      destruct sawdot; [reflexivity|]. apply IH. cbn in H. lia.
Qed.

(** X15.  The group [[\d.]+] lets through texts that are not numbers: a
    percentage with two dots is captured by the pattern and refused by
    [strconv.ParseFloat], and the run returns the flag set, the coverage
    0 and the parse error of lines 282-284. *)
Theorem percentage_with_two_dots (gcovOutput whole percentage : string) (rest : list string) :
  FindStringSubmatch_coverage gcovOutput = Some (whole :: percentage :: rest) ->
  (2 <= count_byte "." percentage)%nat ->
  coverage_gate gcovOutput = (true, f64_0, Some (ErrParseCoverage (ErrNum strconv.ErrSyntax))).
Proof.
  intros Hfind Hdots. unfold coverage_gate. rewrite Hfind.
  unfold strconv.ParseFloat. now rewrite (readFloat_second_dot percentage false false 0 0 Hdots).
Qed.

Lemma percentage_with_two_dots_witness :
  coverage_gate "Lines executed:9.2.0% of 10"
    = (true, f64_0, Some (ErrParseCoverage (ErrNum strconv.ErrSyntax))).
Proof.
  apply (percentage_with_two_dots _ "Lines executed:9.2.0% of 10" "9.2.0" ["10"]).
  - vm_compute. reflexivity.
  - vm_compute. lia.
Defined.

Lemma span_spec (p : ascii -> bool) (s a b : string) :
  span p s = (a, b) -> s = a ++ b /\ all_bytes p a = true.
Proof.
  revert a b. induction s as [|c s IH]; intros a b; cbn [span].
  - intros [= <- <-]. now split.
  - destruct (p c) eqn:Hc.
    + destruct (span p s) as [a' b']. intros [= <- <-].
      destruct (IH a' b' eq_refl) as [-> Ha]. cbn [append all_bytes].
      now rewrite Hc, Ha.
    + intros [= <- <-]. now split.
Qed.

Lemma span_stop (p : ascii -> bool) (a : string) (c : ascii) (b : string) :
  all_bytes p a = true -> p c = false -> span p (a ++ String c b) = (a, String c b).
Proof.
  intros Ha Hc. induction a as [|d a IH]; cbn [append span].
  - now rewrite Hc.
  - cbn [all_bytes] in Ha. apply andb_true_iff in Ha as [Hd Ha].
    now rewrite Hd, (IH Ha).
Qed.

Lemma span_first (p : ascii -> bool) (c : ascii) (s : string) :
  p c = true -> is_empty (fst (span p (String c s))) = false.
Proof. intros Hc. cbn [span]. rewrite Hc. now destruct (span p s). Qed.

Lemma is_empty_false (s : string) : is_empty s = false <-> s <> EmptyString.
Proof. destruct s; cbn; split; congruence. Qed.

(** A match of the hand-written matcher is a word of the pattern. *)
Lemma coverage_match_here_sound (s : string) (m : list string) :
  coverage_match_here s = Some m ->
  exists g1 g2 tail,
    m = [lines_executed ++ g1 ++ percent_of ++ g2; g1; g2] /\
    s = (lines_executed ++ g1 ++ percent_of ++ g2) ++ tail /\
    lang (body coverage_re) (lines_executed ++ g1 ++ percent_of ++ g2) /\
    g1 <> EmptyString /\ all_bytes digit_or_dot g1 = true /\
    g2 <> EmptyString /\ all_bytes strconv.is_digit g2 = true.
Proof.
  unfold coverage_match_here.
  destruct (strings.HasPrefix s lines_executed) eqn:Hp; [|discriminate].
  apply HasPrefix_spec in Hp as [s1 ->]. rewrite drop_append.
  destruct (span digit_or_dot s1) as [g1 rest] eqn:Hs1.
  apply span_spec in Hs1 as [-> Hg1].
  destruct (is_empty g1) eqn:He1; [discriminate|].
  destruct (strings.HasPrefix rest percent_of) eqn:Hp2; [|discriminate].
  apply HasPrefix_spec in Hp2 as [s2 ->]. rewrite drop_append.
  destruct (span strconv.is_digit s2) as [g2 tail] eqn:Hs2.
  apply span_spec in Hs2 as [-> Hg2].
  destruct (is_empty g2) eqn:He2; [discriminate|].
  apply is_empty_false in He1, He2.
  intros [= <-]. exists g1, g2, tail. split; [reflexivity|]. split; [|split].
  - now rewrite !append_assoc_str.
  - cbn [body coverage_re].
    apply lang_cat; [now apply lang_Literal_iff|].
    apply lang_cat; [apply lang_Plus_Class_iff; now split|].
    apply lang_cat; [now apply lang_Literal_iff|].
    apply lang_Plus_Class_iff. now split.
  - now repeat split.
Qed.

(** Where the pattern has a word, the hand-written matcher finds a
    match. *)
Lemma coverage_match_here_complete (whole tail : string) :
  lang (body coverage_re) whole ->
  exists m, coverage_match_here (whole ++ tail) = Some m.
Proof.
  cbn [body coverage_re]. intros H.
  apply lang_Cat_iff in H as [l [r1 [-> [Hl H]]]]. apply lang_Literal_iff in Hl. subst l.
  apply lang_Cat_iff in H as [g1 [r2 [-> [Hg1 H]]]].
  apply lang_Plus_Class_iff in Hg1 as [Hne1 Hg1].
  apply lang_Cat_iff in H as [pc [g2 [-> [Hpc Hg2]]]]. apply lang_Literal_iff in Hpc. subst pc.
  apply lang_Plus_Class_iff in Hg2 as [Hne2 Hg2].
  unfold coverage_match_here.
  rewrite !append_assoc_str, HasPrefix_append, drop_append.
  change (percent_of ++ g2 ++ tail) with (String "%" (" of " ++ g2 ++ tail)).
  rewrite (span_stop digit_or_dot g1 "%" _ Hg1 eq_refl).
  apply is_empty_false in Hne1. rewrite Hne1.
  change (String "%" (" of " ++ g2 ++ tail)) with (percent_of ++ g2 ++ tail).
  rewrite HasPrefix_append, drop_append.
  destruct g2 as [|c g2]; [now destruct Hne2|].
  cbn [all_bytes] in Hg2. apply andb_true_iff in Hg2 as [Hc _].
  pose proof (span_first strconv.is_digit c (g2 ++ tail) Hc) as Hfirst.
  cbn [append]. destruct (span strconv.is_digit (String c (g2 ++ tail))) as [g2' tail'].
  cbn [fst] in Hfirst. rewrite Hfirst. now eexists.
Qed.

Lemma FindStringSubmatch_coverage_spec (s : string) (m : list string) :
  FindStringSubmatch_coverage s = Some m ->
  exists pre post, s = pre ++ post /\ coverage_match_here post = Some m.
Proof.
  induction s as [|c s IH]; cbn [FindStringSubmatch_coverage].
  - destruct (coverage_match_here EmptyString) eqn:E; [|discriminate].
    intros [= <-]. now exists EmptyString, EmptyString.
  - destruct (coverage_match_here (String c s)) eqn:E.
    + intros [= <-]. now exists EmptyString, (String c s).
    + intros H. destruct (IH H) as [pre [post [-> Hm]]]. now exists (String c pre), post.
Qed.

Lemma FindStringSubmatch_coverage_finds (pre post : string) (m : list string) :
  coverage_match_here post = Some m ->
  exists m', FindStringSubmatch_coverage (pre ++ post) = Some m'.
Proof.
  intros Hm. induction pre as [|c pre IH]; cbn [append].
  - destruct post; cbn [FindStringSubmatch_coverage]; rewrite Hm; now eexists.
  - cbn [FindStringSubmatch_coverage].
    destruct (coverage_match_here (String c (pre ++ post))); [now eexists | exact IH].
Qed.

(** X16.  The slice of line 277 is nil exactly when the pattern
    [Lines executed:([\d.]+)% of (\d+)] matches nowhere in the output of
    gcov; otherwise its first element is a word of the pattern that
    occurs in the output, made of the two texts that follow it: a run of
    digits and dots, and a run of digits. *)
Theorem FindStringSubmatch_agrees_with_pattern (gcovOutput : string) :
  (FindStringSubmatch_coverage gcovOutput = None <->
   MatchString coverage_re gcovOutput = false) /\
  (forall m, FindStringSubmatch_coverage gcovOutput = Some m ->
     exists g1 g2,
       m = [lines_executed ++ g1 ++ percent_of ++ g2; g1; g2] /\
       lang (body coverage_re) (lines_executed ++ g1 ++ percent_of ++ g2) /\
       substring_of (lines_executed ++ g1 ++ percent_of ++ g2) gcovOutput /\
       g1 <> EmptyString /\ all_bytes digit_or_dot g1 = true /\
       g2 <> EmptyString /\ all_bytes strconv.is_digit g2 = true).
Proof.
  split.
  - destruct (FindStringSubmatch_coverage gcovOutput) as [m|] eqn:Hf.
    + split; [discriminate|]. intros Hno. exfalso.
      apply FindStringSubmatch_coverage_spec in Hf as [pre [post [-> Hm]]].
      apply coverage_match_here_sound in Hm as [g1 [g2 [tail [_ [-> [Hl _]]]]]].
      assert (Hyes : MatchString coverage_re
                       (pre ++ (lines_executed ++ g1 ++ percent_of ++ g2) ++ tail) = true).
      { apply MatchString_spec. eexists pre, _. split; [reflexivity|].
        unfold match_here. cbn [anchored_end coverage_re].
        apply prefix_match_spec. eexists _, tail. split; [reflexivity | exact Hl]. }
      congruence.
    + split; [|reflexivity]. intros _.
      destruct (MatchString coverage_re gcovOutput) eqn:Hm; [|reflexivity]. exfalso.
      apply MatchString_spec in Hm as [pre [post [-> Hm]]].
      unfold match_here in Hm. cbn [anchored_end coverage_re] in Hm.
      apply prefix_match_spec in Hm as [whole [tail [-> Hl]]].
      destruct (coverage_match_here_complete whole tail Hl) as [m Hm].
      destruct (FindStringSubmatch_coverage_finds pre _ m Hm) as [m' Hm'].
      congruence.
  - intros m Hf.
    apply FindStringSubmatch_coverage_spec in Hf as [pre [post [-> Hm]]].
    apply coverage_match_here_sound in Hm as [g1 [g2 [tail [-> [-> [Hl Hgroups]]]]]].
    exists g1, g2. split; [reflexivity|]. split; [exact Hl|].
    split; [now exists pre, tail | exact Hgroups].
Qed.

(** ** The path of the test file *)

Lemma last_elem_from_after_slash (cur dir rest : string) :
  last_elem_from cur (dir ++ String filepath.slash rest) = last_elem_from EmptyString rest.
Proof.
  revert cur. induction dir as [|c dir IH]; intros cur; cbn [append last_elem_from].
  - now rewrite Ascii.eqb_refl.
  - destruct (Ascii.eqb c filepath.slash); apply IH.
Qed.

Lemma split_from_no_slash (cur x : string) :
  all_bytes (fun c => negb (Ascii.eqb c filepath.slash)) x = true ->
  filepath.split_from cur x = [strings.rev cur ++ x].
Proof.
  revert cur. induction x as [|c x IH]; intros cur H; cbn [filepath.split_from].
  - now rewrite append_empty_r.
  - cbn [all_bytes] in H. apply andb_true_iff in H as [Hc H].
    apply negb_true_iff in Hc. rewrite Hc, (IH _ H). now rewrite rev_cons_append.
Qed.

Lemma all_bytes_append (p : ascii -> bool) (a b : string) :
  all_bytes p (a ++ b) = all_bytes p a && all_bytes p b.
Proof.
  induction a as [|c a IH]; cbn [append all_bytes]; [reflexivity|].
  now rewrite IH, andb_assoc.
Qed.

Lemma eqb_longer (x : string) (lit : string) :
  (String.length lit < String.length x)%nat -> String.eqb x lit = false.
Proof.
  intros H. apply String.eqb_neq. intros ->. lia.
Qed.

(** [filepath.Join("./tests", x)] for a name [x] of one element. *)
Lemma Join_tests (x : string) :
  all_bytes (fun c => negb (Ascii.eqb c filepath.slash)) x = true ->
  (2 < String.length x)%nat ->
  filepath.Join ["./tests"; x] = "tests/" ++ x.
Proof.
  intros Hslash Hlen. unfold filepath.Join. cbn [filter is_empty negb].
  assert (Hne : is_empty x = false) by (destruct x; [cbn in Hlen; lia | reflexivity]).
  rewrite Hne. cbn [negb strings.Join]. unfold filepath.Clean.
  change (is_empty ("./tests" ++ "/" ++ x)) with false. cbv iota.
  change (strings.HasPrefix ("./tests" ++ "/" ++ x) "/") with false. cbv iota zeta.
  unfold filepath.split.
  change (filepath.split_from EmptyString ("./tests" ++ "/" ++ x))
    with ("." :: "tests" :: filepath.split_from EmptyString x).
  rewrite (split_from_no_slash EmptyString x Hslash). cbn [strings.rev append].
  cbn [filepath.clean_elems is_empty orb String.eqb Ascii.eqb Bool.eqb].
  rewrite Hne, (eqb_longer x ".") by (cbn; lia).
  rewrite (eqb_longer x "..") by (cbn; lia).
  cbn [orb List.rev app strings.Join].
  destruct x; [discriminate | reflexivity].
Qed.

(** X17.  The file a unit is persisted to lies directly in the tests
    directory: for a source [name.cpp] or a header [name.h] in a
    directory, with [name] free of separators and of the extension, the
    path of lines 386-390 is [tests/name_test.cpp]. *)
Theorem test_file_directly_in_tests (dir name ext : string) :
  ext = ".cpp" \/ ext = ".h" ->
  all_bytes (fun c => negb (Ascii.eqb c filepath.slash)) name = true ->
  strings.Contains name ext = false ->
  test_file_of (dir ++ "/" ++ name ++ ext) = "tests/" ++ name ++ "_test.cpp".
Proof.
  intros Hext Hslash Hcontains.
  pose proof (Contains_false_no_earlier name ext Hext Hcontains) as Hno.
  assert (Hext_slash : all_bytes (fun c => negb (Ascii.eqb c filepath.slash)) ext = true)
    by (destruct Hext as [-> | ->]; reflexivity).
  assert (Hbase : filepath.Base (dir ++ "/" ++ name ++ ext) = name ++ ext).
  { rewrite Base_last_elem.
    - change ("/" ++ name ++ ext) with (String filepath.slash (name ++ ext)).
      rewrite last_elem_from_after_slash. apply last_elem_from_no_slash.
      now rewrite all_bytes_append, Hslash, Hext_slash.
    - change ("/" ++ name ++ ext) with (String filepath.slash (name ++ ext)).
      rewrite last_elem_from_after_slash, last_elem_from_no_slash
        by now rewrite all_bytes_append, Hslash, Hext_slash.
      cbn [strings.rev append]. destruct Hext as [-> | ->]; apply append_nonempty. }
  assert (Hjoin : filepath.Join ["./tests"; name ++ "_test.cpp"]
                  = "tests/" ++ name ++ "_test.cpp").
  { apply Join_tests.
    - now rewrite all_bytes_append, Hslash.
    - rewrite length_append_str. cbn. lia. }
  unfold test_file_of. rewrite Hbase. destruct Hext as [-> | ->].
  - rewrite HasSuffix_h_of_cpp, (Replace1_no_earlier name ".cpp" "_test.cpp" Hno).
    exact Hjoin.
  - rewrite HasSuffix_append, (Replace1_no_earlier name ".h" "_test.cpp" Hno).
    exact Hjoin.
Qed.

Lemma test_file_directly_in_tests_witness :
  test_file_of ("codebase" ++ "/" ++ "calc" ++ ".cpp") = "tests/" ++ "calc" ++ "_test.cpp".
Proof.
  apply (test_file_directly_in_tests "codebase" "calc" ".cpp").
  - now left.
  - reflexivity.
  - reflexivity.
Defined.

(** ** What the sandbox receives *)

(** X18.  What [runTestsAndCoverage] writes: the text of the tests to
    [test.cpp] in the temporary directory of the run, and copies, under
    their base names in that directory, of what it read from the source
    file and, for a source ending in [.cpp] whose header [os.Stat] found,
    from the header; nothing else. *)
Theorem sandbox_receives_tests_and_sources {World : Type} {host : Host World}
  (testFile sourceFile : string) (w : World)
  (site : WriteSite) (name data : string) (wr : option error) :
  In (EvWriteFile site name data wr) (trace_of (runTestsAndCoverage testFile sourceFile w)) ->
  exists d,
    In (EvMkdirTemp (Success d)) (trace_of (runTestsAndCoverage testFile sourceFile w)) /\
    ((site = SandboxTest /\ name = filepath.Join [d; "test.cpp"] /\ data = testFile) \/
     (site = SandboxCopy /\
      exists src,
        In (EvReadFile src (Success data))
           (trace_of (runTestsAndCoverage testFile sourceFile w)) /\
        name = filepath.Join [d; filepath.Base src] /\
        (src = sourceFile \/
         (strings.HasSuffix sourceFile ".cpp" = true /\
          src = strings.Replace1 sourceFile ".cpp" ".h" /\
          In (EvStat src None) (trace_of (runTestsAndCoverage testFile sourceFile w)))))).
Proof.
  intros Hin.
  destruct (runTestsAndCoverage_setup testFile sourceFile w)
    as [[err E] | [d [ts [oe [tm [res [E [_ [Hs Hm]]]]]]]]]; rewrite E in *.
  { destruct Hin as [Hin | []]. discriminate. }
  destruct Hin as [Hin | Hin]; [discriminate|].
  exists d. split; [now left|].
  assert (Hlift : forall ev, In ev ts ->
            In ev (EvMkdirTemp (Success d) :: ts ++ tm ++ [EvRemoveAll d])).
  { intros ev Hev. right. apply in_or_app. now left. }
  apply in_app_or in Hin as [Hin | Hin].
  - destruct (setup_events_write _ _ _ _ _ _ _ _ _ _ Hs Hin)
      as [H | [-> [src [Hr [[-> ->] | [Hsuf [-> [-> Hst]]]]]]]].
    + now left.
    + right. split; [reflexivity|]. exists sourceFile. repeat split; auto.
    + right. split; [reflexivity|]. exists (strings.Replace1 sourceFile ".cpp" ".h").
      repeat split; auto.
  - exfalso. apply in_app_or in Hin as [Hin | [Hin | []]]; [|discriminate].
    destruct oe as [err|].
    + destruct Hm as [-> _]. destruct Hin.
    + apply measured_commands in Hm. rewrite Forall_forall in Hm.
      apply Hm in Hin. discriminate.
Qed.

Lemma sandbox_receives_tests_and_sources_witness :
  exists d, In (EvMkdirTemp (Success d)) (trace_of Scripted.happy_run).
Proof.
  destruct (sandbox_receives_tests_and_sources (host := Scripted.host)
              Scripted.good_tests "codebase/calc.cpp" Scripted.happy
              SandboxCopy "/tmp/unit-test-generator-1/calc.h" "class Calculator;" None)
    as [d [Hd _]].
  - vm_compute. repeat (first [left; reflexivity | right]).
  - now exists d.
Defined.

(** X19.  A command is started only in a complete sandbox: when the
    trace of [runTestsAndCoverage] holds a command, the write of the tests
    to [test.cpp] and the copy of the source file under its base name
    both succeeded before it, in the directory of the run. *)
Theorem commands_start_in_complete_sandbox {World : Type} {host : Host World}
  (testFile sourceFile : string) (w : World) (cmd : Cmd) (out : string) (r : option error) :
  In (EvCombinedOutput cmd out r) (trace_of (runTestsAndCoverage testFile sourceFile w)) ->
  exists d data t1 t2,
    trace_of (runTestsAndCoverage testFile sourceFile w)
      = (t1 ++ EvCombinedOutput cmd out r :: t2)%list /\
    In (EvMkdirTemp (Success d)) t1 /\
    In (EvWriteFile SandboxTest (filepath.Join [d; "test.cpp"]) testFile None) t1 /\
    In (EvReadFile sourceFile (Success data)) t1 /\
    In (EvWriteFile SandboxCopy (filepath.Join [d; filepath.Base sourceFile]) data None) t1.
Proof.
  intros Hin.
  destruct (runTestsAndCoverage_setup testFile sourceFile w)
    as [[err E] | [d [ts [oe [tm [res [E [_ [Hs Hm]]]]]]]]]; rewrite E in *.
  { destruct Hin as [Hin | []]. discriminate. }
  destruct Hin as [Hin | Hin]; [discriminate|].
  apply in_app_or in Hin as [Hin | Hin].
  { exfalso. eapply setup_not_command; [|eassumption].
    eapply setup_events_no_command; eassumption. }
  apply in_app_or in Hin as [Hin | [Hin | []]]; [|discriminate].
  destruct oe as [err|]; [destruct Hm as [-> _]; destruct Hin|].
  destruct (setup_events_done _ _ _ _ _ Hs) as [Htest [data [Hread Hcopy]]].
  apply in_split in Hin as [ta [tb ->]].
  exists d, data, (EvMkdirTemp (Success d) :: ts ++ ta)%list, (tb ++ [EvRemoveAll d])%list.
  split; [cbn [app]; now rewrite <- !app_assoc|].
  split; [now left|].
  repeat split; right; apply in_or_app; now left.
Qed.

Lemma commands_start_in_complete_sandbox_witness :
  exists d data t1 t2,
    trace_of Scripted.happy_run
      = (t1 ++ EvCombinedOutput (runCmd "/tmp/unit-test-generator-1")
                 "[  PASSED  ] 4 tests." None :: t2)%list /\
    In (EvMkdirTemp (Success d)) t1 /\
    In (EvWriteFile SandboxTest (filepath.Join [d; "test.cpp"]) Scripted.good_tests None) t1 /\
    In (EvReadFile "codebase/calc.cpp" (Success data)) t1 /\
    In (EvWriteFile SandboxCopy (filepath.Join [d; filepath.Base "codebase/calc.cpp"]) data None) t1.
Proof.
  apply (commands_start_in_complete_sandbox (host := Scripted.host)
           Scripted.good_tests "codebase/calc.cpp" Scripted.happy).
  vm_compute. repeat (first [left; reflexivity | right]).
Defined.

(** ** One file per turn *)

Lemma no_TestsOutput_filter (t : list Event) :
  Forall (fun ev => is_TestsOutput_write ev = false) t ->
  filter is_TestsOutput_write t = [].
Proof.
  induction 1 as [|ev t Hev _ IH]; [reflexivity|]. cbn [filter]. now rewrite Hev.
Qed.

(** X20.  A turn of the loop of [main] writes at most one file under
    the tests directory, as its last event, and it ends with the exit
    [Saved] exactly when that write succeeded, with [WriteFailed] exactly
    when it failed; the text written is the one [generateUnitTests]
    returned, unchanged by the sandbox. *)
Theorem one_test_file_per_turn {World : Type} {host : Host World}
  (filePath content : string) (w : World) :
  filter is_TestsOutput_write (trace_of (process_unit filePath content w)) = [] /\
  (forall testFile coverage,
     result_of (process_unit filePath content w) <> Done (Saved testFile coverage)) /\
  (forall testFile err,
     result_of (process_unit filePath content w) <> Done (WriteFailed testFile err))
  \/
  exists t tests coverage wr,
    trace_of (process_unit filePath content w)
      = (t ++ [EvWriteFile TestsOutput (test_file_of filePath) tests wr])%list /\
    filter is_TestsOutput_write t = [] /\
    validate tests = Accepted tests /\
    result_of (process_unit filePath content w)
      = Done (match wr with
              | Some err => WriteFailed (test_file_of filePath) err
              | None => Saved (test_file_of filePath) coverage
              end).
Proof.
  destruct (process_unit_events filePath content w) as [o [w' [t [E H]]]].
  rewrite E. unfold trace_of, result_of. cbn [fst snd].
  destruct H as [tp Hp|tp tg out err Hp Hg|tp tg tests tc passed cov err Hp Hg Hc
                |tp tg tests tc cov Hp Hg Hc|tp tg tests tc cov wr Hp Hg Hc];
    apply pairing_events_Stat in Hp; try apply sandbox_run_coarse in Hc.
  - left. split; [|split; intros; discriminate].
    apply no_TestsOutput_filter. now apply Stat_not_TestsOutput.
  - left. split; [|split; intros; discriminate].
    apply no_TestsOutput_filter. apply Forall_app. split; [now apply Stat_not_TestsOutput|].
    eapply generation_events_not_TestsOutput; eassumption.
  - left. split; [|split; intros; discriminate].
    apply no_TestsOutput_filter. apply Forall_app. split; [now apply Stat_not_TestsOutput|].
    apply Forall_app. split; [eapply generation_events_not_TestsOutput; eassumption|].
    eapply coverage_run_not_TestsOutput; eassumption.
  - left. split; [|split; intros; discriminate].
    apply no_TestsOutput_filter. apply Forall_app. split; [now apply Stat_not_TestsOutput|].
    apply Forall_app. split; [eapply generation_events_not_TestsOutput; eassumption|].
    eapply coverage_run_not_TestsOutput; eassumption.
  - right. exists (tp ++ tg ++ tc)%list, tests, cov, wr.
    split; [now rewrite <- !app_assoc|]. split; [|split; [|reflexivity]].
    + apply no_TestsOutput_filter. apply Forall_app. split; [now apply Stat_not_TestsOutput|].
      apply Forall_app. split; [eapply generation_events_not_TestsOutput; eassumption|].
      eapply coverage_run_not_TestsOutput; eassumption.
    + now destruct (generation_events_accepted _ _ _ _ Hg) as [req [raw [_ [_ Hv]]]].
Qed.

(** ** Normalization *)

Lemma plain_spec (c : ascii) :
  plain c = true -> (nat_of_ascii c < 128)%nat /\ strings.ascii_space c = false.
Proof.
  unfold plain. intros H. apply andb_true_iff in H as [H1 H2].
  apply Nat.ltb_lt in H1. apply negb_true_iff in H2. now split.
Qed.

Lemma space2_plain_first (c c2 : ascii) : plain c = true -> strings.space2 c c2 = false.
Proof.
  intros H. apply plain_spec in H as [H _]. unfold strings.space2.
  replace (nat_of_ascii c =? 194)%nat with false by (symmetry; apply Nat.eqb_neq; lia).
  reflexivity.
Qed.

Lemma space3_plain_first (c c2 c3 : ascii) : plain c = true -> strings.space3 c c2 c3 = false.
Proof.
  intros H. apply plain_spec in H as [H _]. unfold strings.space3.
  replace (nat_of_ascii c =? 225)%nat with false by (symmetry; apply Nat.eqb_neq; lia).
  replace (nat_of_ascii c =? 226)%nat with false by (symmetry; apply Nat.eqb_neq; lia).
  replace (nat_of_ascii c =? 227)%nat with false by (symmetry; apply Nat.eqb_neq; lia).
  reflexivity.
Qed.

Lemma space2_plain_last (c2 c : ascii) : plain c = true -> strings.space2 c2 c = false.
Proof.
  intros H. apply plain_spec in H as [H _]. unfold strings.space2.
  replace (nat_of_ascii c =? 133)%nat with false by (symmetry; apply Nat.eqb_neq; lia).
  replace (nat_of_ascii c =? 160)%nat with false by (symmetry; apply Nat.eqb_neq; lia).
  now rewrite andb_false_r.
Qed.

Lemma space3_plain_last (c3 c2 c : ascii) : plain c = true -> strings.space3 c3 c2 c = false.
Proof.
  intros H. apply plain_spec in H as [H _]. unfold strings.space3.
  replace (nat_of_ascii c =? 128)%nat with false by (symmetry; apply Nat.eqb_neq; lia).
  replace (nat_of_ascii c =? 168)%nat with false by (symmetry; apply Nat.eqb_neq; lia).
  replace (nat_of_ascii c =? 169)%nat with false by (symmetry; apply Nat.eqb_neq; lia).
  replace (nat_of_ascii c =? 175)%nat with false by (symmetry; apply Nat.eqb_neq; lia).
  replace (nat_of_ascii c =? 159)%nat with false by (symmetry; apply Nat.eqb_neq; lia).
  replace (128 <=? nat_of_ascii c)%nat with false by (symmetry; apply Nat.leb_gt; lia).
  cbn [andb orb]. now rewrite !andb_false_r.
Qed.

(** A text that starts with a plain byte has no white space to trim on
    the left. *)
Lemma TrimLeftSpace_plain (c : ascii) (s : string) :
  plain c = true -> strings.TrimLeftSpace (String c s) = String c s.
Proof.
  intros H. cbn [strings.TrimLeftSpace].
  destruct (plain_spec c H) as [_ Hs]. rewrite Hs.
  destruct s as [|c2 s]; [reflexivity|]. rewrite (space2_plain_first c c2 H).
  destruct s as [|c3 s]; [reflexivity|]. now rewrite (space3_plain_first c c2 c3 H).
Qed.

Lemma TrimLeftSpace_rev_plain (c : ascii) (s : string) :
  plain c = true -> strings.TrimLeftSpace_rev (String c s) = String c s.
Proof.
  intros H. cbn [strings.TrimLeftSpace_rev].
  destruct (plain_spec c H) as [_ Hs]. rewrite Hs.
  destruct s as [|c2 s]; [reflexivity|]. rewrite (space2_plain_last c2 c H).
  destruct s as [|c3 s]; [reflexivity|]. now rewrite (space3_plain_last c3 c2 c H).
Qed.

Lemma rev_append (a b : string) : strings.rev (a ++ b) = strings.rev b ++ strings.rev a.
Proof.
  induction a as [|c a IH]; cbn [append strings.rev].
  - now rewrite append_empty_r.
  - now rewrite IH, append_assoc_str.
Qed.

Lemma rev_involutive_str (s : string) : strings.rev (strings.rev s) = s.
Proof.
  induction s as [|c s IH]; [reflexivity|].
  cbn [strings.rev]. rewrite rev_append, IH. reflexivity.
Qed.

Lemma rev_last_byte (s : string) (e : ascii) :
  last_byte s = Some e -> exists s', strings.rev s = String e s'.
Proof.
  induction s as [|c s IH]; [discriminate|].
  cbn [last_byte strings.rev]. destruct s as [|d s].
  - intros [= <-]. now exists EmptyString.
  - intros H. destruct (IH H) as [s' ->]. now exists (s' ++ str1 c).
Qed.

Lemma TrimRightSpace_plain (s : string) (e : ascii) :
  last_byte s = Some e -> plain e = true -> strings.TrimRightSpace s = s.
Proof.
  intros Hl He. unfold strings.TrimRightSpace.
  destruct (rev_last_byte s e Hl) as [s' Hr].
  now rewrite Hr, (TrimLeftSpace_rev_plain e s' He), <- Hr, rev_involutive_str.
Qed.

Lemma TrimSpace_plain (c : ascii) (s : string) (e : ascii) :
  plain c = true -> last_byte (String c s) = Some e -> plain e = true ->
  strings.TrimSpace (String c s) = String c s.
Proof.
  intros Hc Hl He. unfold strings.TrimSpace.
  rewrite (TrimLeftSpace_plain c s Hc). now apply (TrimRightSpace_plain _ e).
Qed.

Lemma take_length_append (a b : string) :
  strings.take (String.length (a ++ b) - String.length b) (a ++ b) = a.
Proof.
  rewrite length_append_str.
  replace (String.length a + String.length b - String.length b)%nat
    with (String.length a) by lia.
  apply take_append.
Qed.

Lemma TrimLeftSpace_rev_space (c : ascii) (s : string) :
  strings.ascii_space c = true ->
  strings.TrimLeftSpace_rev (String c s) = strings.TrimLeftSpace_rev s.
Proof. intros H. cbn [strings.TrimLeftSpace_rev]. now rewrite H. Qed.

(** X21.  Lines 122-124 on an answer whose text starts and ends with
    plain bytes (ASCII, not white space).  Between the two fences the
    text comes out as it is.  With a line break after the closing fence
    the suffix is not found, because it is looked for before the white
    space is trimmed, and the closing fence stays at the end of the
    normalized text. *)
Theorem normalize_fenced_answer (c : ascii) (text : string) (e : ascii) :
  plain c = true ->
  last_byte (String c text) = Some e ->
  plain e = true ->
  normalize (fence_open ++ String c text ++ fence_close) = String c text /\
  normalize (fence_open ++ String c text ++ fence_close ++ nl)
    = String c text ++ fence_close.
Proof.
  intros Hc Hl He. unfold normalize, strings.TrimPrefix, strings.TrimSuffix.
  split.
  - rewrite HasPrefix_append, drop_append, HasSuffix_append, take_length_append.
    now apply (TrimSpace_plain c text e).
  - rewrite HasPrefix_append, drop_append.
    assert (Hlast : last_byte (String c text ++ fence_close ++ nl) = Some (byte 10)).
    { rewrite last_byte_app_nonempty by discriminate.
      now rewrite last_byte_app_nonempty by discriminate. }
    assert (Hs : strings.HasSuffix (String c text ++ fence_close ++ nl) fence_close = false).
    { destruct (strings.HasSuffix (String c text ++ fence_close ++ nl) fence_close) eqn:H;
        [|reflexivity].
      apply (HasSuffix_last_byte _ _ "`"%char) in H; [|reflexivity].
      rewrite Hlast in H. discriminate. }
    rewrite Hs. unfold strings.TrimSpace. cbn [append].
    rewrite (TrimLeftSpace_plain c _ Hc). unfold strings.TrimRightSpace.
    change (String c (text ++ fence_close ++ nl))
      with (String c text ++ fence_close ++ nl).
    rewrite <- append_assoc_str, rev_append.
    assert (Hfence : last_byte (String c text ++ fence_close) = Some "`"%char)
      by now rewrite last_byte_app_nonempty by discriminate.
    destruct (rev_last_byte _ _ Hfence) as [s' Hr]. rewrite Hr.
    change (strings.rev nl) with (String (byte 10) EmptyString). cbn [append].
    rewrite TrimLeftSpace_rev_space by reflexivity.
    rewrite TrimLeftSpace_rev_plain by reflexivity.
    rewrite <- Hr, rev_involutive_str. reflexivity.
Qed.

Lemma normalize_fenced_answer_witness :
  normalize (fence_open ++ "int x;" ++ fence_close) = "int x;" /\
  normalize (fence_open ++ "int x;" ++ fence_close ++ nl) = "int x;" ++ fence_close.
Proof.
  apply (normalize_fenced_answer "i" "nt x;" ";"); reflexivity.
Defined.

(** ** The prompt *)

Lemma Join_cons2 (e1 e2 : string) (rest : list string) (sep : string) :
  strings.Join (e1 :: e2 :: rest) sep = e1 ++ sep ++ strings.Join (e2 :: rest) sep.
Proof. reflexivity. Qed.

Lemma Join_split (a : string) (l1 : list string) (x y : string) (l2 : list string)
  (sep : string) :
  strings.Join ((a :: l1) ++ x :: y :: l2) sep =
  (strings.Join (a :: l1) sep ++ sep) ++ x ++ sep ++ strings.Join (y :: l2) sep.
Proof.
  revert a. induction l1 as [|b l1 IH]; intros a.
  - cbn [app]. rewrite !Join_cons2. cbn [strings.Join]. now rewrite append_assoc_str.
  - change ((a :: b :: l1) ++ x :: y :: l2)%list with (a :: ((b :: l1) ++ x :: y :: l2))%list.
    change ((b :: l1) ++ x :: y :: l2)%list with (b :: (l1 ++ x :: y :: l2))%list at 1.
    rewrite Join_cons2.
    change (b :: (l1 ++ x :: y :: l2))%list with ((b :: l1) ++ x :: y :: l2)%list.
    rewrite IH, (Join_cons2 a b l1). now rewrite !append_assoc_str.
Qed.

(** The prompt of lines 67-91 is the code between two fixed texts. *)
Lemma build_prompt_embeds_code :
  exists before after,
    forall code, build_prompt code = before ++ code ++ after.
Proof.
  eexists. eexists. intros code. unfold build_prompt.
  match goal with
  | |- strings.Join (?a :: ?b :: ?c :: ?d :: ?e :: ?f :: ?g :: ?h :: ?i :: ?j :: ?k
                       :: ?l :: ?m :: ?n :: ?o :: ?p :: ?q :: ?r :: ?s :: ?t
                       :: code :: ?u :: ?v) nl = ?rhs =>
      change (strings.Join
                ((a :: [b; c; d; e; f; g; h; i; j; k; l; m; n; o; p; q; r; s; t])
                   ++ code :: u :: v) nl = rhs)
  end.
  rewrite Join_split. reflexivity.
Qed.

Lemma coverage_run_no_call sourceFile t res req r :
  coverage_run sourceFile t res -> ~ In (EvGenerate req r) t.
Proof.
  intros H Hin. destruct H as [err|d t res Hs].
  { destruct Hin as [E | []]. discriminate. }
  destruct Hin as [E | Hin]; [discriminate|].
  apply in_app_or in Hin as [Hin | [E | []]]; [|discriminate].
  assert (Hsetup : forall t', Forall (fun ev => is_setup ev = true) t' ->
                              ~ In (EvGenerate req r) t').
  { intros t' Hf Hi. rewrite Forall_forall in Hf. apply Hf in Hi. discriminate. }
  destruct Hs as [t err Hs _|t1 t2 res Hs Hm].
  - exact (Hsetup _ Hs Hin).
  - apply in_app_or in Hin as [Hin | Hin]; [exact (Hsetup _ Hs Hin)|].
    apply measured_commands in Hm. rewrite Forall_forall in Hm.
    apply Hm in Hin. discriminate.
Qed.

Lemma generation_events_request model code t res req r :
  generation_events model code t res ->
  In (EvGenerate req r) t ->
  Prompt req = build_prompt code /\ Options req = generate_options.
Proof.
  intros H Hin. destruct H as [e|listed t o Hev].
  - destruct Hin as [E | []]. discriminate.
  - destruct Hin as [E | Hin]; [discriminate|].
    destruct (models_events_request _ _ _ _ _ _ Hev Hin) as [Hp [Ho _]]. now split.
Qed.

(** X22.  Every request a turn of the loop of [main] sends to the
    backend carries the content of the unit of that turn, as it was read,
    between the fixed instructions of lines 67-91, with the two options
    of lines 97-100. *)
Theorem requests_carry_the_unit {World : Type} {host : Host World}
  (filePath content : string) (w : World) (req : GenerateRequest) (r : result string) :
  In (EvGenerate req r) (trace_of (process_unit filePath content w)) ->
  Prompt req = build_prompt content /\
  substring_of content (Prompt req) /\
  Options req = generate_options.
Proof.
  intros Hin.
  destruct (process_unit_events filePath content w) as [o [w' [t [E H]]]].
  rewrite E in Hin. unfold trace_of in Hin. cbn [snd] in Hin.
  assert (Hstat : forall tp, Forall (fun ev => is_Stat ev = true) tp ->
                             ~ In (EvGenerate req r) tp).
  { intros tp Hf Hi. rewrite Forall_forall in Hf. apply Hf in Hi. discriminate. }
  assert (Hgen : forall tg res, generation_events default_model content tg res ->
                                In (EvGenerate req r) tg ->
                                Prompt req = build_prompt content /\
                                substring_of content (Prompt req) /\
                                Options req = generate_options).
  { intros tg res Hg Hi.
    destruct (generation_events_request _ _ _ _ _ _ Hg Hi) as [Hp Ho].
    split; [exact Hp|]. split; [|exact Ho]. rewrite Hp.
    destruct build_prompt_embeds_code as [before [after Hb]].
    exists before, after. apply Hb. }
  destruct H as [tp Hp|tp tg out err Hp Hg|tp tg tests tc passed cov err Hp Hg Hc
                |tp tg tests tc cov Hp Hg Hc|tp tg tests tc cov wr Hp Hg Hc];
    apply pairing_events_Stat in Hp; try apply sandbox_run_coarse in Hc.
  - destruct (Hstat _ Hp Hin).
  - apply in_app_or in Hin as [Hin | Hin]; [destruct (Hstat _ Hp Hin) | eauto].
  - apply in_app_or in Hin as [Hin | Hin]; [destruct (Hstat _ Hp Hin)|].
    apply in_app_or in Hin as [Hin | Hin]; [eauto|].
    destruct (coverage_run_no_call _ _ _ _ _ Hc Hin).
  - apply in_app_or in Hin as [Hin | Hin]; [destruct (Hstat _ Hp Hin)|].
    apply in_app_or in Hin as [Hin | Hin]; [eauto|].
    destruct (coverage_run_no_call _ _ _ _ _ Hc Hin).
  - apply in_app_or in Hin as [Hin | Hin]; [destruct (Hstat _ Hp Hin)|].
    apply in_app_or in Hin as [Hin | Hin]; [eauto|].
    apply in_app_or in Hin as [Hin | [Ew | []]]; [|discriminate].
    destruct (coverage_run_no_call _ _ _ _ _ Hc Hin).
Qed.

Lemma requests_carry_the_unit_witness :
  substring_of Scripted.calc_cpp
    (Prompt (set_Model (initial_request default_model Scripted.calc_cpp) default_model)).
Proof.
  destruct (requests_carry_the_unit (host := Scripted.host)
              "codebase/calc.cpp" Scripted.calc_cpp Scripted.happy
              (set_Model (initial_request default_model Scripted.calc_cpp) default_model)
              (Failure (ErrLibrary "timeout"))) as [_ [H _]].
  - vm_compute. repeat (first [left; reflexivity | right]).
  - exact H.
Defined.

